(** * striker_polymarket_api: a shallow embedding of the fetchers and the CLV join

    The Python sources are embedded function by function.  Conventions:
    - Python [int] is [Z]; list lengths and call counters are [nat];
    - a JSON object used as a dict is a [gmap string value], a Python [set]
      of ids is a [gset string];
    - the HTTP transport is an oracle [nat -> response]: the answer to the
      n-th call made by the function under study (any adaptive server is
      such a sequence on a given run);
    - [time.sleep], [semaphore.acquire] and the like are recorded in an
      event trace returned next to the result;
    - a [while True] loop is a [Fixpoint] on fuel that returns [None] when
      the fuel runs out; totality is proved separately where it holds;
    - the float64 values of pandas columns are the kernel's binary64 floats
      ([float]), with their IEEE 754 operations; durations of sleeps are
      rationals ([Q]). *)

From stdpp Require Import base list strings gmap sorting.
From Stdlib Require Import ZArith QArith Lia.
From Stdlib Require Import Floats.PrimFloat.

#[local] Set Warnings "-inexact-float".

Close Scope Q_scope.

(** ** JSON-like values held by the dicts the code passes around *)

Inductive value : Type :=
  | VStr (s : string)
  | VNum (z : Z)
  | VNull.

#[global] Instance value_eq_dec : EqDecision value.
Proof. solve_decision. Defined.

(** A record returned by an endpoint: a Python dict with string keys. *)
Abbreviation pydict := (gmap string value).

(** How a call ends: it returns a value, or an exception of the given class
    leaves it. *)
Inductive call_result (A : Type) : Type :=
  | Returns (a : A)
  | Raises (exception : string).

Arguments Returns {A} a.
Arguments Raises {A} exception.

(** ** Graph pager and backfill fetcher
    (src/striker_polymarket_api/subgraph_api/fetch_subgraph.py) *)
Module Subgraph.

(** [pos.get("balance", "0")] *)
Definition balance_str (pos : pydict) : value :=
  default (VStr "0") (pos !! "balance").

(** The test [balance_str == "0"]. *)
Definition is_closed (pos : pydict) : bool :=
  bool_decide (balance_str pos = VStr "0").

(** One turn of the [for pos in positions] loop of [split_positions]:
    [closed.append(pos)] or [active.append(pos)]. *)
Definition split_step (acc : list pydict * list pydict) (pos : pydict)
  : list pydict * list pydict :=
  let '(active, closed) := acc in
  if is_closed pos then (active, closed ++ [pos]) else (active ++ [pos], closed).

(** [split_positions(positions) -> (active, closed)] *)
Definition split_positions (positions : list pydict) : list pydict * list pydict :=
  foldl split_step ([], []) positions.

Local Open Scope Z_scope.

(** *** The cursor pager *)

(** An element of [userBalances] as the subgraph sends it; [.get] chains
    through absent keys give [None]. *)
Record raw_position : Type := {
  raw_id : option value;
  raw_user : option value;
  raw_balance : option value;
  raw_token_id : option value;        (* [pos.get("asset", {}).get("id")] *)
  raw_condition_id : option value;    (* [....get("condition", {}).get("id")] *)
  raw_outcome_index : option value;   (* [pos.get("asset", {}).get("outcomeIndex")] *)
}.

(** What [query_graphql] returns. *)
Inductive graphql_result : Type :=
  | TransportError (message : string)
      (* a [RequestException] was caught: [{"error": str(e)}] *)
  | Json (has_error : bool) (data : option (option (list raw_position))).
      (* the decoded body: whether it has the key ["error"]; its ["data"]
         ([None] when absent or falsy), inside it ["userBalances"] *)

(** [d.get(key)]: [None] is Python's [None]. *)
Definition py_get (o : option value) : value := default VNull o.

(** The dict [get_user_positions] builds for one position. *)
Definition transform (pos : raw_position) : pydict :=
  <["id" := py_get (raw_id pos)]>
  (<["user" := py_get (raw_user pos)]>
  (<["balance" := default (VStr "0") (raw_balance pos)]>
  (<["tokenId" := py_get (raw_token_id pos)]>
  (<["conditionId" := py_get (raw_condition_id pos)]>
  (<["outcomeIndex" := py_get (raw_outcome_index pos)]> ∅))))).

(** [get_user_positions], given the result of its query. *)
Definition get_user_positions (result : graphql_result) : list pydict :=
  match result with
  | TransportError _ => []
  | Json true _ => []
  | Json false (Some user_balances) => transform <$> default [] user_balances
  | Json false None => []
  end.

(** The [while True] loop of [get_all_user_positions].  [graphql n first
    skip] is the result of the n-th query, sent with these variables.  The
    second component lists the [(first, skip)] of the queries sent. *)
Fixpoint pager_loop (fuel : nat) (graphql : nat → Z → Z → graphql_result)
    (batch_size : Z) (all_positions : list pydict) (queries : list (Z * Z))
    (skip : Z) (n : nat) : option (list pydict * list (Z * Z)) :=
  match fuel with
  | O => None
  | S fuel =>
      let batch := get_user_positions (graphql n batch_size skip) in
      let queries := queries ++ [(batch_size, skip)] in
      if bool_decide (batch = []) then Some (all_positions, queries)
      else
        let all_positions := all_positions ++ batch in
        if bool_decide (Z.of_nat (length batch) < batch_size)%Z
        then Some (all_positions, queries)
        else pager_loop fuel graphql batch_size all_positions queries
               (skip + batch_size)%Z (S n)
  end.

(** [get_all_user_positions] *)
Definition get_all_user_positions (fuel : nat)
    (graphql : nat → Z → Z → graphql_result) (batch_size : Z)
  : option (list pydict * list (Z * Z)) :=
  pager_loop fuel graphql batch_size [] [] 0 0.

(** The page the k-th query brings when the queries before it brought full
    pages: it is sent with [skip = k * batch_size]. *)
Definition page (graphql : nat → Z → Z → graphql_result) (batch_size : Z) (k : nat)
  : list pydict :=
  get_user_positions (graphql k batch_size (Z.of_nat k * batch_size)).

(** The pages after which the loop breaks. *)
Definition stops (batch_size : Z) (p : list pydict) : Prop :=
  p = [] ∨ Z.of_nat (length p) < batch_size.

Definition query (batch_size : Z) (k : nat) : Z * Z :=
  (batch_size, Z.of_nat k * batch_size).

(** A subgraph that has two positions for the user, asked for pages of two:
    the second query fails. *)
Definition two_then_error : nat → Z → Z → graphql_result := λ n _ _,
  match n with
  | O => Json false (Some (Some
           [ {| raw_id := Some (VStr "p1"); raw_user := None; raw_balance := None;
                raw_token_id := None; raw_condition_id := None; raw_outcome_index := None |};
             {| raw_id := Some (VStr "p2"); raw_user := None; raw_balance := Some (VStr "7");
                raw_token_id := None; raw_condition_id := None; raw_outcome_index := None |} ]))
  | S _ => TransportError "timeout"
  end.

(** *** Batched PNL fetch *)

(** [response.json()] on the positions endpoints. *)
Inductive pnl_body : Type :=
  | PnlList (data : list pydict)
  | PnlOther.                      (* not a list *)

(** What [requests.get] and [response.json()] do inside the [try]. *)
Inductive pnl_response : Type :=
  | PnlResp (status_code : Z) (body : pnl_body)
  | PnlRaise.                      (* an exception, from either *)

Inductive pnl_event : Type :=
  | Query (offset : Z)
  | Pause (seconds : Q).

Definition pnl_then {R : Type} (evs : list pnl_event) (k : option (R * list pnl_event))
  : option (R * list pnl_event) :=
  match k with
  | Some (r, tr) => Some (r, evs ++ tr)
  | None => None
  end.

Definition fatal_errors : list Z := [400; 401; 403; 404]%Z.

(** The [while True] loop of [_fetch_batch_pnl].  [http n offset] answers
    the n-th request. *)
Fixpoint batch_loop (fuel : nat) (http : nat → Z → pnl_response)
    (limit max_retries : Z) (batch_data : list pydict) (offset retry_count : Z)
    (n : nat) : option (list pydict * list pnl_event) :=
  match fuel with
  | O => None
  | S fuel =>
      match http n offset with
      | PnlResp status_code body =>
          if bool_decide (status_code = 200) then
            match body with
            | PnlList (record :: records) =>
                let data := record :: records in
                let batch_data := batch_data ++ data in
                let records_this_page := Z.of_nat (length data) in
                if bool_decide (records_this_page < limit)%Z
                then Some (batch_data, [Query offset])
                else
                  let offset' := (offset + limit)%Z in
                  if bool_decide (10000 ≤ offset')%Z
                  then Some (batch_data, [Query offset])
                  else pnl_then [Query offset; Pause 0.1%Q]
                         (batch_loop fuel http limit max_retries batch_data offset' 0 (S n))
            | _ => Some (batch_data, [Query offset])
            end
          else if bool_decide (status_code = 429) then
            let exponential_delay := Z.min (2 * 2 ^ retry_count) 60 in
            let retry_count := (retry_count + 1)%Z in
            if bool_decide (max_retries ≤ retry_count)%Z
            then Some (batch_data, [Query offset; Pause (inject_Z exponential_delay)])
            else pnl_then [Query offset; Pause (inject_Z exponential_delay)]
                   (batch_loop fuel http limit max_retries batch_data offset retry_count (S n))
          else if bool_decide (status_code ∈ fatal_errors)
          then Some (batch_data, [Query offset])
          else
            let retry_count := (retry_count + 1)%Z in
            if bool_decide (max_retries ≤ retry_count)%Z
            then Some (batch_data, [Query offset])
            else
              let delay := (2 * 2 ^ retry_count)%Z in
              pnl_then [Query offset; Pause (inject_Z (Z.min delay 60))]
                (batch_loop fuel http limit max_retries batch_data offset retry_count (S n))
      | PnlRaise =>
          let retry_count := (retry_count + 1)%Z in
          if bool_decide (max_retries ≤ retry_count)%Z
          then Some (batch_data, [Query offset])
          else pnl_then [Query offset; Pause 2]
                 (batch_loop fuel http limit max_retries batch_data offset retry_count (S n))
      end
  end.

(** [_fetch_batch_pnl] *)
Definition _fetch_batch_pnl (fuel : nat) (http : nat → Z → pnl_response)
    (limit max_retries : Z) : option (list pydict * list pnl_event) :=
  batch_loop fuel http limit max_retries [] 0 0 0.

(** Turns of the loop that suffice when [limit] is positive: offsets below
    10000 that remain, times the retries each may take. *)
Definition batch_measure (limit max_retries offset retry_count : Z) : Z :=
  ((10000 - offset + limit - 1) / limit * Z.max max_retries 1
   + (Z.max max_retries 1 - retry_count))%Z.

Definition batch_fuel (limit max_retries : Z) : nat :=
  Z.to_nat (batch_measure limit max_retries 0 0).

(** The offsets asked for. *)
Definition queried (tr : list pnl_event) : list Z :=
  omap (λ e, match e with Query offset => Some offset | Pause _ => None end) tr.

(** The server never sends more records than asked for. *)
Definition honest (http : nat → Z → pnl_response) (limit : Z) : Prop :=
  ∀ n offset data, http n offset = PnlResp 200 (PnlList data) →
                   Z.of_nat (length data) ≤ limit.

(** A server that ignores [limit] and sends 10001 records at once. *)
Definition oversized_page : nat → Z → pnl_response := λ n _,
  match n with
  | O => PnlResp 200 (PnlList (∅ :: replicate (Z.to_nat 10000) ∅))
  | S _ => PnlResp 200 (PnlList [])
  end.

(** A server that is rate limiting throughout. *)
Definition always_429 : nat → Z → pnl_response := λ _ _, PnlResp 429 PnlOther.

(** [fetch_from_rest]: the ids in batches of [markets_per_request]. *)
Definition batches (markets_per_request : nat) (condition_ids : list string)
  : list (list string) :=
  (λ i : nat, take markets_per_request (drop (i * markets_per_request)%nat condition_ids))
    <$> seq 0 ((length condition_ids + markets_per_request - 1) / markets_per_request)%nat.

(** [fetch_from_rest] with [markets_per_request = 50]: every batch runs
    [_fetch_batch_pnl] with its defaults ([limit = 25], [max_retries = 5]);
    [http i] is the transport of the i-th batch; the rows are merged in
    completion order.  The result is the list of rows of the DataFrame. *)
Definition fetch_from_rest (http : nat → nat → Z → pnl_response)
    (completion_order : list (list pydict) → list (list pydict))
    (condition_ids : list string) : option (list pydict) :=
  results ← mapM (λ i, fst <$> _fetch_batch_pnl (batch_fuel 25 5) (http i) 25 5)
              (seq 0 (length (batches 50 condition_ids)));
  Some (concat (completion_order results)).

(** The [while True] loop of [fetch_missing] for one id. *)
Fixpoint missing_loop (fuel : nat) (http : nat → Z → pnl_response)
    (condition_data : list pydict) (offset : Z) (n : nat) : option (list pydict) :=
  match fuel with
  | O => None
  | S fuel =>
      match http n offset with
      | PnlResp status_code body =>
          if bool_decide (status_code = 200) then
            match body with
            | PnlList (record :: records) =>
                let data := record :: records in
                let condition_data := condition_data ++ data in
                if bool_decide (Z.of_nat (length data) < 500)%Z then Some condition_data
                else
                  let offset := (offset + 500)%Z in
                  if bool_decide (10000 ≤ offset)%Z then Some condition_data
                  else missing_loop fuel http condition_data offset (S n)
            | _ => Some condition_data
            end
          else if bool_decide (status_code = 429)
          then missing_loop fuel http condition_data offset (S n)
          else Some condition_data
      | PnlRaise => Some condition_data
      end
  end.

(** What the single-id fetch collects for [condition_id]. *)
Definition fetch_single (fuel : nat) (http : string → nat → Z → pnl_response)
    (condition_id : string) : option (list pydict) :=
  missing_loop fuel (http condition_id) [] 0 0.

(** [fetch_missing]: the rows of the DataFrame it returns. *)
Definition fetch_missing (fuel : nat) (http : string → nat → Z → pnl_response)
    (missing_list : list string) : option (list pydict) :=
  additional ← mapM (fetch_single fuel http) missing_list;
  Some (concat additional).

(** [DataFrame(rows).empty]: no row, or no column. *)
Definition df_empty (rows : list pydict) : bool :=
  forallb (λ r, bool_decide (r = ∅)) rows.

(** ['conditionId' in df.columns] *)
Definition has_column (column : string) (rows : list pydict) : bool :=
  existsb (λ r, bool_decide (is_Some (r !! column))) rows.

(** [pos.get("conditionId")] when it is truthy (ids are strings). *)
Definition condition_id_of (pos : pydict) : option string :=
  match pos !! "conditionId" with
  | Some (VStr s) => if bool_decide (s = "") then None else Some s
  | _ => None
  end.

(** [set(pos.get("conditionId") for pos in positions if pos.get("conditionId"))] *)
Definition unique_condition_ids (positions : list pydict) : gset string :=
  list_to_set (omap condition_id_of positions).

(** [set(df_rest['conditionId'].unique())], as far as it can meet the ids. *)
Definition found_ids (df_rest : list pydict) : gset string :=
  list_to_set (omap (λ r, match r !! "conditionId" with
                          | Some (VStr s) => Some s
                          | _ => None
                          end) df_rest).

(** A bulk endpoint that answers 404 and a single-id endpoint that has one
    record for every id. *)
Definition bulk_404 : nat → nat → Z → pnl_response := λ _ _ _, PnlResp 404 PnlOther.

Definition single_has_one : string → nat → Z → pnl_response := λ condition_id _ _,
  PnlResp 200 (PnlList [ {["conditionId" := VStr condition_id]} ]).

(** A bulk endpoint that knows "c1" only. *)
Definition bulk_c1 : nat → nat → Z → pnl_response := λ _ _ _,
  PnlResp 200 (PnlList [ {["conditionId" := VStr "c1"]} ]).

Definition submitted : list (list pydict) → list (list pydict) := λ l, l.

Definition positions_c1_c2 : list pydict :=
  [ {["conditionId" := VStr "c1"]}; {["conditionId" := VStr "c2"]} ].

End Subgraph.

(** ** The retry policy of the batched PNL fetch
    (src/striker_polymarket_api/subgraph_api/fetch_subgraph.py) *)
Module BatchPolicy.
Import Subgraph.
Local Open Scope Z_scope.

(** The answers after which the loop of [_fetch_batch_pnl] asks again for
    the same offset, budget permitting: a 429, any other status that is
    neither 200 nor in [fatal_errors], and an exception. *)
Definition retried (r : pnl_response) : bool :=
  match r with
  | PnlResp status_code _ =>
      negb (bool_decide (status_code = 200))
      && negb (bool_decide (status_code ∈ fatal_errors))
  | PnlRaise => true
  end.

(** The sleep between a retried answer and the next request, when the
    answer found [retry_count] failures before it: after a 429 the delay is
    computed before the counter is incremented, after another status it is
    computed after, and after an exception it is fixed. *)
Definition retry_pause (r : pnl_response) (retry_count : Z) : Q :=
  match r with
  | PnlResp status_code _ =>
      if bool_decide (status_code = 429)
      then inject_Z (Z.min (2 * 2 ^ retry_count) 60)
      else inject_Z (Z.min (2 * 2 ^ (retry_count + 1)) 60)
  | PnlRaise => 2
  end.

(** The events of [m] consecutive retried requests for [offset], the first
    of which is request number [n] and finds the counter at
    [retry_count]. *)
Fixpoint retried_requests (http : nat → Z → pnl_response) (offset retry_count : Z)
    (n m : nat) : list pnl_event :=
  match m with
  | O => []
  | S m =>
      [Query offset; Pause (retry_pause (http n offset) retry_count)]
      ++ retried_requests http offset (retry_count + 1) (S n) m
  end.

(** The events of the retried answer that spends the budget: a 429 is
    still slept on before the loop is left. *)
Definition giving_up (r : pnl_response) (offset retry_count : Z) : list pnl_event :=
  match r with
  | PnlResp status_code _ =>
      if bool_decide (status_code = 429)
      then [Query offset; Pause (inject_Z (Z.min (2 * 2 ^ retry_count) 60))]
      else [Query offset]
  | PnlRaise => [Query offset]
  end.

(** A server that sends one record whatever is asked. *)
Definition always_one_record : nat → Z → pnl_response := λ _ _,
  PnlResp 200 (PnlList [∅]).

(** A transport that fails on every request. *)
Definition always_raising : nat → Z → pnl_response := λ _ _, PnlRaise.

(** 429, 500 and an exception, then 404. *)
Definition flaky_then_404 : nat → Z → pnl_response := λ n _,
  match n with
  | 0%nat => PnlResp 429 PnlOther
  | 1%nat => PnlResp 500 PnlOther
  | 2%nat => PnlRaise
  | _ => PnlResp 404 PnlOther
  end.

End BatchPolicy.

(** ** Reference price lookup (src/price_history.py) *)
Module PriceHistory.
Local Open Scope Z_scope.

(** One element of the ["history"] list: a dict with keys ["t"] (unix
    seconds) and ["p"] (price), either of which may be absent. *)
Record entry : Type := { t : option Z; p : option Q }.

(** [entry.get("t", 0)] *)
Definition entry_ts (e : entry) : Z := default 0 (t e).

(** [min_ts <= entry_ts <= match_ts] *)
Definition in_window (min_ts match_ts : Z) (e : entry) : bool :=
  bool_decide (min_ts ≤ entry_ts e) && bool_decide (entry_ts e ≤ match_ts).

(** [sorted(valid_entries, key=lambda x: x.get("t", 0), reverse=True)].
    Python's sort is stable, also with [reverse=True]: entries with equal
    keys keep their input order.  Insertion from the right, placing an
    entry before the first one whose key is not larger, does the same. *)
Fixpoint insert_desc (e : entry) (l : list entry) : list entry :=
  match l with
  | [] => [e]
  | x :: l' =>
      if bool_decide (entry_ts x ≤ entry_ts e) then e :: x :: l'
      else x :: insert_desc e l'
  end.

Definition sorted_desc (l : list entry) : list entry := foldr insert_desc [] l.

(** The argument [price_history]: [None] is Python's [None] or an empty
    dict, [Some None] a dict without the key ["history"], [Some (Some h)] a
    dict whose ["history"] is the list [h]. *)
Definition price_history_t : Type := option (option (list entry)).

Definition history_of (price_history : price_history_t) : list entry :=
  match price_history with
  | Some (Some history) => history
  | _ => []
  end.

(** [extract_match_start_price(price_history, match_datetime, max_hours_before)];
    [match_ts] is [int(match_datetime.timestamp())]. *)
Definition extract_match_start_price
    (price_history : price_history_t) (match_ts : Z) (max_hours_before : Z)
  : option entry :=
  match price_history with
  | None | Some None => None
  | Some (Some history) =>
      match history with
      | [] => None
      | _ =>
          let max_seconds_before := max_hours_before * 3600 in
          let min_ts := match_ts - max_seconds_before in
          let valid_entries := List.filter (in_window min_ts match_ts) history in
          match valid_entries with
          | [] => None
          | _ => head (sorted_desc valid_entries)
          end
      end
  end.

End PriceHistory.

(** ** CLV aggregation (src/striker_polymarket_api/rest.py) *)
Module Rest.

(** A row of [trades_df]. [price] and [size] are float64 columns,
    [timestamp] is the millisecond epoch the API sends. *)
Record trade : Type := {
  conditionId : string;
  asset : string;
  price : float;
  size : float;
  timestamp : Z;
}.

(** A row of [clv_df] as the loop reads it: the key columns,
    [start_time_unix] and [match_start_price] ([None] is Python's [None],
    the value [process_dataframe] leaves where it found no price). *)
Record position_row : Type := {
  pos_conditionId : string;
  pos_asset : string;
  start_time_unix : Z;
  match_start_price : option float;
}.

(** The value stored in [clv_results[composite_key]]. *)
Record clv_result : Type := {
  price_clv : float;
  odds_clv : float;
  avg_price : float;
  closing_price : float;
}.

(** What one turn of the [for ... in trades_df.groupby(...)] loop does. *)
Inductive clv_outcome : Type :=
  | KeyNotFound                     (* [continue], nothing recorded *)
  | Reason (reason : string)        (* [clv_reasons[composite_key] = reason] *)
  | Computed (r : clv_result).      (* [clv_results[composite_key] = r] *)

(** [f"{condition_id}_{asset}"] *)
Definition composite_key (condition_id asset_id : string) : string :=
  (condition_id +:+ "_" +:+ asset_id)%string.

(** [trades_df['timestamp'].astype(float) // 1000]: the floor of the
    quotient, which the floats give exactly for a millisecond epoch (an
    integer below 2^53). *)
Definition timestamp_seconds (tr : trade) : Z := (timestamp tr / 1000)%Z.

(** [group_df]: the rows of [trades_df] with this (conditionId, asset). *)
Definition group_df (trades_df : list trade) (condition_id asset_id : string)
  : list trade :=
  List.filter (λ tr, bool_decide (conditionId tr = condition_id)
                     && bool_decide (asset tr = asset_id)) trades_df.

(** [(condition_id, asset) in df_keys_set] followed by
    [df_lookup.loc[(condition_id, asset)]] and, when several rows share the
    key, [.iloc[0]]: the first row with that key, if any. *)
Definition lookup_row (clv_df : list position_row) (condition_id asset_id : string)
  : option position_row :=
  head (List.filter (λ r, bool_decide (pos_conditionId r = condition_id)
                          && bool_decide (pos_asset r = asset_id)) clv_df).

(** [group_df[group_df['timestamp_seconds'] < start_time]] *)
Definition pre_market (start_time : Z) (group : list trade) : list trade :=
  List.filter (λ tr, bool_decide (timestamp_seconds tr < start_time)%Z) group.

(** [pd.isna(closing_price)]: [None] or a NaN. *)
Definition isna (closing_price : option float) : bool :=
  match closing_price with
  | None => true
  | Some x => PrimFloat.is_nan x
  end.

Section WithLibrary.

(** [Series.sum()] of a float64 column that is not empty: the float pandas
    returns.  It skips NaN and adds in the order of numpy's reduction
    (pairwise on long columns), which is the library's and not this
    program's; the loop is followed for whatever that float is. *)
Variable float_sum : list float → float.

(** [column.sum()]: 0.0 on an empty column. *)
Definition column_sum (column : list float) : float :=
  match column with
  | [] => 0%float
  | _ :: _ => float_sum column
  end.

(** The value [safe_divide] returns on a zero denominator. *)
Variable sentinel : float.

(** Modelled from the spec: [helpers.safe_divide] is imported by rest.py but
    its definition is not among the sources.  The spec describes it as a
    safe-division convention that returns a defined sentinel (not an error)
    when the denominator is exactly zero. *)
Definition safe_divide (a b : float) : float :=
  if PrimFloat.eqb b 0 then sentinel else PrimFloat.div a b.

(** The body of the loop for one group, given the looked-up row; the
    arithmetic is float64 arithmetic. *)
Definition clv_group (lookup : option position_row) (group : list trade)
  : clv_outcome :=
  match lookup with
  | None => KeyNotFound
  | Some row =>
      let start_time := start_time_unix row in
      match match_start_price row with
      | None => Reason "closing_price_is_nan"
      | Some closing =>
          if isna (Some closing) then Reason "closing_price_is_nan"
          else
            let filtered_df := pre_market start_time group in
            let total_size := column_sum (map size filtered_df) in
            if PrimFloat.eqb total_size 0 then Reason "sem_trades_pre_market"
            else
              let avg :=
                PrimFloat.div
                  (column_sum (map (λ tr, PrimFloat.mul (size tr) (price tr)) filtered_df))
                  total_size in
              Computed {| price_clv := PrimFloat.sub closing avg;
                          odds_clv := PrimFloat.sub (safe_divide 1 avg)
                                                    (safe_divide 1 closing);
                          avg_price := avg;
                          closing_price := closing |}
      end
  end.

(** One turn of the loop of [calculate_clv] for the group key
    [(condition_id, asset)]. *)
Definition calculate_clv_group
    (clv_df : list position_row) (trades_df : list trade)
    (condition_id asset_id : string) : clv_outcome :=
  clv_group (lookup_row clv_df condition_id asset_id)
            (group_df trades_df condition_id asset_id).

End WithLibrary.

(** The additions taken from left to right, starting from 0.0: what every
    order of additions gives on a column of one or two numbers. *)
Definition sequential_sum (column : list float) : float :=
  fold_left PrimFloat.add column 0%float.

(** The trades and the position of the worked example: prices 0.40 and 0.60,
    sizes 100 and 50, at seconds 10 and 20, start 30, closing price 0.55. *)
Definition example_trades : list trade :=
  [ {| conditionId := "c"; asset := "a"; price := 0.40%float; size := 100%float;
       timestamp := 10000 |};
    {| conditionId := "c"; asset := "a"; price := 0.60%float; size := 50%float;
       timestamp := 20000 |} ].

Definition example_row : position_row :=
  {| pos_conditionId := "c"; pos_asset := "a";
     start_time_unix := 30; match_start_price := Some 0.55%float |}.

(** A group whose only pre-start trade has size zero. *)
Definition zero_size_trades : list trade :=
  [ {| conditionId := "c"; asset := "a"; price := 0.40%float; size := 0%float;
       timestamp := 10000 |} ].

(** The position of the worked example with a closing price of zero. *)
Definition zero_closing_row : position_row :=
  {| pos_conditionId := "c"; pos_asset := "a";
     start_time_unix := 30; match_start_price := Some 0%float |}.

End Rest.

(** ** Gated market fetcher (src/fetch_clv.py) *)
Module FetchClv.
Local Open Scope Z_scope.

(** What [response.json()] gives on the trades endpoint. *)
Inductive trades_body : Type :=
  | TradesList (l : list pydict)               (* a JSON list *)
  | TradesObject (trades : option (list pydict)) (* an object, with or without ['trades'] *)
  | TradesBad.                                  (* not JSON, or neither list nor object *)

(** What one [requests.get(url, params=params, timeout=30)] does. *)
Inductive response : Type :=
  | Resp (status_code : Z) (body : trades_body)
  | RaiseRequestException      (* [requests.exceptions.RequestException] *)
  | RaiseOther.                (* any other exception *)

(** What is observable of a call besides its result. *)
Inductive event : Type :=
  | Acquire            (* [semaphore.acquire()] returned *)
  | Release            (* [semaphore.release()] *)
  | RequestStart       (* [requests.get] entered *)
  | RequestEnd         (* [requests.get] left, by return or by exception *)
  | Sleep (seconds : Q).

#[global] Instance Q_eq_dec : EqDecision Q.
Proof. solve_decision. Defined.

#[global] Instance event_eq_dec : EqDecision event.
Proof. solve_decision. Defined.

(** How a function ends: [return (trades, success)] or an exception that
    leaves it. *)
Inductive outcome : Type :=
  | Return (trades : list pydict) (success : bool)
  | Raise.

Definition request : list event := [RequestStart; RequestEnd].

(** [data if isinstance(data, list) else data.get('trades', [])] *)
Definition trades_of_body (body : trades_body) : option (list pydict) :=
  match body with
  | TradesList l => Some l
  | TradesObject trades => Some (default [] trades)
  | TradesBad => None
  end.

(** [min(10 + (2 ** internal_retry_count), 30)] *)
Definition rate_limit_delay (internal_retry_count : Z) : Z :=
  Z.min (10 + 2 ^ internal_retry_count) 30.

(** Adds the events of the current turn in front of what the rest of the
    loop does. *)
Definition then_ {R : Type} (evs : list event) (k : option (R * list event))
  : option (R * list event) :=
  match k with
  | Some (r, tr) => Some (r, evs ++ tr)
  | None => None
  end.

(** The [while internal_retry_count <= max_retries] loop, lines 37-84.
    [http n] answers the n-th request of this call.  [None]: out of fuel. *)
Fixpoint page_loop (fuel : nat) (http : nat → response) (max_retries : Z)
    (internal_retry_count : Z) (n : nat) : option (outcome * list event) :=
  match fuel with
  | O => None
  | S fuel =>
      if bool_decide (internal_retry_count ≤ max_retries) then
        match http n with
        | RaiseRequestException =>
            let internal_retry_count := internal_retry_count + 1 in
            if bool_decide (internal_retry_count > max_retries)
            then Some (Return [] false, request)
            else then_ (request ++ [Sleep 5])
                   (page_loop fuel http max_retries internal_retry_count (S n))
        | RaiseOther => Some (Raise, request)
        | Resp status_code body =>
            if bool_decide (status_code = 200) then
              match trades_of_body body with
              | Some result => Some (Return result true, request)
              | None => Some (Raise, request)
              end
            else if bool_decide (status_code = 429) || bool_decide (status_code = 408) then
              let internal_retry_count := internal_retry_count + 1 in
              if bool_decide (internal_retry_count > max_retries)
              then Some (Return [] false, request)
              else
                let delay := rate_limit_delay internal_retry_count in
                then_ (request ++ [Sleep (inject_Z delay)])
                  (page_loop fuel http max_retries internal_retry_count (S n))
            else Some (Return [] false, request)
        end
      else Some (Return [] false, [])
  end.

(** Turns of the loop that suffice: the counter grows at every turn that
    continues. *)
Definition page_fuel (max_retries : Z) : nat := S (Z.to_nat (max_retries + 1)).

(** [fetch_trades_for_single_market_page]: [semaphore.acquire()], the loop
    inside [try], [semaphore.release()] in [finally]. *)
Definition fetch_trades_for_single_market_page
    (http : nat → response) (max_retries : Z) : option (outcome * list event) :=
  match page_loop (page_fuel max_retries) http max_retries 0 0 with
  | Some (out, tr) => Some (out, [Acquire] ++ tr ++ [Release])
  | None => None
  end.

(** [fetch_trades_for_market_complete]: the [while True] loop over pages.
    [http page n] answers the n-th request made for the page-th page call.
    The trace is returned even when the fuel runs out (result [None]): it
    is then what has happened so far. *)
Fixpoint market_loop (fuel : nat) (http : nat → nat → response)
    (limit max_retries : Z) (all_trades : list pydict) (offset : Z) (page_num : nat)
  : option outcome * list event :=
  match fuel with
  | O => (None, [])
  | S fuel =>
      match fetch_trades_for_single_market_page (http page_num) max_retries with
      | None => (None, [])
      | Some (Raise, tr) => (Some Raise, tr)
      | Some (Return page_trades success, tr) =>
          if negb success then (Some (Return all_trades false), tr)
          else if bool_decide (page_trades = []) then (Some (Return all_trades true), tr)
          else
            let all_trades := all_trades ++ page_trades in
            if bool_decide (Z.of_nat (length page_trades) < limit)
            then (Some (Return all_trades true), tr)
            else
              let '(out, tr') :=
                market_loop fuel http limit max_retries all_trades
                  (offset + limit) (S page_num) in
              (out, tr ++ [Sleep 0.1%Q] ++ tr')
      end
  end.

Definition fetch_trades_for_market_complete (fuel : nat)
    (http : nat → nat → response) (limit max_retries : Z)
  : option outcome * list event :=
  market_loop fuel http limit max_retries [] 0 0.

(** *** Vocabulary for the statements about one page call *)

(** The answers after which the loop goes round again, budget permitting:
    429, 408 and a [RequestException]. *)
Definition transient (r : response) : bool :=
  match r with
  | Resp status_code _ => bool_decide (status_code = 429) || bool_decide (status_code = 408)
  | RaiseRequestException => true
  | RaiseOther => false
  end.

(** The sleep between a transient answer and the next request, when
    [internal_retry_count] has already been incremented to [retry]. *)
Definition retry_sleep (r : response) (retry : Z) : Q :=
  match r with
  | RaiseRequestException => 5
  | _ => inject_Z (rate_limit_delay retry)
  end.

(** How an answer that is not transient ends the call. *)
Definition final_outcome (r : response) : outcome :=
  match r with
  | Resp status_code body =>
      if bool_decide (status_code = 200) then
        match trades_of_body body with
        | Some result => Return result true
        | None => Raise
        end
      else Return [] false
  | RaiseRequestException => Return [] false
  | RaiseOther => Raise
  end.

(** The events of [m] consecutive retried requests, the first of which is
    request number [n] and finds the counter at [retry]. *)
Fixpoint retries (http : nat → response) (retry : Z) (n m : nat) : list event :=
  match m with
  | O => []
  | S m =>
      request ++ [Sleep (retry_sleep (http n) (retry + 1))]
      ++ retries http (retry + 1) (S n) m
  end.

(** A thread's events respect the gate discipline from a state where it
    holds a permit or not ([h]) and is inside a request or not ([r]):
    acquire only when not holding, request only while holding, release only
    while holding and outside a request, and nothing held at the end. *)
Fixpoint gated (h r : bool) (todo : list event) : bool :=
  match todo with
  | [] => negb h && negb r
  | Acquire :: rest => negb h && negb r && gated true false rest
  | Release :: rest => h && negb r && gated false false rest
  | RequestStart :: rest => h && negb r && gated h true rest
  | RequestEnd :: rest => r && gated h false rest
  | Sleep _ :: rest => negb r && gated h r rest
  end.

(** *** The gate shared by the worker threads

    [fetch_clv] creates [Semaphore(simultaneous_requests)] and every market
    task of the thread pool runs page calls against it.  A thread is what it
    still has to do and whether it holds a permit or is inside
    [requests.get]. *)
Record thread : Type := {
  holding : bool;
  requesting : bool;
  todo : list event;
}.

Record system : Type := {
  permits : nat;
  threads : list thread;
}.

(** The next event of a thread.  [Acquire] needs a free permit
    ([threading.Semaphore.acquire] blocks while the counter is zero). *)
Definition thread_step (permits : nat) (th : thread) : option (nat * thread) :=
  match todo th with
  | [] => None
  | Acquire :: rest =>
      match permits with
      | O => None
      | S permits' => Some (permits', {| holding := true; requesting := requesting th; todo := rest |})
      end
  | Release :: rest =>
      Some (S permits, {| holding := false; requesting := requesting th; todo := rest |})
  | RequestStart :: rest =>
      Some (permits, {| holding := holding th; requesting := true; todo := rest |})
  | RequestEnd :: rest =>
      Some (permits, {| holding := holding th; requesting := false; todo := rest |})
  | Sleep _ :: rest =>
      Some (permits, {| holding := holding th; requesting := requesting th; todo := rest |})
  end.

(** Any thread that can move may move next: every interleaving, whatever
    the size of the pool. *)
Inductive step : system → system → Prop :=
  | step_thread (s : system) (i : nat) (th th' : thread) (permits' : nat) :
      threads s !! i = Some th →
      thread_step (permits s) th = Some (permits', th') →
      step s {| permits := permits'; threads := <[i := th']> (threads s) |}.

Inductive reachable (s0 : system) : system → Prop :=
  | reachable_refl : reachable s0 s0
  | reachable_step (s s' : system) : reachable s0 s → step s s' → reachable s0 s'.

Definition start_thread (program : list event) : thread :=
  {| holding := false; requesting := false; todo := program |}.

(** The state when the pool starts: all permits free, nothing run. *)
Definition initial (simultaneous_requests : nat) (programs : list (list event)) : system :=
  {| permits := simultaneous_requests; threads := start_thread <$> programs |}.

(** Lets thread [i] make its next move, if it has one. *)
Definition run_thread (i : nat) (s : system) : system :=
  match threads s !! i with
  | Some th =>
      match thread_step (permits s) th with
      | Some (permits', th') => {| permits := permits'; threads := <[i := th']> (threads s) |}
      | None => s
      end
  | None => s
  end.

(** Threads inside [requests.get] at this instant. *)
Definition in_flight (s : system) : nat :=
  length (List.filter requesting (threads s)).

Definition holders (s : system) : nat :=
  length (List.filter holding (threads s)).

(** A thread is in order when what it still has to do respects the gate
    from its present state, and it is inside a request only while holding a
    permit. *)
Definition thread_ok (th : thread) : Prop :=
  gated (holding th) (requesting th) (todo th) = true
  ∧ (requesting th = true → holding th = true).

(** 1 for [true], 0 for [false]. *)
Definition weight (b : bool) : nat := if b then 1%nat else 0%nat.


(** What every reachable state satisfies. *)
Definition gate_inv (capacity : nat) (s : system) : Prop :=
  (permits s + holders s = capacity)%nat ∧ Forall thread_ok (threads s).

(** A market whose first page is empty. *)
Definition quiet_market : nat → nat → response := λ _ _, Resp 200 (TradesList []).

(** Two markets, one permit: the first thread acquires and enters its
    request, the second is then blocked on the gate. *)
Definition contended : system :=
  run_thread 1 (run_thread 0 (run_thread 0
    (initial 1
       ((λ http, (fetch_trades_for_market_complete 1 http 100 3).2)
          <$> [quiet_market; quiet_market])))).

(** *** Orchestration *)

(** What [future.result()] gives for one market. *)
Inductive market_result : Type :=
  | Fetched (trades : list pydict) (success : bool)
  | Crashed.

(** [trade['market_id_v3'] = result_market_id] *)
Definition tag (market_id : string) (trade : pydict) : pydict :=
  <["market_id_v3" := VStr market_id]> trade.

Section Orchestration.

(** [fetch_market pass market_id]: what the market's task yields in the
    pass numbered [pass] (0 for the first run of the loop, 1 for the second),
    that is the result of [fetch_trades_for_market_complete] or the exception
    that left it. *)
Variable fetch_market : nat → string → market_result.

(** [as_completed]: the order in which the tasks of a pass finish. *)
Variable completion_order : nat → list string → list string.

(** One turn of [for future in as_completed(future_to_market)]. *)
Definition collect (pass : nat) (acc : list pydict * list string) (market_id : string)
  : list pydict * list string :=
  let '(all_trades_accumulator, failed_markets_accumulator) := acc in
  match fetch_market pass market_id with
  | Fetched trades true =>
      (all_trades_accumulator ++ (tag market_id <$> trades), failed_markets_accumulator)
  | Fetched _ false => (all_trades_accumulator, failed_markets_accumulator ++ [market_id])
  | Crashed => (all_trades_accumulator, failed_markets_accumulator ++ [market_id])
  end.

(** The tagged trades a market contributes in a pass, and whether it is
    put on the failed list. *)
Definition contribution (pass : nat) (market_id : string) : list pydict :=
  match fetch_market pass market_id with
  | Fetched trades true => tag market_id <$> trades
  | _ => []
  end.

Definition fails (pass : nat) (market_id : string) : bool :=
  match fetch_market pass market_id with
  | Fetched _ true => false
  | _ => true
  end.

(** [_run_market_processing_loop] *)
Definition _run_market_processing_loop (pass : nat) (markets_to_process : list string)
  : list pydict * list string :=
  foldl (collect pass) ([], []) (completion_order pass markets_to_process).

(** [df['conditionId'].dropna().unique().tolist()]: [None] is a missing
    value; first occurrences, in order. *)
Fixpoint unique (l : list string) : list string :=
  match l with
  | [] => []
  | x :: l' => x :: List.filter (λ y, negb (bool_decide (y = x))) (unique l')
  end.

Definition condition_ids_of (column : list (option string)) : list string :=
  unique (omap id column).

(** What the caller of [fetch_all_trades_parallel] gets and what it can read
    on standard output about failed markets: the lines [  - market_id]. *)
Record run : Type := {
  returned : list pydict;            (* the rows of the returned DataFrame *)
  printed_failed : list string;      (* the lines printed for [final_failed_markets] *)
}.

(** [final_failed_markets] when the second pass ran, the empty list
    otherwise, next to [all_trades]. *)
Definition two_phase (column : list (option string)) : list pydict * list string :=
  let condition_ids := condition_ids_of column in
  let '(all_trades, failed_markets) := _run_market_processing_loop 0 condition_ids in
  match failed_markets with
  | [] => (all_trades, [])
  | _ =>
      let '(retried_trades, final_failed_markets) :=
        _run_market_processing_loop 1 failed_markets in
      (all_trades ++ retried_trades, final_failed_markets)
  end.

(** [fetch_all_trades_parallel]: returns [pd.DataFrame(all_trades)] (or an
    empty DataFrame), prints the permanently failed markets. *)
Definition fetch_all_trades_parallel (column : list (option string)) : run :=
  let '(all_trades, final_failed_markets) := two_phase column in
  {| returned := all_trades;
     printed_failed := (λ market_id, "  - " +:+ market_id)%string <$> final_failed_markets |}.

End Orchestration.

(** Every market task crashes: nothing is collected, every market fails. *)
Definition always_crashes : nat → string → market_result := λ _ _, Crashed.

(** Tasks finish in the order they were submitted. *)
Definition in_submission_order : nat → list string → list string := λ _ l, l.

(** Market "a" succeeds at once, "b" succeeds when retried, "c" never. *)
Definition example_fetch : nat → string → market_result := λ pass market_id,
  if bool_decide (market_id = "a") then Fetched [ {["price" := VNum 1]} ] true
  else if bool_decide (market_id = "b")
       then Fetched [ {["price" := VNum 2]} ] (bool_decide (pass = 1%nat))
       else Fetched [] false.

End FetchClv.

(** ** Offset pager (src/fetch.py; src/striker_polymarket_api/rest_api/fetch.py
    holds the same code under the names [_fetch_page], [_fetch_range] and
    [_fetch_positions_data]) *)
Module OffsetPager.
Local Open Scope Z_scope.

Section WithRecords.

(** The records of the endpoint. *)
Context {A : Type}.

(** What [response.json()] gives: something [len] and [extend] accept (a
    list, or an object or string, which Python iterates over), or a number,
    boolean or null, of which only the truth value matters. *)
Inductive json : Type :=
  | JItems (items : list A)
  | JOther (truthy : bool).

(** What [requests.get] followed by [response.json()] does inside the [try]
    of [page]. *)
Inductive response : Type :=
  | Resp (status_code : Z) (body : json)
  | Exception (message : string).      (* [str(e)] *)

(** The value under ["error"]: a string or the status code. *)
Inductive error : Type :=
  | ErrorText (s : string)
  | ErrorCode (status_code : Z).

#[local] Instance error_eq_dec : EqDecision error.
Proof. solve_decision. Defined.

(** The dict [page] returns (the keys the caller reads). *)
Record page_result : Type := {
  success : bool;
  data : json;
  error_of : option error;
}.

(** [page], without its sleep on 429. *)
Definition page (r : response) : page_result :=
  match r with
  | Resp status_code body =>
      if bool_decide (status_code = 200)
      then {| success := true; data := body; error_of := None |}
      else if bool_decide (status_code = 429)
      then {| success := false; data := JItems []; error_of := Some (ErrorText "Rate limited") |}
      else {| success := false; data := JItems []; error_of := Some (ErrorCode status_code) |}
  | Exception message =>
      {| success := false; data := JItems []; error_of := Some (ErrorText message) |}
  end.

(** Python's truth value of [result["data"]]. *)
Definition truthy_json (d : json) : bool :=
  match d with
  | JItems items => negb (bool_decide (items = []))
  | JOther b => b
  end.

Definition max_retries : Z := 5.

(** How the inner [while retry_count < max_retries] loop is left. *)
Inductive inner_exit : Type :=
  | Break (all_data : list A) (current_offset : Z) (n : nat) (retry_count : Z)
          (collected : bool)     (* [break]; [collected] is
                                    [result["success"] and result["data"]] *)
  | ReturnData (all_data : list A)   (* [return all_data] *)
  | RaiseError.                      (* [len(result["data"])] raised *)

(** Lines 119-128: after an over-fetch, cut the tail and clamp the offset. *)
Definition trim (bounded : bool) (end_offset : Z) (all_data : list A) (current_offset : Z)
  : list A * Z :=
  if bounded && bool_decide (current_offset > end_offset) then
    let excess := current_offset - end_offset in
    if bool_decide (excess > 0) then
      if bool_decide (excess ≤ Z.of_nat (length all_data))
      then (take (length all_data - Z.to_nat excess) all_data, end_offset)
      else ([], end_offset)
    else (all_data, current_offset)
  else (all_data, current_offset).

(** The inner loop, lines 101-144.  [http n offset limit] answers the n-th
    request of this worker.  The [while] test cannot fail when the loop is
    entered with [retry_count = 0]; that exit is kept for totality. *)
Fixpoint inner_loop (fuel : nat) (http : nat → Z → Z → response)
    (bounded : bool) (end_offset max_limit : Z)
    (all_data : list A) (current_offset : Z) (n : nat) (retry_count : Z)
  : option inner_exit :=
  match fuel with
  | O => None
  | S fuel =>
      if bool_decide (retry_count < max_retries) then
        let result := page (http n current_offset max_limit) in
        if success result && truthy_json (data result) then
          match data result with
          | JItems items =>
              let all_data := all_data ++ items in
              let current_offset := current_offset + Z.of_nat (length items) in
              let '(all_data, current_offset) :=
                trim bounded end_offset all_data current_offset in
              Some (Break all_data current_offset (S n) retry_count true)
          | JOther _ => Some RaiseError
          end
        else if negb (success result) then
          if bool_decide (error_of result = Some (ErrorText "Rate limited")) then
            let retry_count := retry_count + 1 in
            if bool_decide (max_retries ≤ retry_count)
            then Some (Break all_data current_offset (S n) retry_count false)
            else inner_loop fuel http bounded end_offset max_limit
                   all_data current_offset (S n) retry_count
          else Some (ReturnData all_data)
        else Some (ReturnData all_data)
      else Some (Break all_data current_offset n retry_count false)
  end.

(** How a worker ends. *)
Inductive worker_result : Type :=
  | Done (all_data : list A)
  | Raised.

(** The outer [while True] loop, lines 86-155. *)
Fixpoint outer_loop (fuel : nat) (http : nat → Z → Z → response)
    (end_offset process_id num_processes : Z)
    (all_data : list A) (current_offset max_limit : Z) (n : nat)
  : option worker_result :=
  match fuel with
  | O => None
  | S fuel =>
      let bounded := bool_decide (process_id < num_processes) in
      if bounded && bool_decide (end_offset ≤ current_offset) then Some (Done all_data)
      else
        let max_offset_allowed := end_offset - current_offset in
        if bounded && bool_decide (max_offset_allowed ≤ 0) then Some (Done all_data)
        else
          let max_limit := if bounded then Z.min max_limit max_offset_allowed
                           else max_limit in
          match inner_loop (Z.to_nat max_retries) http bounded end_offset max_limit
                  all_data current_offset n 0 with
          | None => None
          | Some RaiseError => Some Raised
          | Some (ReturnData all_data) => Some (Done all_data)
          | Some (Break all_data current_offset n retry_count collected) =>
              if bool_decide (max_retries ≤ retry_count) && negb collected
              then Some (Done all_data)
              else if bounded && bool_decide (end_offset ≤ current_offset)
              then Some (Done all_data)
              else outer_loop fuel http end_offset process_id num_processes
                     all_data current_offset max_limit n
          end
  end.

(** [fetch_range(url, user_address, start_offset, end_offset, process_id,
    num_processes)] with [max_limit = 500]. *)
Definition fetch_range (fuel : nat) (http : nat → Z → Z → response)
    (start_offset end_offset process_id num_processes : Z) : option worker_result :=
  outer_loop fuel http end_offset process_id num_processes [] start_offset 500 0.

(** What the parent process adds for a worker: its list, or nothing when
    [future.result()] raised ([except Exception: pass]). *)
Definition collected_by (r : option worker_result) : list A :=
  match r with
  | Some (Done all_data) => all_data
  | _ => []
  end.

(** [ranges] of [all_data_parallel]: [(start_offset, end_offset, process_id)]
    for [i] in [range(num_processes)]. *)
Definition ranges (num_processes : nat) (records_per_process : Z) : list (Z * Z * Z) :=
  (λ i : nat, (Z.of_nat i * records_per_process,
               (Z.of_nat i + 1) * records_per_process,
               Z.of_nat i + 1)) <$> seq 0 num_processes.

(** The worker of one range; [http i] is the transport of worker [i]
    (process id [i + 1]). *)
Definition run_worker (fuel : nat) (http : nat → nat → Z → Z → response)
    (num_processes : nat) (range : Z * Z * Z) : option worker_result :=
  let '(start_offset, end_offset, process_id) := range in
  fetch_range fuel (http (Z.to_nat (process_id - 1))) start_offset end_offset
    process_id (Z.of_nat num_processes).

(** [all_data_parallel]: [ProcessPoolExecutor(max_workers=num_processes)]
    raises [ValueError] when [num_processes] is 0; otherwise every worker
    runs to its end and the parent extends [all_data] with each result in
    completion order.  [None] when some worker is still running when the
    fuel is spent. *)
Definition all_data_parallel (fuel : nat) (http : nat → nat → Z → Z → response)
    (completion_order : list worker_result → list worker_result)
    (num_processes : nat) (records_per_process : Z) : option (call_result (list A)) :=
  if bool_decide (num_processes = 0%nat) then Some (Raises "ValueError")
  else
    results ← mapM (run_worker fuel http num_processes)
                (ranges num_processes records_per_process);
    Some (Returns (completion_order results ≫= (λ r, collected_by (Some r)))).

(** The accumulator never holds more than the offset has advanced, and a
    bounded worker's offset never passes its boundary. *)
Definition within (start_offset end_offset : Z) (all_data : list A)
    (current_offset : Z) : Prop :=
  Z.of_nat (length all_data) ≤ current_offset - start_offset
  ∧ current_offset ≤ end_offset.

End WithRecords.

Arguments json : clear implicits.
Arguments response : clear implicits.
Arguments worker_result : clear implicits.
Arguments inner_exit : clear implicits.

(** The transport of a single worker that answers its first request with
    500 records and the next with an empty list. *)
Definition one_full_page : nat → nat → Z → Z → response nat := λ _ n _ _,
  match n with
  | O => Resp 200 (JItems (seq 0 500))
  | S _ => Resp 200 (JItems [])
  end.

End OffsetPager.

(** ** Gated market fetcher: vocabulary for whole-market statements *)
Module MarketFetch.
Import FetchClv.
Local Open Scope Z_scope.

(** The requests a trace holds. *)
Definition requests_made (tr : list event) : nat :=
  length (List.filter (λ e, bool_decide (e = RequestStart)) tr).

(** A sleep of between 5 and 30 seconds; other events pass. *)
Definition short_sleep (e : event) : Prop :=
  match e with
  | Sleep seconds => (5 <= seconds)%Q ∧ (seconds <= 30)%Q
  | _ => True
  end.

Section Market.

Variable http : nat → nat → response.
Variables limit max_retries : Z.

(** The call for the page numbered [k]. *)
Definition page_call (k : nat) : option (outcome * list event) :=
  fetch_trades_for_single_market_page (http k) max_retries.

(** The trades of page [k] when its call succeeds. *)
Definition page_trades (k : nat) : list pydict :=
  match page_call k with
  | Some (Return trades true, _) => trades
  | _ => []
  end.

(** A page after which the market loop goes on: a success with at least
    [limit] trades (and at least one). *)
Definition full_page (k : nat) : Prop :=
  ∃ trades tr, page_call k = Some (Return trades true, tr)
               ∧ trades ≠ [] ∧ ¬ Z.of_nat (length trades) < limit.

(** What the market loop returns when page [m] is the first page that is
    not full and [collected] holds the trades of the pages before it. *)
Definition market_end (collected : list pydict) (m : nat) : option outcome :=
  match page_call m with
  | Some (Return trades true, _) => Some (Return (collected ++ trades) true)
  | Some (Return _ false, _) => Some (Return collected false)
  | Some (Raise, _) => Some Raise
  | None => None
  end.

End Market.

(** A market whose first page holds one trade and whose second page answers
    500. *)
Definition one_then_500 : nat → nat → response := λ page _,
  match page with
  | O => Resp 200 (TradesList [ {["price" := VNum 1]} ])
  | S _ => Resp 500 TradesBad
  end.

End MarketFetch.

(** ** Offset pager: the backoff of [page] and vocabulary for whole runs *)
Module OffsetPagerRuns.
Import OffsetPager.
Local Open Scope Z_scope.

(** [min(base_delay * (2 ** retry_count), max_delay)] with [base_delay = 2]
    and [max_delay = 60]. *)
Definition exponential_delay (retry_count : Z) : Z :=
  Z.min (2 * 2 ^ retry_count) 60.

(** [process_id or 1]: [None] and 0 count as 1. *)
Definition process_id_or_1 (process_id : option Z) : Z :=
  match process_id with
  | Some p => if bool_decide (p = 0) then 1 else p
  | None => 1
  end.

(** [total_delay] of [page] on a 429; [u] is what
    [random.uniform(0.1, 0.5)] drew. *)
Definition total_delay (u : Q) (process_id : option Z) (retry_count : Z) : Q :=
  (inject_Z (exponential_delay retry_count) + u * inject_Z (process_id_or_1 process_id))%Q.

Section WithRecords.

Context {A : Type}.

(** The records of an answer that makes the worker go on: a 200 with a
    non-empty list. *)
Definition good_items (r : response A) : option (list A) :=
  match r with
  | Resp status_code (JItems (x :: items)) =>
      if bool_decide (status_code = 200) then Some (x :: items) else None
  | _ => None
  end.

(** An answer on which the worker returns what it has: a 200 with an empty
    or falsy body, a status other than 200 and 429, or an exception whose
    text is not "Rate limited". *)
Definition stops_worker (r : response A) : bool :=
  match r with
  | Resp status_code body =>
      if bool_decide (status_code = 200) then negb (truthy_json body)
      else negb (bool_decide (status_code = 429))
  | Exception message => negb (bool_decide (message = "Rate limited"))
  end.

(** The accumulator and the offset after [k] good pages, the k-th request
    being sent at the offset the earlier pages led to, with limit 500. *)
Fixpoint walk (http : nat → Z → Z → response A) (start_offset : Z) (k : nat)
  : list A * Z :=
  match k with
  | O => ([], start_offset)
  | S k =>
      let '(all_data, offset) := walk http start_offset k in
      match good_items (http k offset 500) with
      | Some items => (all_data ++ items, offset + Z.of_nat (length items))
      | None => (all_data, offset)
      end
  end.

(** The first [m] requests bring good pages and the next one stops the
    worker. *)
Definition clean_run (http : nat → Z → Z → response A) (start_offset : Z) (m : nat)
  : Prop :=
  (∀ k, (k < m)%nat →
        is_Some (good_items (http k (walk http start_offset k).2 500)))
  ∧ stops_worker (http m (walk http start_offset m).2 500) = true.

(** The server answers every request with a non-empty page. *)
Definition always_records (http : nat → Z → Z → response A) : Prop :=
  ∀ n offset limit, is_Some (good_items (http n offset limit)).

(** The server answers every request with 429. *)
Definition always_rate_limited (http : nat → Z → Z → response A) : Prop :=
  ∀ n offset limit, ∃ body, http n offset limit = Resp 429 body.

End WithRecords.

(** A server with 1200 records that honours offset and limit. *)
Definition honest_1200 : nat → Z → Z → response nat := λ _ offset limit,
  Resp 200 (JItems (seq (Z.to_nat offset)
                      (Z.to_nat (Z.min limit (1200 - offset))))).

(** A server that sends three records whatever is asked. *)
Definition three_each : nat → Z → Z → response nat := λ n _ _,
  Resp 200 (JItems [n; n; n]).

Definition rate_limiting : nat → Z → Z → response nat := λ _ _ _,
  Resp 429 (JItems []).

End OffsetPagerRuns.

(** ** Runs of a bounded worker of the offset pager (src/fetch.py) *)
Module OffsetPagerWindows.
Import OffsetPager OffsetPagerRuns.
Local Open Scope Z_scope.

Section WithRecords.

Context {A : Type}.

(** What a worker whose id is below [num_processes] has received after [k]
    good pages, before any trimming: the records, the offset they lead to
    and [max_limit], which the loop lowers to what is left of the window
    before each request. *)
Fixpoint bounded_walk (http : nat → Z → Z → response A) (start_offset end_offset : Z)
    (k : nat) : list A * Z * Z :=
  match k with
  | O => ([], start_offset, 500)
  | S k =>
      let '(all_data, offset, max_limit) := bounded_walk http start_offset end_offset k in
      let max_limit := Z.min max_limit (end_offset - offset) in
      match good_items (http k offset max_limit) with
      | Some items => (all_data ++ items, offset + Z.of_nat (length items), max_limit)
      | None => (all_data, offset, max_limit)
      end
  end.

(** The first [m] requests are sent below the boundary and bring good
    pages; then the offset has reached or passed the boundary, or the next
    answer stops the worker. *)
Definition bounded_clean_run (http : nat → Z → Z → response A)
    (start_offset end_offset : Z) (m : nat) : Prop :=
  (∀ k, (k < m)%nat →
        let '(_, offset, max_limit) := bounded_walk http start_offset end_offset k in
        offset < end_offset
        ∧ is_Some (good_items (http k offset (Z.min max_limit (end_offset - offset)))))
  ∧ let '(_, offset, max_limit) := bounded_walk http start_offset end_offset m in
    end_offset ≤ offset
    ∨ stops_worker (http m offset (Z.min max_limit (end_offset - offset))) = true.

End WithRecords.

End OffsetPagerWindows.

(** ** Graph pager and batches: vocabulary for further statements *)
Module SubgraphRuns.
Import Subgraph.
Local Open Scope Z_scope.

(** A raw position that [split_positions] will find closed once
    transformed: no balance, or the balance "0". *)
Definition raw_closed (pos : raw_position) : bool :=
  match raw_balance pos with
  | None => true
  | Some balance => bool_decide (balance = VStr "0")
  end.

(** A subgraph that answers every query with one position, asked for pages
    of one. *)
Definition endless : nat → Z → Z → graphql_result := λ n _ _,
  Json false (Some (Some
    [ {| raw_id := Some (VNum (Z.of_nat n)); raw_user := None; raw_balance := None;
         raw_token_id := None; raw_condition_id := None; raw_outcome_index := None |} ])).

(** The single-id endpoint answers every request with 429. *)
Definition single_always_429 (http : nat → Z → pnl_response) : Prop :=
  ∀ n offset, ∃ body, http n offset = PnlResp 429 body.

(** The single-id endpoint never answers 429 and never sends more than the
    500 records asked for. *)
Definition single_well_behaved (http : nat → Z → pnl_response) : Prop :=
  (∀ n offset body, http n offset ≠ PnlResp 429 body)
  ∧ (∀ n offset data, http n offset = PnlResp 200 (PnlList data) →
                      Z.of_nat (length data) ≤ 500).

End SubgraphRuns.

(** ** Price lookup around a match start (src/price_history.py) *)
Module PriceLookup.
Import PriceHistory.
Local Open Scope Z_scope.

(** What [requests.get] on [/prices-history] does: a status and the decoded
    body, or a [RequestException]. *)
Inductive api_response : Type :=
  | ApiResp (status_code : Z) (data : price_history_t)
  | ApiRaise.

(** [end_ts] of [get_price_history]: [end_datetime] when given, else
    [window_minutes] minutes after the start when given and not 0, else five
    minutes after it.  Datetimes are unix seconds. *)
Definition end_ts_of (start_ts : Z) (end_datetime window_minutes : option Z) : Z :=
  match end_datetime with
  | Some end_ts => end_ts
  | None =>
      match window_minutes with
      | Some w => if bool_decide (w = 0) then start_ts + 300 else start_ts + w * 60
      | None => start_ts + 300
      end
  end.

(** [get_price_history]; [api market startTs endTs fidelity] is the answer
    to the request with these parameters. *)
Definition get_price_history (api : string → Z → Z → Z → api_response)
    (market_id : string) (start_ts : Z) (end_datetime window_minutes : option Z)
    (fidelity : Z) : price_history_t :=
  let end_ts := end_ts_of start_ts end_datetime window_minutes in
  match api market_id start_ts end_ts fidelity with
  | ApiResp status_code data => if bool_decide (status_code = 200) then data else None
  | ApiRaise => None
  end.

(** Python's truth value of an entry: a dict is true when it has a key. *)
Definition entry_truthy (e : entry) : bool :=
  match t e, p e with
  | None, None => false
  | _, _ => true
  end.

(** [get_match_start_price] *)
Definition get_match_start_price (api : string → Z → Z → Z → api_response)
    (market_id : string) (match_ts hours_before fidelity : Z) : option Q :=
  let start_search := match_ts - hours_before * 3600 in
  let price_history :=
    get_price_history api market_id start_search (Some match_ts) None fidelity in
  match price_history with
  | None => None
  | Some _ =>
      match extract_match_start_price price_history match_ts hours_before with
      | Some match_start_entry =>
          if entry_truthy match_start_entry then p match_start_entry else None
      | None => None
      end
  end.

(** [max(1, total_rows // num_processes)] *)
Definition events_per_process (total_rows num_processes : nat) : nat :=
  Nat.max 1 (total_rows / num_processes).

(** [l[a:b]] for non-negative [a] and [b]. *)
Definition slice {A : Type} (a b : nat) (l : list A) : list A :=
  take (b - a) (drop a l).

(** The batch of process [i + 1] in [process_dataframe], before empty
    batches are dropped. *)
Definition batch_of {A : Type} (rows_data_list : list A) (num_processes : nat) (i : nat)
  : list A :=
  let total_rows := length rows_data_list in
  let start_idx := (i * events_per_process total_rows num_processes)%nat in
  let end_idx := if bool_decide (i < num_processes - 1)%nat
                 then ((i + 1) * events_per_process total_rows num_processes)%nat
                 else total_rows in
  slice start_idx end_idx rows_data_list.

(** [batches] of [process_dataframe]: [(batch_data, process_id)], empty
    batches left out. *)
Definition row_batches {A : Type} (rows_data_list : list A) (num_processes : nat)
  : list (list A * nat) :=
  omap (λ i, match batch_of rows_data_list num_processes i with
             | [] => None
             | batch_data => Some (batch_data, (i + 1)%nat)
             end) (seq 0 num_processes).

(** An API that knows three prices for every market. *)
Definition three_prices : string → Z → Z → Z → api_response := λ _ _ _ _,
  ApiResp 200 (Some (Some [ {| t := Some 1000; p := Some 0.40%Q |};
                            {| t := Some 4000; p := Some 0.55%Q |};
                            {| t := Some 4700; p := Some 0.90%Q |} ])).

End PriceLookup.

(** ** The loop of [calculate_clv] over the groups of trades
    (src/striker_polymarket_api/rest.py, lines 80-145) *)
Module ClvLoop.
Import Rest.
Import Stdlib.Strings.Ascii.

(** The string has no ['_']. *)
Fixpoint no_underscore (s : string) : bool :=
  match s with
  | EmptyString => true
  | String c s' => negb (bool_decide (c = "_"%char)) && no_underscore s'
  end.

(** The key of the group a trade belongs to. *)
Definition trade_key (tr : trade) : string * string := (conditionId tr, asset tr).

(** The keys [trades_df.groupby(['conditionId', 'asset'])] iterates over:
    the distinct keys of the trades (pandas yields them sorted; the order is
    an argument of the loop below). *)
Definition group_keys (trades_df : list trade) : list (string * string) :=
  remove_dups (trade_key <$> trades_df).

Section Loop.

Variable float_sum : list float → float.
Variable sentinel : float.
Variable clv_df : list position_row.
Variable trades_df : list trade.

(** One turn of the loop: [clv_results] and [clv_reasons] are dicts keyed by
    the composite key. *)
Definition loop_step (acc : gmap string clv_result * gmap string string)
    (key : string * string) : gmap string clv_result * gmap string string :=
  let '(clv_results, clv_reasons) := acc in
  let '(condition_id, asset_id) := key in
  let composite := composite_key condition_id asset_id in
  match calculate_clv_group float_sum sentinel clv_df trades_df condition_id asset_id with
  | KeyNotFound => (clv_results, clv_reasons)
  | Reason reason => (clv_results, <[composite := reason]> clv_reasons)
  | Computed r => (<[composite := r]> clv_results, clv_reasons)
  end.

(** What one turn leaves in [clv_results] under the key of its group: the
    result when one was computed, the entry held before otherwise. *)
Definition stored (condition_id asset_id : string) (before : option clv_result)
    : option clv_result :=
  match calculate_clv_group float_sum sentinel clv_df trades_df condition_id asset_id with
  | Computed r => Some r
  | _ => before
  end.

(** The loop over the groups in the order given. *)
Definition clv_loop (groups : list (string * string))
  : gmap string clv_result * gmap string string :=
  foldl loop_step (∅, ∅) groups.

(** [clv_df['_composite_key'].map(price_clv_map)] and the same with
    [odds_clv_map], for one row: the values of the two new columns, [None]
    where the map has no entry. *)
Definition clv_columns (groups : list (string * string)) (row : position_row)
  : option float * option float :=
  let key := composite_key (pos_conditionId row) (pos_asset row) in
  (price_clv <$> (clv_loop groups).1 !! key, odds_clv <$> (clv_loop groups).1 !! key).

End Loop.

(** Two positions of one market and the trades of the user on both
    outcomes, the second outcome bought after the start only. *)
Definition two_rows : list position_row :=
  [ {| pos_conditionId := "0xc"; pos_asset := "1";
       start_time_unix := 30; match_start_price := Some 0.55%float |};
    {| pos_conditionId := "0xc"; pos_asset := "2";
       start_time_unix := 30; match_start_price := Some 0.45%float |} ].

Definition two_groups : list trade :=
  [ {| conditionId := "0xc"; asset := "1"; price := 0.40%float; size := 100%float;
       timestamp := 10 |};
    {| conditionId := "0xc"; asset := "2"; price := 0.50%float; size := 10%float;
       timestamp := 40000 |};
    {| conditionId := "0xc"; asset := "1"; price := 0.60%float; size := 50%float;
       timestamp := 20 |} ].

End ClvLoop.

(** ** Market metadata
    (src/fetch.py [fetch_market_data];
     src/striker_polymarket_api/rest_api/fetch.py [_fetch_market_data],
     [_process_market_batch]) *)
Module Markets.
Import Subgraph FetchClv.
Local Open Scope Z_scope.

(** A market object of the response, as far as the code reads it: [slug]
    is [None] when the key is missing or null; [tags] is the list under
    'tags', empty when the key is missing; [gameStartTime] and [volume] are
    [None] when missing. *)
Record market := {
  slug : option string;
  tags : list pydict;
  gameStartTime : option value;
  volume : option value
}.

(** The dict stored per slug: ['tags'], ['start_time'], ['volume']. *)
Record market_info := {
  info_tags : list value;
  start_time : value;
  info_volume : value
}.

(** Python truth of [tag.get('label')]. *)
Definition truthy (v : option value) : bool :=
  match v with
  | Some (VStr s) => negb (bool_decide (s = ""))
  | Some (VNum z) => negb (bool_decide (z = 0))
  | _ => false
  end.

(** [[tag.get('label', '') for tag in tags if tag.get('label')]] *)
Definition labels (tags : list pydict) : list value :=
  (λ tag : pydict, default (VStr "") (tag !! "label"))
    <$> List.filter (λ tag : pydict, truthy (tag !! "label")) tags.

(** The entry written for a market; [market.get(key)] is Python's [None]
    for a missing key. *)
Definition info_of (m : market) : market_info :=
  {| info_tags := labels (tags m);
     start_time := default VNull (gameStartTime m);
     info_volume := default VNull (volume m) |}.

(** One turn of [for market in markets]: [if not slug: continue]. *)
Definition process_step (batch_dict : gmap string market_info) (m : market)
    : gmap string market_info :=
  match slug m with
  | Some s => if bool_decide (s = "") then batch_dict else <[s := info_of m]> batch_dict
  | None => batch_dict
  end.

(** [_process_market_batch], and the same loop inlined in
    [fetch_market_data]. *)
Definition _process_market_batch (markets : list market) : gmap string market_info :=
  foldl process_step ∅ markets.

(** [{'tags': [], 'start_time': None, 'volume': None}] *)
Definition default_info : market_info :=
  {| info_tags := []; start_time := VNull; info_volume := VNull |}.

(** [for slug in batch_slugs: if slug not in batch_dict: batch_dict[slug] = {...}] *)
Definition fill_missing (batch_slugs : list string) (batch_dict : gmap string market_info)
    : gmap string market_info :=
  foldl (λ d slug, match d !! slug with
                   | Some _ => d
                   | None => <[slug := default_info]> d
                   end) batch_dict batch_slugs.

(** [for slug in batch_slugs: all_data_dict[slug] = {...}] *)
Definition set_defaults (batch_slugs : list string) (all_data_dict : gmap string market_info)
    : gmap string market_info :=
  foldl (λ d slug, <[slug := default_info]> d) all_data_dict batch_slugs.

(** [all_data_dict.update(batch_dict)]: the entries of [batch_dict] win. *)
Definition update (all_data_dict batch_dict : gmap string market_info)
    : gmap string market_info :=
  batch_dict ∪ all_data_dict.

(** What [requests.get] does for a batch: a response with its status and
    its body, or an exception.  [json = None] is a body that is not JSON or
    not a list of objects: [response.json()] or the first [market.get]
    raises. *)
Inductive response : Type :=
  | Resp (status_code : Z) (json : option (list market))
  | RequestException.

(** Truth of a [requests.Response]: [response.ok]. *)
Definition ok (status_code : Z) : bool :=
  negb (bool_decide (400 ≤ status_code < 600)).

(** [range(0, len(unique_slugs), batch_size)] with
    [unique_slugs[i:i+batch_size]]: a zero step raises [ValueError], a
    negative one gives an empty range. *)
Definition slug_batches (batch_size : Z) (unique_slugs : list string)
    : option (list (list string)) :=
  if bool_decide (batch_size = 0) then None
  else if bool_decide (batch_size < 0) then Some []
  else Some (batches (Z.to_nat batch_size) unique_slugs).

(** The loop over the batches; [transport i] answers the request of the
    i-th batch.  [None] is an exception leaving the function. *)
Section Loop.

Variable turn : gmap string market_info → list string → response
                → option (gmap string market_info).
Variable transport : nat → response.

Fixpoint batch_loop (i : nat) (all_data_dict : gmap string market_info)
    (todo : list (list string)) : option (gmap string market_info) :=
  match todo with
  | [] => Some all_data_dict
  | batch_slugs :: todo' =>
      all_data_dict' ← turn all_data_dict batch_slugs (transport i);
      batch_loop (S i) all_data_dict' todo'
  end.

End Loop.

(** One batch of [fetch_market_data] (src/fetch.py): an exception of the
    request is swallowed; with [response and response.status_code == 200]
    the markets of the body are processed, the slugs of the batch missing
    from it get the default entry and the batch is merged; otherwise every
    slug of the batch gets the default entry. *)
Definition market_turn (all_data_dict : gmap string market_info)
    (batch_slugs : list string) (r : response) : option (gmap string market_info) :=
  match r with
  | Resp status_code json =>
      if ok status_code && bool_decide (status_code = 200) then
        markets ← json;
        Some (update all_data_dict (fill_missing batch_slugs (_process_market_batch markets)))
      else Some (set_defaults batch_slugs all_data_dict)
  | RequestException => Some (set_defaults batch_slugs all_data_dict)
  end.

(** [df.merge(market_data_df, left_on='slug', right_index=True, how='left')]:
    every row keeps its place and gets the entry of its slug, if any. *)
Definition merge (df : list string) (all_data_dict : gmap string market_info)
    : list (string * option market_info) :=
  (λ slug, (slug, all_data_dict !! slug)) <$> df.

(** [fetch_market_data] of src/fetch.py; [df] is the 'slug' column of the
    frame, one string per row. *)
Definition fetch_market_data (transport : nat → response) (df : list string)
    (batch_size : Z) : option (list (string * option market_info)) :=
  todo ← slug_batches batch_size (unique df);
  all_data_dict ← batch_loop market_turn transport 0 ∅ todo;
  Some (merge df all_data_dict).

(** One batch of [_fetch_market_data]
    (src/striker_polymarket_api/rest_api/fetch.py): with
    [not response or response.status_code != 200] every slug of the batch
    gets the default entry; then, in every case,
    [all_data_dict.update(_process_market_batch(response.json()))] runs,
    which raises when [response] is still [None]. *)
Definition _market_turn (all_data_dict : gmap string market_info)
    (batch_slugs : list string) (r : response) : option (gmap string market_info) :=
  let all_data_dict' :=
    match r with
    | Resp status_code _ =>
        if negb (ok status_code) || negb (bool_decide (status_code = 200))
        then set_defaults batch_slugs all_data_dict
        else all_data_dict
    | RequestException => set_defaults batch_slugs all_data_dict
    end in
  match r with
  | Resp _ json =>
      markets ← json;
      Some (update all_data_dict' (_process_market_batch markets))
  | RequestException => None
  end.

Definition _fetch_market_data (transport : nat → response) (df : list string)
    (batch_size : Z) : option (list (string * option market_info)) :=
  todo ← slug_batches batch_size (unique df);
  all_data_dict ← batch_loop _market_turn transport 0 ∅ todo;
  Some (merge df all_data_dict).

(** Examples. *)
Definition tag_of (label : value) : pydict := {[ "label" := label ]}.

Definition market_a : market :=
  {| slug := Some "a"; tags := [tag_of (VStr "Sports"); tag_of (VStr ""); ∅; tag_of (VStr "NBA")];
     gameStartTime := Some (VStr "2025-01-01 20:00:00+00"); volume := Some (VNum 1200) |}.

(** The first batch is answered with one market, the later ones fail. *)
Definition first_only : nat → response :=
  λ i, match i with
       | O => Resp 200 (Some [market_a])
       | 1%nat => Resp 500 (Some [])
       | _ => RequestException
       end.

Definition always_down : nat → response := λ _, RequestException.

Definition always_a : nat → response := λ _, Resp 200 (Some [market_a]).

End Markets.

(** ** Positions from the REST endpoints: batches, backfill, market metadata
    (src/striker_polymarket_api/subgraph_api/fetch_subgraph.py,
     [fetch_positions_from_rest]) *)
Module Positions.
Import Subgraph Markets.
Local Open Scope Z_scope.

(** A row's cell in the 'slug' column when it is a string. *)
Definition slug_cell (r : pydict) : option string :=
  match r !! "slug" with
  | Some (VStr s) => Some s
  | _ => None
  end.

(** How a call that returns a frame ends.  [OutsideModel] is for a frame
    whose 'slug' column exists and holds a missing or non-string cell: how
    pandas keys and joins such cells is not followed here. *)
Inductive frame_result : Type :=
  | Frame (rows : list (pydict * option market_info))
  | Exception (class : string)
  | OutsideModel.

(** [_fetch_market_data(df)] on the frame built from [df]: [df['slug']]
    raises [KeyError] when no row has the key; otherwise the slugs go
    through [_fetch_market_data] in batches of 100 and, unless it raises,
    every row comes back in its place with the entry of its slug, if any
    (a left join). *)
Definition market_data_of_frame (transport : nat → response) (df : list pydict)
    : frame_result :=
  if negb (has_column "slug" df) then Exception "KeyError"
  else
    match mapM slug_cell df with
    | Some column =>
        match _fetch_market_data transport column 100 with
        | Some merged => Frame (zip df merged.*2)
        | None => Exception "Exception"
        end
    | None => OutsideModel
    end.

(** [fetch_positions_from_rest].  [None] when a loop is still running when
    the fuel is spent. *)
Definition fetch_positions_from_rest
    (http_batch : nat → nat → Z → pnl_response)
    (completion_order : list (list pydict) → list (list pydict))
    (fuel : nat) (http_single : string → nat → Z → pnl_response)
    (transport : nat → response)
    (positions : list pydict) : option frame_result :=
  let ids := unique_condition_ids positions in
  df_rest ← fetch_from_rest http_batch completion_order (elements ids);
  df_rest ←
    (if negb (df_empty df_rest) && has_column "conditionId" df_rest then
       let found := found_ids df_rest in
       let missing := ids ∖ found in
       if bool_decide (missing = ∅) then Some df_rest
       else
         missing_df ← fetch_missing fuel http_single (elements missing);
         if negb (df_empty missing_df) then Some (df_rest ++ missing_df)
         else Some df_rest
     else Some df_rest);
  Some (market_data_of_frame transport df_rest).

(** The single-id endpoint does not rate limit for ever: of any
    [bound + 1] consecutive requests at one offset, one is not answered
    429. *)
Definition rate_limit_lifts (bound : nat) (http : nat → Z → pnl_response) : Prop :=
  ∀ n offset, ∃ k, (k ≤ bound)%nat ∧ ∀ body, http (n + k)%nat offset ≠ PnlResp 429 body.

(** Examples: the records of two markets, with their slugs. *)
Definition record_c1 : pydict := {[ "conditionId" := VStr "c1"; "slug" := VStr "a" ]}.
Definition record_c2 : pydict := {[ "conditionId" := VStr "c2"; "slug" := VStr "b" ]}.

(** A bulk endpoint that knows "c1" only. *)
Definition bulk_knows_c1 : nat → nat → Z → pnl_response := λ _ _ _,
  PnlResp 200 (PnlList [record_c1]).

(** A bulk endpoint whose records carry no condition id. *)
Definition bulk_without_ids : nat → nat → Z → pnl_response := λ _ _ _,
  PnlResp 200 (PnlList [ {[ "slug" := VStr "a" ]} ]).

(** A single-id endpoint that answers 429 once and then sends the record of
    "c2". *)
Definition single_429_then_c2 : string → nat → Z → pnl_response := λ _ n _,
  match n with
  | O => PnlResp 429 PnlOther
  | S _ => PnlResp 200 (PnlList [record_c2])
  end.

End Positions.

(** * Theorems *)

Module SubgraphFacts.
Import Subgraph.

Lemma split_foldl_filter (ps a c : list pydict) :
  foldl split_step (a, c) ps
  = (a ++ filter (λ p, is_closed p = false) ps, c ++ filter (λ p, is_closed p = true) ps).
Proof.
  revert a c. induction ps as [|p ps IH]; intros a c; simpl.
  - by rewrite !app_nil_r.
  - destruct (is_closed p) eqn:E; rewrite IH.
    + rewrite (filter_cons_False (λ p, is_closed p = false)) by congruence.
      rewrite (filter_cons_True (λ p, is_closed p = true)) by done.
      by rewrite <- app_assoc.
    + rewrite (filter_cons_True (λ p, is_closed p = false)) by done.
      rewrite (filter_cons_False (λ p, is_closed p = true)) by congruence.
      by rewrite <- app_assoc.
Qed.

Lemma split_positions_filter (ps : list pydict) :
  split_positions ps
  = (filter (λ p, is_closed p = false) ps, filter (λ p, is_closed p = true) ps).
Proof. unfold split_positions. by rewrite split_foldl_filter. Qed.

Lemma filter_partition_perm (ps : list pydict) :
  filter (λ p, is_closed p = false) ps ++ filter (λ p, is_closed p = true) ps ≡ₚ ps.
Proof.
  induction ps as [|p ps IH]; [done|].
  destruct (is_closed p) eqn:E.
  - rewrite (filter_cons_False (λ p, is_closed p = false)) by congruence.
    rewrite (filter_cons_True (λ p, is_closed p = true)) by done.
    rewrite <- Permutation_middle. by constructor.
  - rewrite (filter_cons_True (λ p, is_closed p = false)) by done.
    rewrite (filter_cons_False (λ p, is_closed p = true)) by congruence.
    simpl. by constructor.
Qed.

(** C10. [split_positions] returns a partition of its input: the active list
    is the input restricted to the positions whose balance is not the string
    "0" and the closed list is the input restricted to those whose balance
    is "0", both in input order; together they are a permutation of the
    input (nothing dropped, nothing duplicated); no position is in both; and
    a position with no balance field is classified as closed. *)
Theorem split_positions_partition (positions : list pydict) :
  let '(active, closed) := split_positions positions in
  active = filter (λ p, is_closed p = false) positions
  ∧ closed = filter (λ p, is_closed p = true) positions
  ∧ sublist active positions ∧ sublist closed positions
  ∧ active ++ closed ≡ₚ positions
  ∧ length active + length closed = length positions
  ∧ (∀ p, ¬ (p ∈ active ∧ p ∈ closed))
  ∧ (∀ p, balance_str (delete "balance" p) = VStr "0"
          ∧ split_positions [delete "balance" p] = ([], [delete "balance" p])).
Proof.
  rewrite split_positions_filter.
  split; [done|]. split; [done|].
  split; [apply sublist_filter|]. split; [apply sublist_filter|].
  split; [apply filter_partition_perm|].
  split.
  { rewrite <- length_app. by rewrite filter_partition_perm. }
  split.
  { intros p [Ha Hc]. apply list_elem_of_filter in Ha as [Ha _].
    apply list_elem_of_filter in Hc as [Hc _]. congruence. }
  intros p.
  assert (balance_str (delete "balance" p) = VStr "0") as Hb.
  { unfold balance_str. by rewrite lookup_delete_eq. }
  split; [done|].
  unfold split_positions; simpl. unfold is_closed. by rewrite Hb.
Qed.

End SubgraphFacts.

(** ** Reference price lookup *)
Module PriceHistoryFacts.
Import PriceHistory.
Local Open Scope Z_scope.

Lemma insert_desc_elem_of (e x : entry) (l : list entry) :
  x ∈ insert_desc e l ↔ x = e ∨ x ∈ l.
Proof.
  induction l as [|y l IH]; simpl.
  - apply elem_of_cons.
  - case_bool_decide; [apply elem_of_cons|].
    rewrite !elem_of_cons, IH. tauto.
Qed.

Lemma sorted_desc_elem_of (x : entry) (l : list entry) :
  x ∈ sorted_desc l ↔ x ∈ l.
Proof.
  induction l as [|y l IH]; simpl; [done|].
  rewrite insert_desc_elem_of, IH. symmetry. apply elem_of_cons.
Qed.

(** The head of an insertion is the inserted entry when it is at least as
    late as the old head, and the old head otherwise. *)
Lemma head_insert_desc (e h : entry) (l : list entry) :
  head (insert_desc e l) = Some h →
  (h = e ∧ ∀ y, head l = Some y → entry_ts y ≤ entry_ts e)
  ∨ (head l = Some h ∧ entry_ts e < entry_ts h).
Proof.
  destruct l as [|y l]; simpl.
  - intros [= <-]. left. split; [done|]. intros y [=].
  - case_bool_decide as Hle; simpl; intros [= <-].
    + left. split; [done|]. by intros ? [= <-].
    + right. split; [done|]. lia.
Qed.

Lemma head_sorted_desc_max (l : list entry) (h : entry) :
  head (sorted_desc l) = Some h → ∀ e, e ∈ l → entry_ts e ≤ entry_ts h.
Proof.
  revert h. induction l as [|x l IH]; intros h Hh e He.
  - by apply elem_of_nil in He.
  - simpl in Hh. apply head_insert_desc in Hh as [[-> Hx]|[Hh Hlt]].
    + apply elem_of_cons in He as [->|He]; [lia|].
      destruct (head (sorted_desc l)) as [y|] eqn:Hy.
      * specialize (IH y eq_refl e He). specialize (Hx y eq_refl). lia.
      * apply head_None in Hy. apply sorted_desc_elem_of in He.
        rewrite Hy in He. by apply elem_of_nil in He.
    + apply elem_of_cons in He as [->|He]; [lia|]. by apply IH.
Qed.

Lemma head_sorted_desc_is_Some (l : list entry) :
  l ≠ [] → is_Some (head (sorted_desc l)).
Proof.
  destruct l as [|x l]; [done|]. intros _. simpl.
  destruct (sorted_desc l) as [|y s]; simpl; [eauto|].
  case_bool_decide; simpl; eauto.
Qed.

Lemma elem_of_filter_window (min_ts match_ts : Z) (e : entry) (l : list entry) :
  e ∈ List.filter (in_window min_ts match_ts) l
  ↔ e ∈ l ∧ min_ts ≤ entry_ts e ≤ match_ts.
Proof.
  rewrite !list_elem_of_In, filter_In. unfold in_window.
  rewrite andb_true_iff, !bool_decide_eq_true. tauto.
Qed.

(** C4. [extract_match_start_price] returns an entry of the history whose
    timestamp lies in [match_ts - max_hours_before*3600, match_ts] and is the
    greatest among the entries in that window; it returns [None] exactly
    when no entry lies in the window (in particular when the history is
    missing or empty); the returned entry is never strictly after
    [match_ts]. *)
Theorem extract_match_start_price_latest_in_window
    (price_history : price_history_t) (match_ts max_hours_before : Z) :
  let min_ts := match_ts - max_hours_before * 3600 in
  match extract_match_start_price price_history match_ts max_hours_before with
  | Some e =>
      e ∈ history_of price_history
      ∧ min_ts ≤ entry_ts e ≤ match_ts
      ∧ ¬ (match_ts < entry_ts e)
      ∧ (∀ e', e' ∈ history_of price_history →
               min_ts ≤ entry_ts e' ≤ match_ts → entry_ts e' ≤ entry_ts e)
  | None =>
      ∀ e', e' ∈ history_of price_history → ¬ (min_ts ≤ entry_ts e' ≤ match_ts)
  end.
Proof.
  intros min_ts. unfold extract_match_start_price.
  destruct price_history as [[history|]|]; simpl;
    try (intros e' He'; by apply elem_of_nil in He').
  destruct history as [|x history];
    [intros e' He'; by apply elem_of_nil in He'|].
  fold min_ts.
  set (valid := List.filter (in_window min_ts match_ts) (x :: history)).
  assert (∀ e, e ∈ valid ↔ e ∈ x :: history ∧ min_ts ≤ entry_ts e ≤ match_ts)
    as Hvalid by (intros e; apply elem_of_filter_window).
  destruct valid as [|v valid'] eqn:Ev.
  - intros e' He' Hw. assert (e' ∈ @nil entry) as Hnil by (apply Hvalid; done).
    by apply elem_of_nil in Hnil.
  - rewrite <- Ev in *.
    destruct (head_sorted_desc_is_Some valid) as [h Hh]; [by rewrite Ev|].
    rewrite Hh.
    assert (h ∈ valid) as Hin.
    { apply sorted_desc_elem_of. by apply head_Some_elem_of. }
    apply Hvalid in Hin as [Hin Hw].
    split; [done|]. split; [done|]. split; [lia|].
    intros e' He' Hw'. apply (head_sorted_desc_max valid h Hh).
    by apply Hvalid.
Qed.

(** Ties are broken as Python's stable sort does: among the entries with
    the greatest timestamp the first one of the input comes first. *)
Example extract_match_start_price_tie :
  extract_match_start_price
    (Some (Some [ {| t := Some 90; p := Some 0.4%Q |};
                  {| t := Some 100; p := Some 0.5%Q |};
                  {| t := Some 100; p := Some 0.6%Q |};
                  {| t := Some 101; p := Some 0.7%Q |};
                  {| t := None; p := Some 0.1%Q |} ])) 100 1
  = Some {| t := Some 100; p := Some 0.5%Q |}.
Proof. reflexivity. Qed.

End PriceHistoryFacts.

(** ** CLV aggregation *)
Module RestFacts.
Import Rest.

Lemma safe_divide_nonzero (sentinel a b : float) :
  PrimFloat.eqb b 0 = false → safe_divide sentinel a b = PrimFloat.div a b.
Proof. intros Hb. unfold safe_divide. by rewrite Hb. Qed.



(** The worked example of the spec, through the whole loop body (key lookup
    and grouping included), in float64: avg_entry = 70/150 ≈ 0.4667,
    price_clv ≈ 0.0833, odds_clv ≈ 0.325, whatever the sentinel. *)
Lemma calculate_clv_example (sentinel : float) :
  ∃ r, calculate_clv_group sequential_sum sentinel [example_row] example_trades "c" "a"
       = Computed r
     ∧ avg_price r = PrimFloat.div 70 150
     ∧ PrimFloat.ltb 0.4666 (avg_price r) = true
     ∧ PrimFloat.ltb (avg_price r) 0.4667 = true
     ∧ PrimFloat.ltb 0.0833 (price_clv r) = true
     ∧ PrimFloat.ltb (price_clv r) 0.0834 = true
     ∧ PrimFloat.ltb 0.3246 (odds_clv r) = true
     ∧ PrimFloat.ltb (odds_clv r) 0.3250 = true.
Proof.
  eexists. split; [reflexivity|]. simpl. repeat split; vm_compute; done.
Qed.


End RestFacts.

(** ** Gated market fetcher *)
Module FetchClvFacts.
Import FetchClv.
Local Open Scope Z_scope.

(** *** One page call *)

Lemma page_loop_total (fuel : nat) (http : nat → response) (max_retries c : Z) (n : nat) :
  (Z.to_nat (max_retries + 1 - c) < fuel)%nat →
  is_Some (page_loop fuel http max_retries c n).
Proof.
  revert c n. induction fuel as [|fuel IH]; intros c n Hfuel; [lia|].
  simpl. case_bool_decide as Hc; [|eauto].
  assert (∀ k, c + 1 ≤ max_retries →
            is_Some (then_ k (page_loop fuel http max_retries (c + 1) (S n)))) as Hnext.
  { intros k Hle. destruct (IH (c + 1) (S n)) as [[o tr] ->]; [lia|]. simpl. eauto. }
  destruct (http n) as [status body| |].
  - case_bool_decide; [destruct (trades_of_body body); eauto|].
    destruct (_ || _); [|eauto].
    case_bool_decide; [eauto|]. apply Hnext. lia.
  - case_bool_decide; [eauto|]. apply Hnext. lia.
  - eauto.
Qed.

Lemma page_loop_more_fuel (fuel fuel' : nat) (http : nat → response)
    (max_retries c : Z) (n : nat) (res : outcome * list event) :
  page_loop fuel http max_retries c n = Some res → (fuel ≤ fuel')%nat →
  page_loop fuel' http max_retries c n = Some res.
Proof.
  revert fuel' c n res. induction fuel as [|fuel IH]; intros fuel' c n res; [done|].
  destruct fuel' as [|fuel']; [lia|]. intros H Hle. simpl in *.
  case_bool_decide; [|done].
  assert (∀ k c', then_ k (page_loop fuel http max_retries c' (S n)) = Some res →
                  then_ k (page_loop fuel' http max_retries c' (S n)) = Some res) as Hnext.
  { intros k c' Hk.
    destruct (page_loop fuel http max_retries c' (S n)) as [res'|] eqn:E; [|done].
    by rewrite (IH fuel' c' (S n) res' E) by lia. }
  destruct (http n) as [status body| |]; [|by case_bool_decide; auto|done].
  case_bool_decide; [done|]. destruct (_ || _); [|done].
  case_bool_decide; auto.
Qed.

(** One retried request: a transient answer within the budget. *)
Lemma page_loop_retry (fuel : nat) (http : nat → response) (max_retries c : Z) (n : nat) :
  transient (http n) = true → c + 1 ≤ max_retries →
  page_loop (S fuel) http max_retries c n
  = then_ (request ++ [Sleep (retry_sleep (http n) (c + 1))])
      (page_loop fuel http max_retries (c + 1) (S n)).
Proof.
  intros Ht Hc. simpl. rewrite bool_decide_true by lia.
  destruct (http n) as [status body| |]; simpl in Ht; [| |done].
  - rewrite bool_decide_false.
    2:{ intros ->. revert Ht. by vm_compute. }
    rewrite Ht. by rewrite bool_decide_false by lia.
  - by rewrite bool_decide_false by lia.
Qed.

(** The last request of a call whose budget is spent by a transient answer. *)
Lemma page_loop_exhausted (fuel : nat) (http : nat → response) (max_retries : Z) (n : nat) :
  transient (http n) = true →
  page_loop (S fuel) http max_retries max_retries n = Some (Return [] false, request).
Proof.
  intros Ht. simpl. rewrite bool_decide_true by lia.
  destruct (http n) as [status body| |]; simpl in Ht; [| |done].
  - rewrite bool_decide_false.
    2:{ intros ->. revert Ht. by vm_compute. }
    rewrite Ht. by rewrite bool_decide_true by lia.
  - by rewrite bool_decide_true by lia.
Qed.

(** An answer that is not transient ends the call at once. *)
Lemma page_loop_final (fuel : nat) (http : nat → response) (max_retries c : Z) (n : nat) :
  transient (http n) = false → c ≤ max_retries →
  page_loop (S fuel) http max_retries c n = Some (final_outcome (http n), request).
Proof.
  intros Ht Hc. simpl. rewrite bool_decide_true by lia.
  destruct (http n) as [status body| |]; [|done|done].
  unfold transient in Ht. unfold final_outcome.
  destruct (bool_decide (status = 200)); [by destruct (trades_of_body body)|].
  by rewrite Ht.
Qed.

Lemma then_then {R : Type} (e1 e2 : list event) (k : option (R * list event)) :
  then_ e1 (then_ e2 k) = then_ (e1 ++ e2) k.
Proof. destruct k as [[r tr]|]; simpl; [|done]. by rewrite app_assoc. Qed.

Lemma page_loop_retries (m fuel : nat) (http : nat → response)
    (max_retries c : Z) (n : nat) :
  (∀ i, (i < m)%nat → transient (http (n + i)%nat) = true) →
  c + Z.of_nat m ≤ max_retries →
  page_loop (m + fuel) http max_retries c n
  = then_ (retries http c n m)
      (page_loop fuel http max_retries (c + Z.of_nat m) (n + m)).
Proof.
  revert c n. induction m as [|m IH]; intros c n Ht Hc.
  - simpl. rewrite Z.add_0_r, Nat.add_0_r.
    by destruct (page_loop fuel http max_retries c n) as [[]|].
  - cbn [Nat.add retries]. rewrite page_loop_retry.
    2:{ specialize (Ht 0%nat). rewrite Nat.add_0_r in Ht. apply Ht. lia. }
    2:{ lia. }
    rewrite IH.
    2:{ intros i Hi. replace (S n + i)%nat with (n + S i)%nat by lia. apply Ht. lia. }
    2:{ lia. }
    rewrite then_then.
    replace (c + 1 + Z.of_nat m) with (c + Z.of_nat (S m)) by lia.
    replace (S n + m)%nat with (n + S m)%nat by lia.
    by rewrite <- !app_assoc.
Qed.

Lemma retries_no_gate_event (http : nat → response) (c : Z) (n m : nat) :
  (Acquire ∉ retries http c n m) ∧ (Release ∉ retries http c n m).
Proof.
  revert c n. induction m as [|m IH]; intros c n; simpl.
  - split; apply not_elem_of_nil.
  - destruct (IH (c + 1) (S n)) as [Ha Hr].
    split; intros H; repeat (apply elem_of_cons in H as [H|H]; [done|]); done.
Qed.

(** C6, as stated, fails: a transport exception does not fail the page
    immediately.  After a [RequestException] the call sleeps 5 seconds and
    asks again, and here the second answer makes it succeed. *)
Lemma page_request_exception_is_retried :
  ¬ (∀ (http : nat → response) (max_retries : Z),
        http 0%nat = RaiseRequestException →
        ∃ tr, fetch_trades_for_single_market_page http max_retries
              = Some (Return [] false, tr)).
Proof.
  intros H.
  destruct (H (λ n, match n with
                    | O => RaiseRequestException
                    | S _ => Resp 200 (TradesList [∅])
                    end) 3 eq_refl) as [tr Htr].
  vm_compute in Htr. discriminate.
Qed.

(** C6 (amended). Inside one page call, with the gate held throughout: as
    long as the answers are 429, 408 or a [RequestException] and the retry
    budget lasts, the call sleeps ([min(10 + 2^retry, 30)] seconds after a
    429 or 408, 5 seconds after a [RequestException]) and asks again without
    releasing the gate; the first answer that is none of these ends the call
    at once (200 returns the trades, any other status returns a failure, a
    foreign exception leaves the call); when the answer number
    [max_retries + 1] is still transient the call returns a failure.  The
    failure is a returned [([], False)], not an exception. *)
Theorem page_retry_policy (http : nat → response) (max_retries : Z) (m : nat) :
  Z.of_nat m ≤ max_retries →
  (∀ i, (i < m)%nat → transient (http i) = true) →
  let inside := retries http 0 0 m in
  (Acquire ∉ inside) ∧ (Release ∉ inside)
  ∧ (transient (http m) = false →
     fetch_trades_for_single_market_page http max_retries
     = Some (final_outcome (http m), [Acquire] ++ (inside ++ request) ++ [Release]))
  ∧ (transient (http m) = true → Z.of_nat m = max_retries →
     fetch_trades_for_single_market_page http max_retries
     = Some (Return [] false, [Acquire] ++ (inside ++ request) ++ [Release]))
  ∧ (∀ status_code body, http m = Resp status_code body →
       status_code ≠ 200 → status_code ≠ 429 → status_code ≠ 408 →
       final_outcome (http m) = Return [] false).
Proof.
  intros Hm Ht inside.
  destruct (retries_no_gate_event http 0 0 m) as [Ha Hr].
  split; [done|]. split; [done|].
  assert (page_fuel max_retries = (m + S (Z.to_nat (max_retries + 1) - m))%nat) as Hfuel.
  { unfold page_fuel. lia. }
  unfold fetch_trades_for_single_market_page. rewrite Hfuel.
  rewrite page_loop_retries by (done || lia).
  rewrite Z.add_0_l. change (0 + m)%nat with m.
  split; [|split].
  - intros Hfin. rewrite page_loop_final by (done || lia). done.
  - intros Htr Heq. rewrite Heq. rewrite page_loop_exhausted by done. done.
  - intros status body -> H200 H429 H408. simpl.
    by rewrite bool_decide_false.
Qed.

(** [page_retry_policy] on a call that meets 429, a [RequestException] and
    408 before a 500. *)
Lemma page_retry_policy_witness :
  fetch_trades_for_single_market_page
    (λ n, match n with
          | 0%nat => Resp 429 TradesBad
          | 1%nat => RaiseRequestException
          | 2%nat => Resp 408 TradesBad
          | _ => Resp 500 TradesBad
          end) 3
  = Some (Return [] false,
          [Acquire; RequestStart; RequestEnd; Sleep (inject_Z 12);
           RequestStart; RequestEnd; Sleep 5;
           RequestStart; RequestEnd; Sleep (inject_Z 18);
           RequestStart; RequestEnd; Release]).
Proof.
  set (http := λ n : nat, match n with
                          | 0%nat => Resp 429 TradesBad
                          | 1%nat => RaiseRequestException
                          | 2%nat => Resp 408 TradesBad
                          | _ => Resp 500 TradesBad
                          end).
  assert (Z.of_nat 3 ≤ 3) as Hm by lia.
  assert (∀ i, (i < 3)%nat → transient (http i) = true) as Ht.
  { intros [|[|[|i]]] Hi; try reflexivity. lia. }
  exact (proj1 (proj2 (proj2 (page_retry_policy http 3 3 Hm Ht))) eq_refl).
Defined.

End FetchClvFacts.

(** ** The gate *)
Module GateFacts.
Import FetchClv FetchClvFacts.
Local Open Scope Z_scope.

Lemma page_loop_gated (fuel : nat) (http : nat → response) (max_retries c : Z) (n : nat)
    (out : outcome) (tr rest : list event) :
  page_loop fuel http max_retries c n = Some (out, tr) →
  gated true false rest = true → gated true false (tr ++ rest) = true.
Proof.
  revert c n out tr. induction fuel as [|fuel IH]; intros c n out tr; [done|].
  intros H Hrest. simpl in H.
  assert (∀ d c', then_ [RequestStart; RequestEnd; Sleep d]
                    (page_loop fuel http max_retries c' (S n))
                  = Some (out, tr) → gated true false (tr ++ rest) = true) as Hnext.
  { intros d c' Hk.
    destruct (page_loop fuel http max_retries c' (S n)) as [[o tr']|] eqn:E; [|done].
    simpl in Hk. injection Hk as <- <-. simpl. eapply IH; eauto. }
  assert (Some (out, tr) = Some (out, tr) → True) as _ by done.
  destruct (bool_decide (c ≤ max_retries)); [|by injection H as <- <-].
  destruct (http n) as [status body| |].
  - destruct (bool_decide (status = 200)).
    { destruct (trades_of_body body); by injection H as <- <-. }
    destruct (_ || _); [|by injection H as <- <-].
    destruct (bool_decide (c + 1 > max_retries)); [by injection H as <- <-|eauto].
  - destruct (bool_decide (c + 1 > max_retries)); [by injection H as <- <-|eauto].
  - by injection H as <- <-.
Qed.

Lemma page_loop_no_gate_event (fuel : nat) (http : nat → response) (max_retries c : Z)
    (n : nat) (out : outcome) (tr : list event) :
  page_loop fuel http max_retries c n = Some (out, tr) →
  (Acquire ∉ tr) ∧ (Release ∉ tr).
Proof.
  revert c n out tr. induction fuel as [|fuel IH]; intros c n out tr; [done|].
  intros H. simpl in H.
  assert ((Acquire ∉ request) ∧ (Release ∉ request)) as Hreq.
  { split; intros Hin; repeat (apply elem_of_cons in Hin as [Hin|Hin]; [done|]);
      by apply elem_of_nil in Hin. }
  assert ((Acquire ∉ @nil event) ∧ (Release ∉ @nil event)) as Hnil.
  { split; apply not_elem_of_nil. }
  assert (∀ d c', then_ [RequestStart; RequestEnd; Sleep d]
                    (page_loop fuel http max_retries c' (S n))
                  = Some (out, tr) → (Acquire ∉ tr) ∧ (Release ∉ tr)) as Hnext.
  { intros d c' Hk.
    destruct (page_loop fuel http max_retries c' (S n)) as [[o tr']|] eqn:E; [|done].
    simpl in Hk. injection Hk as <- <-.
    destruct (IH _ _ _ _ E) as [Ha Hr].
    split; intros Hin; repeat (apply elem_of_cons in Hin as [Hin|Hin]; [done|]); done. }
  destruct (bool_decide (c ≤ max_retries)); [|by injection H as <- <-].
  destruct (http n) as [status body| |].
  - destruct (bool_decide (status = 200)).
    { destruct (trades_of_body body); by injection H as <- <-. }
    destruct (_ || _); [|by injection H as <- <-].
    destruct (bool_decide (c + 1 > max_retries)); [by injection H as <- <-|eauto].
  - destruct (bool_decide (c + 1 > max_retries)); [by injection H as <- <-|eauto].
  - by injection H as <- <-.
Qed.

(** Every page call, however it ends, is one acquire, then requests and
    sleeps, then one release. *)
Lemma page_call_bracketed (http : nat → response) (max_retries : Z) :
  ∃ out inside,
    fetch_trades_for_single_market_page http max_retries
    = Some (out, [Acquire] ++ inside ++ [Release])
    ∧ (Acquire ∉ inside) ∧ (Release ∉ inside)
    ∧ ∀ rest, gated false false rest = true →
              gated false false (([Acquire] ++ inside ++ [Release]) ++ rest) = true.
Proof.
  unfold fetch_trades_for_single_market_page.
  destruct (page_loop_total (page_fuel max_retries) http max_retries 0 0)
    as [[out tr] E]; [unfold page_fuel; lia|].
  rewrite E. exists out, tr. split; [done|].
  destruct (page_loop_no_gate_event _ _ _ _ _ _ _ E) as [Ha Hr].
  split; [done|]. split; [done|].
  intros rest Hrest. simpl. rewrite <- app_assoc.
  eapply page_loop_gated; [exact E|]. simpl. exact Hrest.
Qed.

Lemma market_loop_gated (fuel : nat) (http : nat → nat → response)
    (limit max_retries : Z) (all_trades : list pydict) (offset : Z) (page_num : nat) :
  gated false false (market_loop fuel http limit max_retries all_trades offset page_num).2
  = true.
Proof.
  revert all_trades offset page_num.
  induction fuel as [|fuel IH]; intros all_trades offset page_num; [done|].
  simpl.
  destruct (page_call_bracketed (http page_num) max_retries)
    as (out & inside & -> & _ & _ & Hg).
  assert (gated false false ([Acquire] ++ inside ++ [Release]) = true) as Hg0.
  { rewrite <- (app_nil_r (_ ++ _)). rewrite <- app_assoc. by apply (Hg []). }
  destruct out as [page_trades success|]; [|done].
  destruct success; simpl; [|done].
  case_bool_decide; [done|]. case_bool_decide; [done|].
  destruct (market_loop fuel http limit max_retries (all_trades ++ page_trades)
              (offset + limit) (S page_num)) as [out' tr'] eqn:E.
  simpl. specialize (IH (all_trades ++ page_trades) (offset + limit) (S page_num)).
  rewrite E in IH. simpl in IH.
  specialize (Hg (Sleep 0.1%Q :: tr')). simpl in Hg.
  rewrite <- app_assoc in Hg. rewrite <- app_assoc. apply Hg. exact IH.
Qed.

Lemma count_insert (f : thread → bool) (l : list thread) (i : nat) (x y : thread) :
  l !! i = Some x →
  (length (List.filter f (<[i := y]> l)) + weight (f x)
   = length (List.filter f l) + weight (f y))%nat.
Proof.
  revert i. induction l as [|z l IH]; intros i Hi; [done|].
  destruct i as [|i]; simpl in *.
  - injection Hi as ->. destruct (f x), (f y); simpl; lia.
  - specialize (IH i Hi). destruct (f z); simpl; lia.
Qed.

Lemma thread_step_ok (p p' : nat) (th th' : thread) :
  thread_ok th → thread_step p th = Some (p', th') →
  thread_ok th' ∧ (p' + weight (holding th') = p + weight (holding th))%nat.
Proof.
  intros [Hg Hrh] Hstep. unfold thread_step in Hstep. unfold thread_ok.
  destruct th as [h r td]; simpl in *.
  destruct td as [|[| | | |d] rest]; [done|..]; simpl in Hg;
    try (destruct p as [|p]; [done|]);
    injection Hstep as <- <-; simpl;
    destruct h, r; simpl in *; try done;
    repeat split; try done; try lia.
Qed.

Lemma gate_inv_step (capacity : nat) (s s' : system) :
  gate_inv capacity s → step s s' → gate_inv capacity s'.
Proof.
  intros [Hsum Hall] Hstep. destruct Hstep as [s i th th' p' Hi Hth].
  assert (thread_ok th) as Hok.
  { eapply Forall_lookup_1 in Hall; eauto. }
  destruct (thread_step_ok _ _ _ _ Hok Hth) as [Hok' Hbal].
  split; simpl.
  - unfold holders in *. simpl.
    pose proof (count_insert holding (threads s) i th th' Hi). lia.
  - by apply Forall_insert.
Qed.

Lemma gate_inv_reachable (capacity : nat) (s0 s : system) :
  gate_inv capacity s0 → reachable s0 s → gate_inv capacity s.
Proof.
  intros H0 Hr. induction Hr as [|s s' _ IH Hstep]; [done|].
  eapply gate_inv_step; eauto.
Qed.

Lemma gate_inv_initial (capacity : nat) (programs : list (list event)) :
  Forall (λ prog, gated false false prog = true) programs →
  gate_inv capacity (initial capacity programs).
Proof.
  intros Hp. unfold gate_inv, initial, holders; simpl.
  induction Hp as [|prog programs Hprog _ [IH1 IH2]]; simpl.
  - split; [lia|constructor].
  - split; [exact IH1|]. constructor; [|exact IH2].
    split; [exact Hprog|]. simpl. discriminate.
Qed.

Lemma in_flight_le_holders (s : system) :
  Forall thread_ok (threads s) → (in_flight s ≤ holders s)%nat.
Proof.
  unfold in_flight, holders. induction 1 as [|th l [_ Hrh] _ IH]; simpl; [lia|].
  destruct (requesting th) eqn:Er.
  - rewrite (Hrh eq_refl). simpl. lia.
  - destruct (holding th); simpl; lia.
Qed.

(** C2. Every call of [fetch_trades_for_single_market_page] returns or
    raises after exactly one acquire, placed before all its requests, and
    one release, placed after them, on every exit path.  Hence, when any
    number of market tasks run [fetch_trades_for_market_complete] against one
    semaphore of [simultaneous_requests] permits, in every state any
    interleaving can reach the threads inside [requests.get] are at most the
    threads holding a permit, which together with the free permits are
    exactly [simultaneous_requests]. *)
Theorem gate_never_exceeded
    (simultaneous_requests fuel : nat) (markets : list (nat → nat → response))
    (limit max_retries : Z) (s : system) :
  reachable
    (initial simultaneous_requests
       ((λ http, (fetch_trades_for_market_complete fuel http limit max_retries).2)
          <$> markets)) s →
  (in_flight s ≤ simultaneous_requests)%nat
  ∧ (in_flight s ≤ holders s)%nat
  ∧ (permits s + holders s = simultaneous_requests)%nat
  ∧ (∀ (http : nat → response) (retries_allowed : Z),
       ∃ out inside,
         fetch_trades_for_single_market_page http retries_allowed
         = Some (out, [Acquire] ++ inside ++ [Release])
         ∧ (Acquire ∉ inside) ∧ (Release ∉ inside)).
Proof.
  intros Hr.
  assert (gate_inv simultaneous_requests s) as [Hsum Hall].
  { eapply gate_inv_reachable; [|exact Hr]. apply gate_inv_initial.
    apply Forall_fmap. apply Forall_forall. intros http _. simpl.
    apply market_loop_gated. }
  pose proof (in_flight_le_holders s Hall) as Hle.
  split; [lia|]. split; [done|]. split; [done|].
  intros http mr. destruct (page_call_bracketed http mr) as (out & inside & E & Ha & Hrl & _).
  eauto.
Qed.

Lemma run_thread_reachable (s0 s : system) (i : nat) :
  reachable s0 s → reachable s0 (run_thread i s).
Proof.
  intros Hr. unfold run_thread.
  destruct (threads s !! i) as [th|] eqn:Ei; [|done].
  destruct (thread_step (permits s) th) as [[p' th']|] eqn:Es; [|done].
  eapply reachable_step; [exact Hr|]. by econstructor.
Qed.

(** [gate_never_exceeded] at a state where the only permit is taken. *)
Lemma gate_never_exceeded_witness :
  in_flight contended = 1%nat ∧ permits contended = 0%nat
  ∧ (in_flight contended ≤ 1)%nat.
Proof.
  split; [reflexivity|]. split; [reflexivity|].
  refine (proj1 (gate_never_exceeded 1 1 [quiet_market; quiet_market] 100 3 contended _)).
  unfold contended. do 3 apply run_thread_reachable. apply reachable_refl.
Defined.

End GateFacts.

(** ** The two passes over the markets *)
Module OrchestrationFacts.
Import FetchClv.

Section TwoPhase.

Variable fetch_market : nat → string → market_result.
Variable completion_order : nat → list string → list string.

Lemma collect_step (pass : nat) (m : string) (acc : list pydict) (failed : list string) :
  collect fetch_market pass (acc, failed) m
  = (acc ++ contribution fetch_market pass m,
     failed ++ (if fails fetch_market pass m then [m] else [])).
Proof.
  unfold collect, contribution, fails.
  destruct (fetch_market pass m) as [trades [|]|]; by rewrite ?app_nil_r.
Qed.

Lemma collect_foldl (pass : nat) (l : list string) (acc : list pydict) (failed : list string) :
  foldl (collect fetch_market pass) (acc, failed) l
  = (acc ++ (l ≫= contribution fetch_market pass),
     failed ++ filter (λ m, fails fetch_market pass m = true) l).
Proof.
  revert acc failed. induction l as [|m l IH]; intros acc failed.
  - simpl. by rewrite !app_nil_r.
  - cbn [foldl]. rewrite collect_step, IH.
    change ((m :: l) ≫= contribution fetch_market pass)
      with (contribution fetch_market pass m ++ (l ≫= contribution fetch_market pass)).
    destruct (fails fetch_market pass m) eqn:Ef.
    + rewrite filter_cons_True by done. by rewrite <- !app_assoc.
    + rewrite filter_cons_False by congruence. by rewrite app_nil_r, <- app_assoc.
Qed.

Lemma run_loop_eq (pass : nat) (markets : list string) :
  _run_market_processing_loop fetch_market completion_order pass markets
  = (completion_order pass markets ≫= contribution fetch_market pass,
     filter (λ m, fails fetch_market pass m = true) (completion_order pass markets)).
Proof. unfold _run_market_processing_loop. by rewrite collect_foldl. Qed.

Hypothesis completion_order_perm : ∀ pass l, completion_order pass l ≡ₚ l.

(** C5 (amended). [fetch_all_trades_parallel] runs the loop once over the
    unique condition ids and, when some failed, once more over exactly the
    failed ones: up to the order of completion, the rows it returns are the
    tagged trades of the markets that succeed in the first pass followed by
    those of the markets that fail the first pass and succeed in the second;
    the markets that fail both passes are the final failed list, which is
    printed line by line.  The return value is the trades alone. *)
Theorem two_phase_retry (column : list (option string)) :
  let condition_ids := condition_ids_of column in
  let result := fetch_all_trades_parallel fetch_market completion_order column in
  let fail_twice := filter (λ m, fails fetch_market 1 m = true)
                      (filter (λ m, fails fetch_market 0 m = true) condition_ids) in
  returned result
    ≡ₚ (condition_ids ≫= contribution fetch_market 0)
       ++ (filter (λ m, fails fetch_market 0 m = true) condition_ids
             ≫= contribution fetch_market 1)
  ∧ (two_phase fetch_market completion_order column).1 = returned result
  ∧ (two_phase fetch_market completion_order column).2 ≡ₚ fail_twice
  ∧ printed_failed result ≡ₚ (λ m, "  - " +:+ m)%string <$> fail_twice.
Proof.
  intros condition_ids result fail_twice.
  unfold result, fetch_all_trades_parallel.
  destruct (two_phase fetch_market completion_order column) as [all final] eqn:E.
  simpl. unfold two_phase in E. fold condition_ids in E.
  rewrite run_loop_eq in E.
  assert (filter (λ m, fails fetch_market 0 m = true) (completion_order 0 condition_ids)
          ≡ₚ filter (λ m, fails fetch_market 0 m = true) condition_ids) as Hf0.
  { by rewrite completion_order_perm. }
  assert (completion_order 0 condition_ids ≫= contribution fetch_market 0
          ≡ₚ condition_ids ≫= contribution fetch_market 0) as Ht0.
  { by rewrite completion_order_perm. }
  destruct (filter _ (completion_order 0 condition_ids)) as [|f failed] eqn:Ef.
  - injection E as <- <-.
    symmetry in Hf0. apply Permutation_nil_r in Hf0.
    unfold fail_twice. rewrite Hf0. simpl. rewrite app_nil_r.
    repeat split; done.
  - rewrite run_loop_eq in E. injection E as <- <-.
    assert (final_ok :
      filter (λ m, fails fetch_market 1 m = true) (completion_order 1 (f :: failed))
      ≡ₚ fail_twice).
    { unfold fail_twice. by rewrite completion_order_perm, Hf0. }
    split; [|split; [done|split; [done|by rewrite final_ok]]].
    by rewrite Ht0, completion_order_perm, Hf0.
Qed.

End TwoPhase.

(** C5, as stated, fails: the caller does not receive the list of markets
    still failing.  Two runs that return the same (empty) DataFrame end with
    different final failed lists, so no function of the return value gives
    that list. *)
Lemma failed_markets_not_in_return_value :
  ¬ (∃ failed_of : list pydict → list string,
       ∀ fetch_market completion_order column,
         (two_phase fetch_market completion_order column).2
         = failed_of
             (returned (fetch_all_trades_parallel fetch_market completion_order column))).
Proof.
  intros [failed_of H].
  pose proof (H always_crashes in_submission_order [Some "m1"]) as H1.
  pose proof (H always_crashes in_submission_order [Some "m2"]) as H2.
  vm_compute in H1, H2. congruence.
Qed.

(** [two_phase_retry] on three markets: "a" succeeds at once, "b" when
    retried, "c" never. *)
Lemma two_phase_retry_witness :
  let result := fetch_all_trades_parallel example_fetch in_submission_order
                  [Some "a"; None; Some "b"; Some "c"; Some "a"] in
  returned result
    ≡ₚ [ tag "a" {["price" := VNum 1]}; tag "b" {["price" := VNum 2]} ]
  ∧ printed_failed result ≡ₚ ["  - c"].
Proof.
  destruct (two_phase_retry example_fetch in_submission_order (λ _ l, reflexivity l)
              [Some "a"; None; Some "b"; Some "c"; Some "a"]) as (Hr & _ & _ & Hp).
  split.
  - etransitivity; [exact Hr|]. vm_compute. reflexivity.
  - etransitivity; [exact Hp|]. vm_compute. reflexivity.
Defined.

End OrchestrationFacts.

(** ** Offset pager *)
Module OffsetPagerFacts.
Import OffsetPager.
Local Open Scope Z_scope.

Section WithRecords.

Context {A : Type}.
Implicit Types (all_data : list A) (http : nat → Z → Z → response A).

Lemma trim_bounded (start_offset end_offset : Z) all_data (current_offset : Z) :
  start_offset ≤ end_offset →
  Z.of_nat (length all_data) ≤ current_offset - start_offset →
  let '(all_data', current_offset') := trim true end_offset all_data current_offset in
  within start_offset end_offset all_data' current_offset'
  ∧ (current_offset' = current_offset ∨ current_offset' = end_offset).
Proof.
  intros Hse Hlen. unfold trim, within. simpl.
  case_bool_decide as Hover; simpl; [|split; [lia|by left]].
  rewrite bool_decide_true by lia.
  case_bool_decide as Hex; (split; [|by right]).
  - rewrite length_take. lia.
  - simpl. lia.
Qed.

Lemma trim_cuts_tail (end_offset : Z) all_data (current_offset : Z) :
  end_offset < current_offset →
  current_offset - end_offset ≤ Z.of_nat (length all_data) →
  trim true end_offset all_data current_offset
  = (take (length all_data - Z.to_nat (current_offset - end_offset)) all_data, end_offset).
Proof.
  intros Hover Hex. unfold trim. simpl.
  rewrite !bool_decide_true by lia. done.
Qed.

Lemma inner_loop_total (fuel : nat) http (bounded : bool) (end_offset max_limit : Z)
    all_data (current_offset : Z) (n : nat) (retry_count : Z) :
  (1 ≤ fuel)%nat → (Z.to_nat (max_retries - retry_count) ≤ fuel)%nat →
  is_Some (inner_loop fuel http bounded end_offset max_limit
             all_data current_offset n retry_count).
Proof.
  revert n retry_count. induction fuel as [|fuel IH]; intros n rc H1 Hfuel; [lia|].
  simpl. destruct (bool_decide (rc < max_retries)) eqn:Hrc; [|eauto].
  apply bool_decide_eq_true in Hrc.
  destruct (success _ && truthy_json _).
  { destruct (data _); [|eauto]. destruct (trim _ _ _ _). eauto. }
  destruct (negb _); [|eauto].
  destruct (bool_decide (error_of _ = _)); [|eauto].
  destruct (bool_decide (max_retries ≤ rc + 1)) eqn:Hnext; [eauto|].
  apply bool_decide_eq_false in Hnext. apply IH; unfold max_retries in *; lia.
Qed.

(** What the inner loop guarantees to a bounded worker. *)
Lemma inner_loop_bounded (start_offset end_offset max_limit : Z) http
    (fuel : nat) all_data (current_offset : Z) (n : nat) (retry_count : Z)
    (ex : inner_exit A) :
  inner_loop fuel http true end_offset max_limit all_data current_offset n retry_count
  = Some ex →
  start_offset ≤ end_offset →
  within start_offset end_offset all_data current_offset →
  match ex with
  | Break all_data' current_offset' _ retry_count' collected =>
      within start_offset end_offset all_data' current_offset'
      ∧ (collected = true →
         current_offset < current_offset' ∨ current_offset' = end_offset)
      ∧ (collected = false → max_retries ≤ retry_count')
  | ReturnData all_data' => all_data' = all_data
  | RaiseError => True
  end.
Proof.
  revert n retry_count. induction fuel as [|fuel IH]; intros n rc H Hse Hin; [done|].
  simpl in H. destruct (bool_decide (rc < max_retries)) eqn:Hrc.
  2:{ injection H as <-. apply bool_decide_eq_false in Hrc.
      split; [done|]. split; [done|]. intros _. lia. }
  destruct (success _ && truthy_json _) eqn:Hok.
  { apply andb_true_iff in Hok as [_ Htruthy].
    destruct (data _) as [items|b]; [|by injection H as <-].
    simpl in Htruthy. apply negb_true_iff, bool_decide_eq_false in Htruthy.
    destruct Hin as [Hlen Hoff].
    pose proof (trim_bounded start_offset end_offset (all_data ++ items)
                  (current_offset + Z.of_nat (length items)) Hse) as Ht.
    destruct (trim _ _ _ _) as [d' off']. injection H as <-.
    destruct Ht as [Hw Hcase]; [rewrite length_app; lia|].
    split; [done|]. split; [|done]. intros _.
    destruct Hcase as [->| ->]; [left|by right].
    destruct items; [done|]. simpl. lia. }
  destruct (negb _); [|by injection H as <-].
  destruct (bool_decide (error_of _ = _)); [|by injection H as <-].
  destruct (bool_decide (max_retries ≤ rc + 1)) eqn:Hnext.
  - injection H as <-. apply bool_decide_eq_true in Hnext. done.
  - by apply (IH (S n) (rc + 1)).
Qed.

(** A bounded worker ends, and with no more records than its window holds. *)
Lemma outer_loop_bounded (start_offset end_offset process_id num_processes : Z) http
    (fuel : nat) all_data (current_offset max_limit : Z) (n : nat) :
  process_id < num_processes →
  within start_offset end_offset all_data current_offset →
  (Z.to_nat (end_offset - current_offset) < fuel)%nat →
  ∃ r, outer_loop fuel http end_offset process_id num_processes
         all_data current_offset max_limit n = Some r
       ∧ Z.of_nat (length (collected_by (Some r))) ≤ end_offset - start_offset.
Proof.
  intros Hpid. revert all_data current_offset max_limit n.
  induction fuel as [|fuel IH]; intros d off ml n Hin Hfuel; [lia|].
  assert (start_offset ≤ end_offset) as Hse by (destruct Hin; lia).
  cbn [outer_loop].
  rewrite (bool_decide_true (process_id < num_processes)) by done.
  rewrite !andb_true_l.
  case_bool_decide as Hend.
  { eexists. split; [reflexivity|]. simpl. destruct Hin. lia. }
  rewrite bool_decide_false by lia.
  destruct (inner_loop_total (Z.to_nat max_retries) http true end_offset
              (Z.min ml (end_offset - off)) d off n 0) as [ex Hex];
    [unfold max_retries; lia..|].
  rewrite Hex.
  pose proof (inner_loop_bounded start_offset _ _ _ _ _ _ _ _ _ Hex Hse Hin) as Hsp.
  destruct ex as [d' off' n' rc' col|d'|].
  - destruct Hsp as (Hin' & Hprog & Hexh).
    destruct (bool_decide (max_retries ≤ rc') && negb col) eqn:Hstop.
    { eexists. split; [reflexivity|]. simpl. destruct Hin'. lia. }
    rewrite andb_true_l.
    destruct (bool_decide (end_offset ≤ off')) eqn:Hend'.
    { eexists. split; [reflexivity|]. simpl. destruct Hin'. lia. }
    apply bool_decide_eq_false in Hend'.
    apply IH; [done|].
    destruct col.
    + destruct (Hprog eq_refl); lia.
    + specialize (Hexh eq_refl). rewrite bool_decide_true in Hstop by done. done.
  - subst d'. eexists. split; [reflexivity|]. simpl. destruct Hin. lia.
  - eexists. split; [reflexivity|]. simpl. lia.
Qed.

Lemma fetch_range_bounded (start_offset end_offset process_id num_processes : Z) http :
  start_offset ≤ end_offset → process_id < num_processes →
  ∃ r, fetch_range (S (Z.to_nat (end_offset - start_offset))) http
         start_offset end_offset process_id num_processes = Some r
       ∧ Z.of_nat (length (collected_by (Some r))) ≤ end_offset - start_offset.
Proof.
  intros Hse Hpid. unfold fetch_range.
  apply (outer_loop_bounded start_offset); [done| |lia].
  split; simpl; lia.
Qed.

End WithRecords.

Lemma sum_list_bound (l : list nat) (b : Z) :
  Forall (λ x, Z.of_nat x ≤ b) l → Z.of_nat (sum_list l) ≤ Z.of_nat (length l) * b.
Proof. induction 1; simpl; lia. Qed.

End OffsetPagerFacts.

(** ** The cursor pager *)
Module PagerFacts.
Import Subgraph.
Local Open Scope Z_scope.

Section Pager.

Variable graphql : nat → Z → Z → graphql_result.
Variable batch_size : Z.

Local Abbreviation page := (Subgraph.page graphql batch_size).
Local Abbreviation stops := (Subgraph.stops batch_size).
Local Abbreviation query := (Subgraph.query batch_size).

Lemma pager_loop_run (m : nat) :
  ∀ (fuel j : nat) (all_positions : list pydict) (queries : list (Z * Z)),
    (m < fuel)%nat →
    (∀ k, (j ≤ k < j + m)%nat → ¬ stops (page k)) →
    stops (page (j + m)) →
    pager_loop fuel graphql batch_size all_positions queries (Z.of_nat j * batch_size) j
    = Some (all_positions ++ concat (page <$> seq j (S m)),
            queries ++ (query <$> seq j (S m))).
Proof.
  induction m as [|m IH]; intros fuel j all qs Hfuel Hfull Hstop;
    (destruct fuel as [|fuel]; [lia|]); cbn [pager_loop]; fold (page j).
  - rewrite Nat.add_0_r in Hstop. simpl. rewrite app_nil_r.
    case_bool_decide as He; [by rewrite He, app_nil_r|].
    destruct Hstop as [?|Hshort]; [done|]. by rewrite bool_decide_true.
  - assert (¬ stops (page j)) as Hj by (apply Hfull; lia).
    rewrite bool_decide_false by (intros He; apply Hj; by left).
    rewrite bool_decide_false by (intros Hs; apply Hj; by right).
    replace (Z.of_nat j * batch_size + batch_size) with (Z.of_nat (S j) * batch_size) by lia.
    rewrite IH.
    + cbn [seq fmap list_fmap concat]. by rewrite <- !app_assoc.
    + lia.
    + intros k Hk. apply Hfull. lia.
    + by replace (S j + m)%nat with (j + S m)%nat by lia.
Qed.

(** C7. [get_all_user_positions] sends its first query with [skip = 0] and
    the k-th with [skip = k * batch_size], always asking for [batch_size]
    positions; it goes on as long as the pages are not empty and not shorter
    than [batch_size] and ends with the first page that is, returning all
    pages concatenated.  A transport error and a body with an ["error"] key
    give an empty page, which ends the pagination like the end of the data;
    the result is a list in every case. *)
Theorem cursor_pagination (m fuel : nat) :
  (∀ k, (k < m)%nat → ¬ stops (page k)) →
  stops (page m) →
  (m < fuel)%nat →
  get_all_user_positions fuel graphql batch_size
  = Some (concat (page <$> seq 0 (S m)), query <$> seq 0 (S m))
  ∧ (∀ message, get_user_positions (TransportError message) = [])
  ∧ (∀ data, get_user_positions (Json true data) = [])
  ∧ (∀ p, p = [] → stops p)
  ∧ (0 < batch_size → ∀ p, stops p ↔ Z.of_nat (length p) < batch_size).
Proof.
  intros Hfull Hstop Hfuel. split; [|split; [done|split; [done|split]]].
  - unfold get_all_user_positions.
    change 0 with (Z.of_nat 0 * batch_size).
    rewrite (pager_loop_run m); [done|done| |done].
    intros k Hk. apply Hfull. lia.
  - intros p ->. by left.
  - intros Hpos p. split; [|by right].
    intros [->|Hs]; [simpl; lia|done].
Qed.

End Pager.

(** [cursor_pagination] on it: two queries, with skip 0 and 2; the error
    ends the pagination and the first page is returned. *)
Lemma cursor_pagination_witness :
  ∃ positions,
    get_all_user_positions 5 two_then_error 2 = Some (positions, [(2, 0); (2, 2)])
    ∧ length positions = 2%nat.
Proof.
  assert (∀ k, (k < 1)%nat → ¬ stops 2 (page two_then_error 2 k)) as Hfull.
  { intros [|k] Hk; [|lia]. unfold stops, page. simpl. intros [H|H]; [discriminate|lia]. }
  assert (stops 2 (page two_then_error 2 1)) as Hstop by (by left).
  assert (1 < 5)%nat as Hfuel by lia.
  eexists. split.
  - exact (proj1 (cursor_pagination two_then_error 2 1 5 Hfull Hstop Hfuel)).
  - reflexivity.
Defined.

End PagerFacts.

(** ** Batched PNL fetch *)
Module BatchFacts.
Import Subgraph BatchPolicy.
Local Open Scope Z_scope.

Lemma pnl_then_is_Some {R : Type} (evs : list pnl_event) (k : option (R * list pnl_event)) :
  is_Some k → is_Some (pnl_then evs k).
Proof. intros [[r tr] ->]. simpl. eauto. Qed.

Lemma pnl_then_Some {R : Type} (evs : list pnl_event) (k : option (R * list pnl_event))
    (r : R) (tr : list pnl_event) :
  pnl_then evs k = Some (r, tr) → ∃ tr', k = Some (r, tr') ∧ tr = evs ++ tr'.
Proof. destruct k as [[r' tr']|]; simpl; [|done]. intros [= -> <-]. eauto. Qed.

(** One page further, one offset below 10000 fewer. *)
Lemma pages_left_step (limit offset : Z) :
  0 < limit →
  (10000 - (offset + limit) + limit - 1) / limit
  = (10000 - offset + limit - 1) / limit - 1.
Proof.
  intros Hl.
  replace (10000 - (offset + limit) + limit - 1)
    with (10000 - offset + limit - 1 + (-1) * limit) by lia.
  rewrite Z.div_add by lia. lia.
Qed.

Lemma pages_left_nonneg (limit offset : Z) :
  0 < limit → offset < 10000 → 0 ≤ (10000 - offset + limit - 1) / limit.
Proof. intros Hl Ho. apply Z.div_pos; lia. Qed.

Section Batch.

Variable http : nat → Z → pnl_response.
Variables limit max_retries : Z.
Hypothesis limit_pos : 0 < limit.

Local Abbreviation honest := (Subgraph.honest http limit).

Lemma batch_loop_total (fuel : nat) :
  ∀ (batch_data : list pydict) (offset retry_count : Z) (n : nat),
    offset < 10000 →
    0 ≤ retry_count < Z.max max_retries 1 →
    batch_measure limit max_retries offset retry_count ≤ Z.of_nat fuel →
    is_Some (batch_loop fuel http limit max_retries batch_data offset retry_count n).
Proof.
  unfold batch_measure.
  induction fuel as [|fuel IH]; intros data offset rc n Hoff Hrc Hm.
  { pose proof (pages_left_nonneg limit offset limit_pos Hoff). nia. }
  assert (∀ evs, max_retries > rc + 1 →
            is_Some (pnl_then evs (batch_loop fuel http limit max_retries data
                                     offset (rc + 1) (S n)))) as Hretry.
  { intros evs Hlt. apply pnl_then_is_Some, IH; [done|lia|lia]. }
  cbn [batch_loop]. destruct (http n offset) as [status body|].
  - case_bool_decide as H200.
    { destruct body as [[|d ds]|]; [eauto| |eauto].
      case_bool_decide; [eauto|]. case_bool_decide as Hcap; [eauto|].
      apply pnl_then_is_Some, IH; [lia|lia|].
      rewrite pages_left_step by done.
      pose proof (pages_left_nonneg limit offset limit_pos Hoff). nia. }
    case_bool_decide as H429.
    { case_bool_decide; [eauto|]. apply Hretry. lia. }
    case_bool_decide; [eauto|].
    case_bool_decide; [eauto|]. apply Hretry. lia.
  - case_bool_decide; [eauto|]. apply Hretry. lia.
Qed.

(** Every request asks for an offset below 10000, and each turn of the loop
    sends one request. *)
Lemma batch_loop_queries (fuel : nat) :
  ∀ (batch_data : list pydict) (offset retry_count : Z) (n : nat)
    (res : list pydict) (tr : list pnl_event),
    offset < 10000 →
    batch_loop fuel http limit max_retries batch_data offset retry_count n = Some (res, tr) →
    Forall (λ o, o < 10000) (queried tr) ∧ (length (queried tr) ≤ fuel)%nat.
Proof.
  induction fuel as [|fuel IH]; intros data offset rc n res tr Hoff H; [done|].
  assert (∀ p offset' rc',
            offset' < 10000 →
            pnl_then [Query offset; Pause p]
              (batch_loop fuel http limit max_retries data offset' rc' (S n)) = Some (res, tr) →
            Forall (λ o, o < 10000) (queried tr) ∧ (length (queried tr) ≤ S fuel)%nat)
    as Hnext.
  { intros p offset' rc' Hoff' Hk. apply pnl_then_Some in Hk as (tr' & Hk & ->).
    destruct (IH _ _ _ _ _ _ Hoff' Hk) as [Hq Hlen].
    split; [by constructor|simpl; lia]. }
  assert (Forall (λ o, o < 10000) (queried [Query offset])
          ∧ (length (queried [Query offset]) ≤ S fuel)%nat) as Hone.
  { split; [by repeat constructor|simpl; lia]. }
  assert (∀ p, Forall (λ o, o < 10000) (queried [Query offset; Pause p])
               ∧ (length (queried [Query offset; Pause p]) ≤ S fuel)%nat) as Hone'.
  { intros p. split; [by repeat constructor|simpl; lia]. }
  cbn [batch_loop] in H. destruct (http n offset) as [status body|].
  - destruct (bool_decide (status = 200)).
    { destruct body as [[|d ds]|]; [by injection H as <- <-| |by injection H as <- <-].
      destruct (bool_decide (_ < limit)); [by injection H as <- <-|].
      destruct (bool_decide (10000 ≤ offset + limit)) eqn:Hcap; [by injection H as <- <-|].
      apply bool_decide_eq_false in Hcap.
      apply pnl_then_Some in H as (tr' & Hk & ->).
      assert (offset + limit < 10000) as Hoff' by lia.
      destruct (IH _ _ _ _ _ _ Hoff' Hk) as [Hq Hlen].
      split; [by constructor|simpl; lia]. }
    destruct (bool_decide (status = 429)).
    { destruct (bool_decide (max_retries ≤ rc + 1)); [injection H as <- <-; apply Hone'|].
      by eapply Hnext. }
    destruct (bool_decide (status ∈ fatal_errors)); [by injection H as <- <-|].
    destruct (bool_decide (max_retries ≤ rc + 1)); [by injection H as <- <-|].
    by eapply Hnext.
  - destruct (bool_decide (max_retries ≤ rc + 1)); [by injection H as <- <-|].
    by eapply Hnext.
Qed.

(** The largest multiple of [limit] the loop can have collected. *)
Lemma window_bound (q : Z) :
  0 ≤ q → q * limit < 10000 → (q + 1) * limit ≤ (10000 + limit - 1) / limit * limit.
Proof.
  intros Hq Hlt.
  assert (q ≤ 9999 / limit) as Hle by (apply Z.div_le_lower_bound; lia).
  replace (10000 + limit - 1) with (9999 + 1 * limit) by lia.
  rewrite Z.div_add by lia. nia.
Qed.

Lemma batch_loop_records (fuel : nat) :
  honest →
  ∀ (batch_data : list pydict) (q retry_count : Z) (n : nat)
    (res : list pydict) (tr : list pnl_event),
    0 ≤ q → q * limit < 10000 →
    Z.of_nat (length batch_data) ≤ q * limit →
    batch_loop fuel http limit max_retries batch_data (q * limit) retry_count n
    = Some (res, tr) →
    Z.of_nat (length res) ≤ (10000 + limit - 1) / limit * limit.
Proof.
  intros Hhonest.
  induction fuel as [|fuel IH]; intros data q rc n res tr Hq Hlt Hlen H; [done|].
  pose proof (window_bound q Hq Hlt) as Hwin.
  assert (∀ evs rc', pnl_then evs (batch_loop fuel http limit max_retries data
                                     (q * limit) rc' (S n)) = Some (res, tr) →
                     Z.of_nat (length res) ≤ (10000 + limit - 1) / limit * limit) as Hnext.
  { intros evs rc' Hk. apply pnl_then_Some in Hk as (tr' & Hk & _). by eapply IH. }
  assert (Z.of_nat (length data) ≤ (10000 + limit - 1) / limit * limit) as Hdata by lia.
  cbn [batch_loop] in H. destruct (http n (q * limit)) as [status body|] eqn:Hresp.
  - destruct (bool_decide (status = 200)) eqn:H200.
    { apply bool_decide_eq_true in H200 as ->.
      destruct body as [[|d ds]|]; [by injection H as <- <-| |by injection H as <- <-].
      pose proof (Hhonest _ _ _ Hresp) as Hpage.
      assert (Z.of_nat (length (data ++ d :: ds)) ≤ (q + 1) * limit) as Hnew.
      { rewrite length_app. lia. }
      destruct (bool_decide (_ < limit)); [injection H as <- <-; lia|].
      destruct (bool_decide (10000 ≤ q * limit + limit)) eqn:Hcap;
        [injection H as <- <-; lia|].
      apply bool_decide_eq_false in Hcap.
      apply pnl_then_Some in H as (tr' & Hk & _).
      replace (q * limit + limit) with ((q + 1) * limit) in Hk by lia.
      eapply (IH _ (q + 1)); [lia|lia|exact Hnew|exact Hk]. }
    destruct (bool_decide (status = 429)).
    { destruct (bool_decide (max_retries ≤ rc + 1)); [by injection H as <- <-|eauto]. }
    destruct (bool_decide (status ∈ fatal_errors)); [by injection H as <- <-|].
    destruct (bool_decide (max_retries ≤ rc + 1)); [by injection H as <- <-|eauto].
  - destruct (bool_decide (max_retries ≤ rc + 1)); [by injection H as <- <-|eauto].
Qed.

Lemma fetch_batch_pnl_total :
  is_Some (_fetch_batch_pnl (batch_fuel limit max_retries) http limit max_retries).
Proof.
  apply batch_loop_total; [lia|lia|].
  unfold batch_fuel.
  assert (0 ≤ batch_measure limit max_retries 0 0); [|lia].
  unfold batch_measure.
  assert (0 < 10000) as H0 by lia.
  pose proof (pages_left_nonneg limit 0 limit_pos H0). nia.
Qed.

Lemma pnl_then_app {R : Type} (evs evs' : list pnl_event) (k : option (R * list pnl_event)) :
  pnl_then evs (pnl_then evs' k) = pnl_then (evs ++ evs') k.
Proof. destruct k as [[r tr]|]; simpl; [|done]. by rewrite app_assoc. Qed.

(** [m] retried answers within the budget: the loop is back at the same
    offset, [m] failures counted, after the pauses of the policy. *)
Lemma batch_loop_retried (batch_data : list pydict) (offset : Z) (m : nat) :
  ∀ (retry_count : Z) (n fuel : nat),
    (∀ i, (i < m)%nat → retried (http (n + i) offset) = true) →
    (m = 0%nat ∨ retry_count + Z.of_nat m < max_retries) →
    batch_loop (m + fuel) http limit max_retries batch_data offset retry_count n
    = pnl_then (retried_requests http offset retry_count n m)
        (batch_loop fuel http limit max_retries batch_data offset
           (retry_count + Z.of_nat m) (n + m)).
Proof.
  induction m as [|m IH]; intros rc n fuel Hretried Hbudget.
  { rewrite Z.add_0_r, Nat.add_0_r. simpl. by destruct (batch_loop _ _ _ _ _ _ _ _) as [[]|]. }
  destruct Hbudget as [?|Hbudget]; [done|].
  assert (retried (http n offset) = true) as H0.
  { rewrite <- (Nat.add_0_r n). apply Hretried. lia. }
  assert (batch_loop (m + fuel) http limit max_retries batch_data offset (rc + 1) (S n)
          = pnl_then (retried_requests http offset (rc + 1) (S n) m)
              (batch_loop fuel http limit max_retries batch_data offset
                 (rc + Z.of_nat (S m)) (n + S m))) as Hnext.
  { rewrite IH.
    - do 2 f_equal; lia.
    - intros i Hi. replace (S n + i)%nat with (n + S i)%nat by lia. apply Hretried. lia.
    - destruct m; [by left|right; lia]. }
  change (S m + fuel)%nat with (S (m + fuel)).
  cbn [batch_loop retried_requests]. unfold retried, retry_pause in *.
  destruct (http n offset) as [status body|].
  - apply andb_true_iff in H0 as [H200 Hfatal].
    apply negb_true_iff in H200, Hfatal. rewrite H200.
    destruct (bool_decide (status = 429)) eqn:H429.
    + rewrite (bool_decide_false (max_retries ≤ rc + 1)) by lia.
      rewrite Hnext, pnl_then_app. done.
    + rewrite Hfatal.
      rewrite (bool_decide_false (max_retries ≤ rc + 1)) by lia.
      rewrite Hnext, pnl_then_app. done.
  - rewrite (bool_decide_false (max_retries ≤ rc + 1)) by lia.
    rewrite Hnext, pnl_then_app. done.
Qed.

(** C8 (amended). For a positive [limit] and whatever the server answers,
    the loop of [_fetch_batch_pnl] ends within
    [batch_fuel limit max_retries] requests, every one of them for an offset
    below 10000; when the server sends at most [limit] records per page the
    batch holds at most [⌈10000 / limit⌉ * limit] records, which is 10000
    for the default limit of 25.  On every page (the loop at any offset,
    with the failure counter at 0), as long as the answers are retried ones
    (429, a status that is neither 200 nor fatal, an exception) and fewer
    than [max_retries] have come, the loop sleeps and asks again for the
    same offset: [min(2 * 2^retry, 60)] seconds after a 429,
    [min(2 * 2^(retry + 1), 60)] after another status, 2 seconds after an
    exception.  Then
    - a status in [400, 401, 403, 404] ends the batch at once, without a
      pause;
    - the retried answer that brings the failures to [max_retries] ends the
      batch, after a last sleep when it is a 429;
    - a 200 without a non-empty list, a page shorter than [limit], or a full
      page that brings the offset to 10000 or more ends the batch;
    - any other full page moves the offset by [limit] and the loop goes on
      after 0.1 seconds with the failure counter back at 0. *)
Theorem batch_fetch_ends_capped :
  (∃ data tr,
     _fetch_batch_pnl (batch_fuel limit max_retries) http limit max_retries
     = Some (data, tr)
     ∧ Forall (λ o, o < 10000) (queried tr)
     ∧ (length (queried tr) ≤ batch_fuel limit max_retries)%nat
     ∧ (honest → Z.of_nat (length data) ≤ (10000 + limit - 1) / limit * limit)
     ∧ (honest → limit = 25 → Z.of_nat (length data) ≤ 10000))
  ∧ ∀ (batch_data : list pydict) (offset : Z) (n m fuel : nat),
      (∀ i, (i < m)%nat → retried (http (n + i) offset) = true) →
      (m = 0%nat ∨ Z.of_nat m < max_retries) →
      let inside := retried_requests http offset 0 n m in
      let run := batch_loop (m + S fuel) http limit max_retries batch_data offset 0 n in
      (∀ status_code body,
         http (n + m)%nat offset = PnlResp status_code body →
         status_code ∈ fatal_errors →
         run = Some (batch_data, inside ++ [Query offset]))
      ∧ (retried (http (n + m)%nat offset) = true →
         max_retries ≤ Z.of_nat m + 1 →
         run = Some (batch_data,
                     inside ++ giving_up (http (n + m)%nat offset) offset (Z.of_nat m)))
      ∧ (∀ body,
           http (n + m)%nat offset = PnlResp 200 body →
           (∀ record records, body ≠ PnlList (record :: records)) →
           run = Some (batch_data, inside ++ [Query offset]))
      ∧ (∀ record records,
           http (n + m)%nat offset = PnlResp 200 (PnlList (record :: records)) →
           let data := record :: records in
           (Z.of_nat (length data) < limit ∨ 10000 ≤ offset + limit →
            run = Some (batch_data ++ data, inside ++ [Query offset]))
           ∧ (limit ≤ Z.of_nat (length data) → offset + limit < 10000 →
              run = pnl_then (inside ++ [Query offset; Pause 0.1%Q])
                      (batch_loop fuel http limit max_retries (batch_data ++ data)
                         (offset + limit) 0 (S (n + m))))).
Proof.
  split.
  { destruct fetch_batch_pnl_total as [[data tr] E].
    exists data, tr. split; [exact E|]. unfold _fetch_batch_pnl in E.
    assert (0 < 10000) as H0 by lia.
    destruct (batch_loop_queries _ _ _ _ _ _ _ H0 E) as [Hq Hn].
    split; [exact Hq|]. split; [exact Hn|].
    assert (honest → Z.of_nat (length data) ≤ (10000 + limit - 1) / limit * limit) as Hcap.
    { intros Hh. eapply (batch_loop_records _ Hh [] 0); [lia|lia|simpl; lia|exact E]. }
    split; [exact Hcap|].
    intros Hh ->. specialize (Hcap Hh). vm_compute in Hcap. exact Hcap. }
  intros batch_data offset n m fuel Hretried Hbudget inside run.
  assert (run = pnl_then inside
                  (batch_loop (S fuel) http limit max_retries batch_data offset
                     (Z.of_nat m) (n + m))) as ->.
  { unfold run. rewrite (batch_loop_retried batch_data offset m 0 n (S fuel)); [done|done|].
    destruct Hbudget; [by left|right; lia]. }
  cbn [batch_loop]. split; [|split; [|split]].
  - intros status body -> Hfatal.
    assert (status ≠ 200 ∧ status ≠ 429) as [H200 H429].
    { revert Hfatal. unfold fatal_errors. rewrite !elem_of_cons, elem_of_nil. lia. }
    rewrite (bool_decide_false (status = 200)), (bool_decide_false (status = 429)) by done.
    by rewrite (bool_decide_true (status ∈ fatal_errors)) by done.
  - intros Hlast Hspent. unfold retried, giving_up in *.
    destruct (http (n + m)%nat offset) as [status body|].
    + apply andb_true_iff in Hlast as [H200 Hfatal].
      apply negb_true_iff in H200, Hfatal. rewrite H200.
      destruct (bool_decide (status = 429)).
      * by rewrite (bool_decide_true (max_retries ≤ Z.of_nat m + 1)) by done.
      * rewrite Hfatal. by rewrite (bool_decide_true (max_retries ≤ Z.of_nat m + 1)) by done.
    + by rewrite (bool_decide_true (max_retries ≤ Z.of_nat m + 1)) by done.
  - intros body -> Hbody. rewrite (bool_decide_true (200 = 200)) by done.
    destruct body as [[|record records]|]; [done| |done]. by destruct (Hbody record records).
  - intros record records ->. rewrite (bool_decide_true (200 = 200)) by done.
    set (data := record :: records). split.
    + intros [Hshort|Hcap].
      * by rewrite (bool_decide_true (Z.of_nat (length data) < limit)) by done.
      * destruct (bool_decide (Z.of_nat (length data) < limit)); [done|].
        by rewrite (bool_decide_true (10000 ≤ offset + limit)) by done.
    + intros Hfull Hbelow.
      rewrite (bool_decide_false (Z.of_nat (length data) < limit)) by lia.
      rewrite (bool_decide_false (10000 ≤ offset + limit)) by lia.
      by rewrite pnl_then_app.
Qed.

End Batch.

Lemma batch_loop_limit_zero (fuel : nat) :
  ∀ (batch_data : list pydict) (n : nat),
    batch_loop fuel always_one_record 0 5 batch_data 0 0 n = None.
Proof.
  induction fuel as [|fuel IH]; intros batch_data n; [done|].
  cbn [batch_loop]. unfold always_one_record at 1.
  rewrite (bool_decide_true (200 = 200)) by done.
  rewrite (bool_decide_false (Z.of_nat (length [(∅ : pydict)]) < 0)) by (simpl; lia).
  rewrite (bool_decide_false (10000 ≤ 0 + 0)) by lia.
  change (0 + 0) with 0. by rewrite IH.
Qed.

(** C8, as stated, fails three times.  The loop bounds the offset, not the
    number of records: a single page of 10001 records is kept whole.  It
    does not end for every [limit]: with [limit = 0] the offset never
    advances, and a server that always sends a record keeps it going.  And
    an exception is not retried with a growing delay: the pause is 2
    seconds each time. *)
Lemma batch_not_capped_by_records :
  ¬ (∀ (http : nat → Z → pnl_response) (fuel : nat)
       (data : list pydict) (tr : list pnl_event),
        _fetch_batch_pnl fuel http 25 5 = Some (data, tr) →
        Z.of_nat (length data) ≤ 10000)
  ∧ (∀ fuel, _fetch_batch_pnl fuel always_one_record 0 5 = None)
  ∧ _fetch_batch_pnl (batch_fuel 25 5) always_raising 25 5
    = Some ([], [Query 0; Pause 2; Query 0; Pause 2; Query 0; Pause 2;
                 Query 0; Pause 2; Query 0]).
Proof.
  split; [|split].
  - intros H.
    specialize (H oversized_page 2%nat ([] ++ ∅ :: replicate (Z.to_nat 10000) ∅)
                  ([Query 0; Pause 0.1%Q] ++ [Query (0 + 25)])).
    rewrite length_app, length_cons, length_replicate in H.
    assert (Z.of_nat (length (@nil pydict) + S (Z.to_nat 10000)) ≤ 10000) as Hbad.
    { apply H. unfold _fetch_batch_pnl, oversized_page. cbn [batch_loop].
      rewrite (bool_decide_true (200 = 200)) by done.
      rewrite bool_decide_false by (rewrite length_cons, length_replicate; lia).
      rewrite bool_decide_false by lia.
      reflexivity. }
    cbn [length] in Hbad. lia.
  - intros fuel. apply batch_loop_limit_zero.
  - vm_compute. reflexivity.
Qed.

(** [batch_fetch_ends_capped] with the defaults on a transport that answers
    429, 500, raises and then answers 404: pauses of 2, 8 and 2 seconds,
    and the batch ends on the 404 without a further pause. *)
Lemma batch_fetch_ends_capped_witness :
  _fetch_batch_pnl 4 flaky_then_404 25 5
  = Some ([], [Query 0; Pause (inject_Z 2); Query 0; Pause (inject_Z 8);
               Query 0; Pause 2; Query 0]).
Proof.
  assert (0 < 25) as Hl by lia.
  destruct (batch_fetch_ends_capped flaky_then_404 25 5 Hl) as [_ Hpolicy].
  assert (∀ i, (i < 3)%nat → retried (flaky_then_404 (0 + i) 0) = true) as Hretried.
  { intros [|[|[|i]]] Hi; try lia; reflexivity. }
  assert (3%nat = 0%nat ∨ Z.of_nat 3 < 5) as Hbudget by (right; lia).
  assert (404 ∈ fatal_errors) as Hin.
  { unfold fatal_errors. rewrite !elem_of_cons. tauto. }
  exact (proj1 (Hpolicy [] 0 0%nat 3%nat 0%nat Hretried Hbudget) 404 PnlOther eq_refl Hin).
Defined.

End BatchFacts.

(** ** Backfill of the ids a batch left out *)
Module BackfillFacts.
Import Subgraph BatchFacts Markets Positions.
Local Open Scope Z_scope.

(** The single-id loop ends when the rate limiting lifts: every page takes
    at most [bound + 1] requests and there are at most twenty pages. *)
Lemma missing_loop_total (http : nat → Z → pnl_response) (bound : nat) :
  rate_limit_lifts bound http →
  ∀ (pages : nat) (condition_data : list pydict) (offset : Z) (n fuel : nat),
    offset < 10000 → 10000 - offset ≤ 500 * Z.of_nat pages →
    (pages * (bound + 1) ≤ fuel)%nat →
    is_Some (missing_loop fuel http condition_data offset n).
Proof.
  intros Hlifts. induction pages as [|pages IH]; intros data offset n fuel Hoff Hpages Hfuel;
    [lia|].
  destruct (Hlifts n offset) as (k & Hk & Hfree).
  assert (k + 1 + pages * (bound + 1) ≤ fuel)%nat as Hfuel' by lia.
  clear Hk Hfuel. revert n data fuel Hfree Hfuel'.
  induction k as [|k IHk]; intros n data fuel Hfree Hfuel;
    (destruct fuel as [|fuel]; [lia|]); cbn [missing_loop];
    destruct (http n offset) as [status body|] eqn:Hresp; try by eauto.
  - case_bool_decide as H200.
    { destruct body as [[|d ds]|]; [eauto| |eauto].
      case_bool_decide; [eauto|]. case_bool_decide; [eauto|]. apply IH; lia. }
    case_bool_decide as H429; [|eauto].
    subst status. rewrite Nat.add_0_r in Hfree. by destruct (Hfree body).
  - case_bool_decide as H200.
    { destruct body as [[|d ds]|]; [eauto| |eauto].
      case_bool_decide; [eauto|]. case_bool_decide; [eauto|]. apply IH; lia. }
    case_bool_decide as H429; [|eauto].
    apply IHk; [|lia].
    intros body'. replace (S n + k)%nat with (n + S k)%nat by lia. apply Hfree.
Qed.

Lemma fetch_missing_total (http_single : string → nat → Z → pnl_response)
    (bound : nat) (missing_list : list string) :
  (∀ condition_id, rate_limit_lifts bound (http_single condition_id)) →
  is_Some (fetch_missing (20 * (bound + 1)) http_single missing_list).
Proof.
  intros Hlifts. unfold fetch_missing.
  destruct (mapM_is_Some_2 (fetch_single (20 * (bound + 1)) http_single) missing_list)
    as [rows ->].
  - apply Forall_forall. intros id _. simpl. unfold fetch_single.
    apply (missing_loop_total _ bound (Hlifts id) 20); lia.
  - simpl. eauto.
Qed.

Lemma fetch_from_rest_total (http : nat → nat → Z → pnl_response)
    (completion_order : list (list pydict) → list (list pydict))
    (condition_ids : list string) :
  is_Some (fetch_from_rest http completion_order condition_ids).
Proof.
  unfold fetch_from_rest.
  destruct (mapM_is_Some_2
              (λ i, fst <$> _fetch_batch_pnl (batch_fuel 25 5) (http i) 25 5)
              (seq 0 (length (batches 50 condition_ids)))) as [rows ->].
  - apply Forall_forall. intros i _. simpl.
    assert (0 < 25) as Hl by lia.
    destruct (fetch_batch_pnl_total (http i) 25 5 Hl) as [res ->]. simpl. eauto.
  - simpl. eauto.
Qed.

(** The rows the single-id fetch of a listed id collects are among the rows
    [fetch_missing] returns. *)
Lemma fetch_missing_rows (fuel : nat) (http_single : string → nat → Z → pnl_response)
    (missing_list : list string) (missing_df : list pydict) (condition_id : string) :
  fetch_missing fuel http_single missing_list = Some missing_df →
  condition_id ∈ missing_list →
  ∃ rows, fetch_single fuel http_single condition_id = Some rows
          ∧ ∀ r, r ∈ rows → r ∈ missing_df.
Proof.
  unfold fetch_missing. intros H Hin.
  destruct (mapM (fetch_single fuel http_single) missing_list) as [additional|] eqn:E;
    [|done].
  simpl in H. injection H as <-.
  apply mapM_Some_1 in E.
  apply list_elem_of_lookup in Hin as [i Hi].
  destruct (Forall2_lookup_l _ _ _ _ _ E Hi) as (rows & Hrows & Hsingle).
  exists rows. split; [exact Hsingle|].
  intros r Hr. apply list_elem_of_In, in_concat. exists rows.
  split; apply list_elem_of_In; [|done]. by eapply list_elem_of_lookup_2.
Qed.

Lemma fetch_missing_nothing (fuel : nat) (http_single : string → nat → Z → pnl_response)
    (missing_list : list string) (missing_df : list pydict) :
  fetch_missing fuel http_single missing_list = Some missing_df →
  (∀ condition_id, condition_id ∈ missing_list →
                   fetch_single fuel http_single condition_id = Some []) →
  missing_df = [].
Proof.
  unfold fetch_missing. intros H Hnone.
  destruct (mapM (fetch_single fuel http_single) missing_list) as [additional|] eqn:E;
    [|done].
  simpl in H. injection H as <-.
  apply mapM_Some_1 in E.
  induction E as [|id rows l k Hid _ IH]; [done|].
  simpl. rewrite IH.
  - rewrite (Hnone id) in Hid by apply list_elem_of_here. by injection Hid as <-.
  - intros id' Hin. apply Hnone. by apply list_elem_of_further.
Qed.

Lemma df_empty_all_empty (rows : list pydict) (r : pydict) :
  df_empty rows = true → r ∈ rows → r = ∅.
Proof.
  unfold df_empty. intros H Hin.
  apply Is_true_true, forallb_True in H.
  eapply Forall_forall in H; [|exact Hin]. by apply bool_decide_unpack in H.
Qed.

(** When the market lookup returns a frame, its rows are those of the frame
    it was given, in order. *)
Lemma market_data_of_frame_rows (transport : nat → response) (df : list pydict)
    (frame : list (pydict * option market_info)) :
  market_data_of_frame transport df = Frame frame → frame.*1 = df.
Proof.
  unfold market_data_of_frame. destruct (negb _); [done|].
  destruct (mapM slug_cell df) as [column|] eqn:Ecol; [|done].
  destruct (_fetch_market_data transport column 100) as [merged|] eqn:E; [|done].
  intros [= <-]. apply fst_zip.
  apply length_mapM in Ecol.
  unfold _fetch_market_data in E.
  destruct (slug_batches 100 _) as [todo|]; [|done]. simpl in E.
  destruct (batch_loop _ _ _ _ _) as [all|]; [|done]. simpl in E.
  injection E as <-. unfold merge. rewrite !length_fmap. lia.
Qed.




End BackfillFacts.

(** ** Gated market fetcher: further properties *)
Module MarketFetchFacts.
Import FetchClv FetchClvFacts MarketFetch.
Local Open Scope Z_scope.

Lemma rate_limit_delay_range (retry : Z) :
  1 ≤ retry → 12 ≤ rate_limit_delay retry ≤ 30.
Proof.
  intros Hr. unfold rate_limit_delay.
  assert (2 ^ 1 ≤ 2 ^ retry) by (apply Z.pow_le_mono_r; lia).
  change (2 ^ 1) with 2 in *. lia.
Qed.

Lemma rate_limit_delay_mono (r1 r2 : Z) :
  0 ≤ r1 ≤ r2 → rate_limit_delay r1 ≤ rate_limit_delay r2.
Proof.
  intros Hr. unfold rate_limit_delay.
  assert (2 ^ r1 ≤ 2 ^ r2) by (apply Z.pow_le_mono_r; lia). lia.
Qed.

Lemma inject_Z_short_sleep (z : Z) : 5 ≤ z ≤ 30 → short_sleep (Sleep (inject_Z z)).
Proof.
  intros [H5 H30]. simpl. split.
  - change 5%Q with (inject_Z 5). by rewrite <- Zle_Qle.
  - change 30%Q with (inject_Z 30). by rewrite <- Zle_Qle.
Qed.

Lemma page_loop_budget (fuel : nat) (http : nat → response) (max_retries c : Z) (n : nat)
    (out : outcome) (tr : list event) :
  0 ≤ c →
  page_loop fuel http max_retries c n = Some (out, tr) →
  (requests_made tr ≤ Z.to_nat (max_retries + 1 - c))%nat ∧ Forall short_sleep tr.
Proof.
  revert c n out tr. induction fuel as [|fuel IH]; intros c n out tr Hc H; [done|].
  simpl in H.
  assert (∀ d c', c' = c + 1 → c' ≤ max_retries → short_sleep (Sleep d) →
            then_ [RequestStart; RequestEnd; Sleep d]
              (page_loop fuel http max_retries c' (S n)) = Some (out, tr) →
            (requests_made tr ≤ Z.to_nat (max_retries + 1 - c))%nat
            ∧ Forall short_sleep tr) as Hnext.
  { intros d c' -> Hle Hd Hk.
    destruct (page_loop fuel http max_retries (c + 1) (S n)) as [[o tr']|] eqn:E; [|done].
    simpl in Hk. injection Hk as <- <-.
    destruct (IH (c + 1) (S n) o tr') as [Hn Hs]; [lia|done|].
    split.
    - unfold requests_made in *. simpl. lia.
    - repeat (constructor; [done|]). done. }
  assert (c ≤ max_retries →
          (requests_made request ≤ Z.to_nat (max_retries + 1 - c))%nat
          ∧ Forall short_sleep request) as Hone.
  { intros Hle. split; [unfold requests_made; simpl; lia|].
    by repeat constructor. }
  destruct (bool_decide (c ≤ max_retries)) eqn:Hle.
  2:{ injection H as <- <-. split; [unfold requests_made; simpl; lia|constructor]. }
  apply bool_decide_eq_true in Hle.
  destruct (http n) as [status body| |].
  - destruct (bool_decide (status = 200)).
    { destruct (trades_of_body body); injection H as <- <-; by apply Hone. }
    destruct (_ || _); [|injection H as <- <-; by apply Hone].
    destruct (bool_decide (c + 1 > max_retries)) eqn:Hgt;
      [injection H as <- <-; by apply Hone|].
    apply bool_decide_eq_false in Hgt.
    eapply Hnext; [reflexivity|lia| |exact H].
    apply inject_Z_short_sleep.
    pose proof (rate_limit_delay_range (c + 1)). lia.
  - destruct (bool_decide (c + 1 > max_retries)) eqn:Hgt;
      [injection H as <- <-; by apply Hone|].
    apply bool_decide_eq_false in Hgt.
    eapply Hnext; [reflexivity|lia| |exact H].
    simpl. split; by vm_compute.
  - injection H as <- <-. by apply Hone.
Qed.

(** X1. Whatever the server answers, one page call ends, after at most
    [max_retries + 1] requests (none when [max_retries] is negative), and
    every sleep it takes while holding the gate lasts between 5 and 30
    seconds. *)
Theorem page_call_budget (http : nat → response) (max_retries : Z) :
  ∃ out tr,
    fetch_trades_for_single_market_page http max_retries = Some (out, tr)
    ∧ (requests_made tr ≤ Z.to_nat (max_retries + 1))%nat
    ∧ Forall short_sleep tr.
Proof.
  unfold fetch_trades_for_single_market_page.
  destruct (page_loop_total (page_fuel max_retries) http max_retries 0 0)
    as [[out tr] E]; [unfold page_fuel; lia|].
  rewrite E. exists out, ([Acquire] ++ tr ++ [Release]). split; [done|].
  destruct (page_loop_budget _ _ _ _ _ _ _ (Z.le_refl 0) E) as [Hn Hs].
  rewrite Z.sub_0_r in Hn. split.
  - unfold requests_made in *. simpl. rewrite List.filter_app, length_app. simpl. lia.
  - constructor; [done|]. apply Forall_app. split; [done|]. by repeat constructor.
Qed.

(** X2. The delay after a 429 or 408, [min(10 + 2^retry, 30)] with [retry]
    the number of the retry (1 for the first), lies between 12 and 30
    seconds, never decreases from one retry to the next and is 30 from the
    fifth retry on. *)
Theorem rate_limit_delay_profile (retry : Z) :
  1 ≤ retry →
  12 ≤ rate_limit_delay retry ≤ 30
  ∧ rate_limit_delay retry ≤ rate_limit_delay (retry + 1)
  ∧ (5 ≤ retry → rate_limit_delay retry = 30).
Proof.
  intros Hr. split; [by apply rate_limit_delay_range|].
  split; [apply rate_limit_delay_mono; lia|].
  intros H5. unfold rate_limit_delay.
  assert (2 ^ 5 ≤ 2 ^ retry) by (apply Z.pow_le_mono_r; lia).
  change (2 ^ 5) with 32 in *. lia.
Qed.

(** [rate_limit_delay_profile] at the third retry: 18 seconds. *)
Lemma rate_limit_delay_profile_witness :
  rate_limit_delay 3 = 18 ∧ 12 ≤ rate_limit_delay 3 ≤ 30.
Proof.
  assert (1 ≤ 3) as H by lia.
  split; [reflexivity|]. exact (proj1 (rate_limit_delay_profile 3 H)).
Defined.

Section Market.

Variable http : nat → nat → response.
Variables limit max_retries : Z.

Local Abbreviation page_call := (MarketFetch.page_call http max_retries).
Local Abbreviation page_trades := (MarketFetch.page_trades http max_retries).
Local Abbreviation full_page := (MarketFetch.full_page http limit max_retries).
Local Abbreviation market_end := (MarketFetch.market_end http max_retries).

Lemma market_loop_run (m : nat) :
  ∀ (fuel j : nat) (all_trades : list pydict) (offset : Z),
    (m < fuel)%nat →
    (∀ k, (j ≤ k < j + m)%nat → full_page k) →
    ¬ full_page (j + m) →
    (market_loop fuel http limit max_retries all_trades offset j).1
    = market_end (all_trades ++ concat (page_trades <$> seq j m)) (j + m).
Proof.
  induction m as [|m IH]; intros fuel j all offset Hfuel Hfull Hstop;
    (destruct fuel as [|fuel]; [lia|]); cbn [market_loop].
  - rewrite Nat.add_0_r in *. simpl. rewrite app_nil_r.
    unfold MarketFetch.market_end, MarketFetch.page_call.
    destruct (fetch_trades_for_single_market_page (http j) max_retries)
      as [[[trades success|] tr]|] eqn:E; [|done|done].
    destruct success; simpl; [|done].
    case_bool_decide as Hnil; [by rewrite Hnil, app_nil_r|].
    case_bool_decide as Hshort; [done|].
    exfalso. apply Hstop. exists trades, tr. done.
  - destruct (Hfull j) as (trades & tr & E & Hne & Hlong); [lia|].
    unfold MarketFetch.page_call in E. rewrite E. simpl.
    rewrite bool_decide_false by done. rewrite bool_decide_false by done.
    specialize (IH fuel (S j) (all ++ trades) (offset + limit)).
    destruct (market_loop fuel http limit max_retries (all ++ trades)
                (offset + limit) (S j)) as [out tr'].
    simpl in *. rewrite IH.
    + unfold MarketFetch.page_trades at 2, MarketFetch.page_call. rewrite E.
      replace (j + S m)%nat with (S (j + m)) by lia.
      by rewrite <- app_assoc.
    + lia.
    + intros k Hk. apply Hfull. lia.
    + by replace (S (j + m)) with (j + S m)%nat by lia.
Qed.

(** X3. [fetch_trades_for_market_complete] asks for page after page as long
    as each call succeeds with at least [limit] trades.  The first page that
    does not ends it: a failed call returns the trades of the earlier pages
    with success [False]; a successful call, empty or short, returns them
    with its own trades added and success [True]; an exception leaves the
    function. *)
Theorem market_fetch_pages (m fuel : nat) :
  (∀ k, (k < m)%nat → full_page k) →
  ¬ full_page m →
  (m < fuel)%nat →
  (fetch_trades_for_market_complete fuel http limit max_retries).1
  = market_end (concat (page_trades <$> seq 0 m)) m
  ∧ is_Some (market_end (concat (page_trades <$> seq 0 m)) m).
Proof.
  intros Hfull Hstop Hfuel. split.
  - unfold fetch_trades_for_market_complete.
    rewrite (market_loop_run m); [done|done| |done].
    intros k Hk. apply Hfull. lia.
  - unfold MarketFetch.market_end, MarketFetch.page_call,
      fetch_trades_for_single_market_page.
    destruct (page_loop_total (page_fuel max_retries) (http m) max_retries 0 0)
      as [[out tr] ->]; [unfold page_fuel; lia|].
    destruct out as [trades [|]|]; eauto.
Qed.

End Market.

(** [market_fetch_pages] on a market whose first page is full (one trade for
    a limit of one) and whose second page answers 500: the trade is returned
    with success [False]. *)
Lemma market_fetch_pages_witness :
  (fetch_trades_for_market_complete 2 one_then_500 1 3).1
  = Some (Return [ {["price" := VNum 1]} ] false).
Proof.
  assert (∀ k, (k < 1)%nat → full_page one_then_500 1 3 k) as Hfull.
  { intros [|k] Hk; [|lia]. eexists _, _. split; [reflexivity|]. split; [done|].
    simpl. lia. }
  assert (¬ full_page one_then_500 1 3 1) as Hstop.
  { intros (trades & tr & E & _). vm_compute in E. discriminate. }
  assert (1 < 2)%nat as Hfuel by lia.
  exact (proj1 (market_fetch_pages one_then_500 1 3 1 2 Hfull Hstop Hfuel)).
Defined.

End MarketFetchFacts.

(** ** The two passes: what the caller can rely on *)
Module OrchestrationMoreFacts.
Import FetchClv OrchestrationFacts.

Lemma listfilter_elem_of {A : Type} (f : A → bool) (l : list A) (x : A) :
  x ∈ List.filter f l ↔ x ∈ l ∧ f x = true.
Proof. rewrite !list_elem_of_In. apply filter_In. Qed.

Lemma listfilter_NoDup {A : Type} (f : A → bool) (l : list A) :
  NoDup l → NoDup (List.filter f l).
Proof.
  induction 1 as [|x l Hx _ IH]; simpl; [constructor|].
  destruct (f x); [|done]. constructor; [|done].
  rewrite listfilter_elem_of. tauto.
Qed.

Lemma unique_elem_of (l : list string) (x : string) : x ∈ unique l ↔ x ∈ l.
Proof.
  induction l as [|y l IH]; simpl; [done|].
  rewrite !elem_of_cons, listfilter_elem_of, IH, negb_true_iff, bool_decide_eq_false.
  destruct (decide (x = y)); tauto.
Qed.

Lemma unique_NoDup (l : list string) : NoDup (unique l).
Proof.
  induction l as [|y l IH]; simpl; constructor.
  - rewrite listfilter_elem_of, negb_true_iff, bool_decide_eq_false. tauto.
  - by apply listfilter_NoDup.
Qed.

Lemma condition_ids_of_elem_of (column : list (option string)) (m : string) :
  m ∈ condition_ids_of column ↔ Some m ∈ column.
Proof.
  unfold condition_ids_of. rewrite unique_elem_of, list_elem_of_omap.
  split.
  - intros ([x|] & Hin & Hx); simpl in Hx; [|done]. by injection Hx as ->.
  - intros Hin. by exists (Some m).
Qed.

Section TwoPhase.

Variable fetch_market : nat → string → market_result.
Variable completion_order : nat → list string → list string.
Hypothesis completion_order_perm : ∀ pass l, completion_order pass l ≡ₚ l.

Local Abbreviation fails := (FetchClv.fails fetch_market).
Local Abbreviation contribution := (FetchClv.contribution fetch_market).

Lemma contribution_elem_of (pass : nat) (m : string) (row : pydict) :
  row ∈ contribution pass m →
  row !! "market_id_v3" = Some (VStr m) ∧ fails pass m = false.
Proof.
  unfold FetchClv.contribution, FetchClv.fails.
  destruct (fetch_market pass m) as [trades [|]|]; try (intros H; by apply elem_of_nil in H).
  intros H. apply list_elem_of_fmap in H as (t & -> & _).
  split; [|done]. unfold tag. apply lookup_insert_eq.
Qed.

(** The two passes written out. *)
Lemma two_phase_eq (column : list (option string)) :
  let ids := condition_ids_of column in
  let failed := filter (λ m, fails 0 m = true) (completion_order 0 ids) in
  two_phase fetch_market completion_order column
  = ((completion_order 0 ids ≫= contribution 0)
     ++ (completion_order 1 failed ≫= contribution 1),
     filter (λ m, fails 1 m = true) (completion_order 1 failed))
  ∨ failed = []
    ∧ two_phase fetch_market completion_order column
      = (completion_order 0 ids ≫= contribution 0, []).
Proof.
  intros ids failed. unfold two_phase. fold ids.
  rewrite run_loop_eq. fold failed.
  destruct failed as [|f failed'] eqn:E; [by right|].
  left. by rewrite run_loop_eq.
Qed.

(** X4. Every row [fetch_all_trades_parallel] returns carries under
    [market_id_v3] a condition id of the input column, and that market
    succeeded in the first pass or failed it and succeeded in the second; no
    row comes from a market that failed both. *)
Theorem returned_rows_are_tagged (column : list (option string)) (row : pydict) :
  row ∈ returned (fetch_all_trades_parallel fetch_market completion_order column) →
  ∃ m, Some m ∈ column
       ∧ row !! "market_id_v3" = Some (VStr m)
       ∧ (fails 0 m = false ∨ fails 0 m = true ∧ fails 1 m = false).
Proof.
  unfold fetch_all_trades_parallel.
  destruct (two_phase fetch_market completion_order column) as [all final] eqn:E.
  simpl. intros Hrow.
  assert (∀ m, m ∈ completion_order 0 (condition_ids_of column) → Some m ∈ column) as Hids.
  { intros m Hm. rewrite completion_order_perm in Hm. by apply condition_ids_of_elem_of. }
  assert (∀ m, row ∈ contribution 0 m →
               m ∈ completion_order 0 (condition_ids_of column) →
               ∃ m, Some m ∈ column ∧ row !! "market_id_v3" = Some (VStr m)
                    ∧ (fails 0 m = false ∨ fails 0 m = true ∧ fails 1 m = false)) as H0.
  { intros m Hc Hm. destruct (contribution_elem_of 0 m row Hc) as [Htag Hok].
    exists m. split; [by apply Hids|]. split; [done|by left]. }
  destruct (two_phase_eq column) as [Heq|[_ Heq]]; rewrite Heq in E;
    injection E as <- <-.
  - apply elem_of_app in Hrow as [Hrow|Hrow];
      apply list_elem_of_bind in Hrow as (m & Hc & Hm); [by eapply H0|].
    rewrite completion_order_perm in Hm.
    apply list_elem_of_filter in Hm as [Hf0 Hm].
    destruct (contribution_elem_of 1 m row Hc) as [Htag Hok].
    exists m. split; [by apply Hids|]. split; [done|by right].
  - apply list_elem_of_bind in Hrow as (m & Hc & Hm). by eapply H0.
Qed.

(** X5. The markets reported as permanently failed are exactly the
    condition ids of the column that fail both passes, each listed once. *)
Theorem final_failed_markets_exact (column : list (option string)) :
  let final := (two_phase fetch_market completion_order column).2 in
  NoDup final
  ∧ (∀ m, m ∈ final ↔ Some m ∈ column ∧ fails 0 m = true ∧ fails 1 m = true)
  ∧ length (printed_failed
              (fetch_all_trades_parallel fetch_market completion_order column))
    = length final.
Proof.
  cbv zeta.
  assert (length (printed_failed
                    (fetch_all_trades_parallel fetch_market completion_order column))
          = length (two_phase fetch_market completion_order column).2) as Hlen.
  { unfold fetch_all_trades_parallel.
    destruct (two_phase fetch_market completion_order column) as [all fin].
    simpl. by rewrite length_fmap. }
  assert (NoDup (filter (λ m, fails 0 m = true)
                   (completion_order 0 (condition_ids_of column)))) as Hnd0.
  { apply NoDup_filter. rewrite completion_order_perm. apply unique_NoDup. }
  assert (∀ m, m ∈ filter (λ m, fails 0 m = true)
                     (completion_order 0 (condition_ids_of column))
               ↔ Some m ∈ column ∧ fails 0 m = true) as Hin0.
  { intros m. rewrite list_elem_of_filter, completion_order_perm,
      condition_ids_of_elem_of. tauto. }
  rewrite Hlen.
  destruct (two_phase_eq column) as [Heq|[Hnone Heq]]; rewrite Heq; simpl.
  - split; [|split; [|done]].
    + apply NoDup_filter. by rewrite completion_order_perm.
    + intros m. rewrite list_elem_of_filter, completion_order_perm, Hin0. tauto.
  - split; [constructor|]. split; [|done].
    intros m. split; [intros H; by apply elem_of_nil in H|].
    intros (Hm & Hf0 & _). exfalso.
    assert (m ∈ @nil string) as Hbad; [|by apply elem_of_nil in Hbad].
    rewrite <- Hnone. by apply Hin0.
Qed.

End TwoPhase.

(** [returned_rows_are_tagged] on the three markets of the example: the row
    of "b" comes from the second pass. *)
Lemma returned_rows_are_tagged_witness :
  ∃ m, Some m ∈ [Some "a"; None; Some "b"; Some "c"; Some "a"]
       ∧ tag "b" {["price" := VNum 2]} !! "market_id_v3" = Some (VStr m)
       ∧ (fails example_fetch 0 m = false
          ∨ fails example_fetch 0 m = true ∧ fails example_fetch 1 m = false).
Proof.
  apply (returned_rows_are_tagged example_fetch in_submission_order
           (λ _ l, reflexivity l)).
  vm_compute. apply list_elem_of_further, list_elem_of_here.
Defined.

(** [final_failed_markets_exact] on the same example: "c" alone. *)
Lemma final_failed_markets_exact_witness :
  NoDup (two_phase example_fetch in_submission_order
           [Some "a"; None; Some "b"; Some "c"; Some "a"]).2.
Proof.
  exact (proj1 (final_failed_markets_exact example_fetch in_submission_order
                  (λ _ l, reflexivity l)
                  [Some "a"; None; Some "b"; Some "c"; Some "a"])).
Defined.

End OrchestrationMoreFacts.

(** ** Offset pager: whole runs *)
Module OffsetPagerRunsFacts.
Import OffsetPager OffsetPagerRuns.
Local Open Scope Z_scope.

Lemma exponential_delay_range (retry_count : Z) :
  0 ≤ retry_count → 2 ≤ exponential_delay retry_count ≤ 60.
Proof.
  intros Hr. unfold exponential_delay.
  assert (2 ^ 0 ≤ 2 ^ retry_count) by (apply Z.pow_le_mono_r; lia).
  change (2 ^ 0) with 1 in *. lia.
Qed.

Lemma process_id_or_1_pos (process_id : option Z) :
  (∀ p, process_id = Some p → 0 ≤ p) → 1 ≤ process_id_or_1 process_id.
Proof.
  intros Hp. unfold process_id_or_1. destruct process_id as [p|]; [|lia].
  specialize (Hp p eq_refl). case_bool_decide; lia.
Qed.

(** X6. On a 429 [page] sleeps [min(2 * 2^retry_count, 60)] seconds plus a
    jitter of 0.1 to 0.5 seconds per unit of the process id (which counts as
    1 when absent or 0): the exponential part lies between 2 and 60, never
    decreases with the retry count and is 60 from the fifth retry on, and
    the jitter keeps the sleep within 0.1 and 0.5 times the process id above
    it. *)
Theorem page_backoff_profile (u : Q) (process_id : option Z) (retry_count : Z) :
  0 ≤ retry_count →
  (0.1 <= u)%Q ∧ (u <= 0.5)%Q →
  (∀ p, process_id = Some p → 0 ≤ p) →
  2 ≤ exponential_delay retry_count ≤ 60
  ∧ exponential_delay retry_count ≤ exponential_delay (retry_count + 1)
  ∧ (5 ≤ retry_count → exponential_delay retry_count = 60)
  ∧ (inject_Z (exponential_delay retry_count)
     + 0.1 * inject_Z (process_id_or_1 process_id)
     <= total_delay u process_id retry_count)%Q
  ∧ (total_delay u process_id retry_count
     <= inject_Z (exponential_delay retry_count)
        + 0.5 * inject_Z (process_id_or_1 process_id))%Q.
Proof.
  intros Hr [Hu1 Hu2] Hp.
  split; [by apply exponential_delay_range|].
  split.
  { unfold exponential_delay.
    assert (2 ^ retry_count ≤ 2 ^ (retry_count + 1)) by (apply Z.pow_le_mono_r; lia).
    lia. }
  split.
  { intros H5. unfold exponential_delay.
    assert (2 ^ 5 ≤ 2 ^ retry_count) by (apply Z.pow_le_mono_r; lia).
    change (2 ^ 5) with 32 in *. lia. }
  pose proof (process_id_or_1_pos process_id Hp) as Hpos.
  assert (0 <= inject_Z (process_id_or_1 process_id))%Q as Hq.
  { change 0%Q with (inject_Z 0). rewrite <- Zle_Qle. lia. }
  unfold total_delay. split.
  - apply Qplus_le_r. by apply Qmult_le_compat_r.
  - apply Qplus_le_r. by apply Qmult_le_compat_r.
Qed.

(** [page_backoff_profile] for process 3 on its third retry with a draw of
    0.2: between 16.3 and 17.5 seconds. *)
Lemma page_backoff_profile_witness :
  Qle (inject_Z 16 + 0.1 * inject_Z 3)%Q (total_delay 0.2%Q (Some 3) 3)
  ∧ Qle (total_delay 0.2%Q (Some 3) 3) (inject_Z 16 + 0.5 * inject_Z 3)%Q.
Proof.
  assert (0 ≤ 3) as Hr by lia.
  assert ((0.1 <= 0.2)%Q ∧ (0.2 <= 0.5)%Q) as Hu by (split; by vm_compute).
  assert (∀ p, Some 3 = Some p → 0 ≤ p) as Hp by (intros p [= <-]; lia).
  exact (proj2 (proj2 (proj2 (page_backoff_profile 0.2%Q (Some 3) 3 Hr Hu Hp)))).
Defined.

Section WithRecords.

Context {A : Type}.
Implicit Types (all_data : list A) (http : nat → Z → Z → response A).

Lemma inner_loop_good (fuel : nat) http (bounded : bool) (end_offset max_limit : Z)
    all_data (current_offset : Z) (n : nat) (items : list A) :
  good_items (http n current_offset max_limit) = Some items →
  inner_loop (S fuel) http bounded end_offset max_limit all_data current_offset n 0
  = Some (Break (trim bounded end_offset (all_data ++ items)
                   (current_offset + Z.of_nat (length items))).1
                (trim bounded end_offset (all_data ++ items)
                   (current_offset + Z.of_nat (length items))).2
                (S n) 0 true)
  ∧ items ≠ [].
Proof.
  intros Hgood. cbn [inner_loop].
  rewrite (bool_decide_true (0 < max_retries)) by (unfold max_retries; lia).
  unfold good_items in Hgood.
  destruct (http n current_offset max_limit) as [status [[|x l]|b]|msg]; try done.
  case_bool_decide as H200; [|done]. injection Hgood as <-.
  unfold page. rewrite bool_decide_true by done. simpl.
  destruct (trim bounded end_offset (all_data ++ x :: l) _). done.
Qed.

Lemma inner_loop_stop (fuel : nat) http (bounded : bool) (end_offset max_limit : Z)
    all_data (current_offset : Z) (n : nat) :
  stops_worker (http n current_offset max_limit) = true →
  inner_loop (S fuel) http bounded end_offset max_limit all_data current_offset n 0
  = Some (ReturnData all_data).
Proof.
  intros Hstop. cbn [inner_loop].
  rewrite (bool_decide_true (0 < max_retries)) by (unfold max_retries; lia).
  unfold stops_worker in Hstop. unfold page.
  destruct (http n current_offset max_limit) as [status body|msg].
  - destruct (bool_decide (status = 200)); simpl.
    + apply negb_true_iff in Hstop. by rewrite Hstop.
    + apply negb_true_iff in Hstop. rewrite Hstop. done.
  - simpl. apply negb_true_iff, bool_decide_eq_false in Hstop.
    rewrite bool_decide_false; [done|]. intros [= ->]. done.
Qed.

Lemma outer_loop_clean_run (start_offset end_offset process_id num_processes : Z)
    http (m : nat) :
  ¬ process_id < num_processes →
  clean_run http start_offset m →
  ∀ (j k fuel : nat),
    (k + j = m)%nat → (j < fuel)%nat →
    outer_loop fuel http end_offset process_id num_processes
      (walk http start_offset k).1 (walk http start_offset k).2 500 k
    = Some (Done (walk http start_offset m).1).
Proof.
  intros Hpid [Hgood Hstop].
  induction j as [|j IH]; intros k fuel Hk Hfuel;
    (destruct fuel as [|fuel]; [lia|]); cbn [outer_loop];
    rewrite (bool_decide_false (process_id < num_processes)) by done;
    rewrite !andb_false_l; change (Z.to_nat max_retries) with 5%nat.
  - replace k with m by lia. by rewrite inner_loop_stop.
  - destruct (Hgood k) as [items Hitems]; [lia|].
    destruct (inner_loop_good 4 http false end_offset 500
                (walk http start_offset k).1 (walk http start_offset k).2 k items Hitems)
      as [-> _].
    unfold trim. rewrite andb_false_l. simpl.
    specialize (IH (S k) fuel). cbn [walk] in IH.
    destruct (walk http start_offset k) as [d off]. simpl in *.
    rewrite Hitems in IH. simpl in IH. apply IH; lia.
Qed.

Lemma trim_exact (start_offset end_offset : Z) all_data (current_offset : Z) :
  start_offset ≤ end_offset →
  Z.of_nat (length all_data) = current_offset - start_offset →
  Z.of_nat (length (trim true end_offset all_data current_offset).1)
  = (trim true end_offset all_data current_offset).2 - start_offset
  ∧ (trim true end_offset all_data current_offset).2 ≤ end_offset
  ∧ ((trim true end_offset all_data current_offset).2 = current_offset
     ∨ (trim true end_offset all_data current_offset).2 = end_offset).
Proof.
  intros Hse Hlen. unfold trim. simpl.
  case_bool_decide as Hover; simpl; [|split; [lia|split; [lia|by left]]].
  rewrite bool_decide_true by lia. rewrite bool_decide_true by lia. simpl.
  rewrite length_take. split; [lia|]. split; [lia|by right].
Qed.

Lemma outer_loop_exact (start_offset end_offset process_id num_processes : Z) http :
  process_id < num_processes →
  always_records http →
  ∀ (fuel : nat) all_data (current_offset max_limit : Z) (n : nat),
    Z.of_nat (length all_data) = current_offset - start_offset →
    current_offset ≤ end_offset →
    (Z.to_nat (end_offset - current_offset) < fuel)%nat →
    ∃ all_data',
      outer_loop fuel http end_offset process_id num_processes
        all_data current_offset max_limit n = Some (Done all_data')
      ∧ Z.of_nat (length all_data') = end_offset - start_offset.
Proof.
  intros Hpid Hrec.
  induction fuel as [|fuel IH]; intros d off ml n Hlen Hoff Hfuel; [lia|].
  cbn [outer_loop]. rewrite (bool_decide_true (process_id < num_processes)) by done.
  rewrite !andb_true_l.
  destruct (bool_decide (end_offset ≤ off)) eqn:Hend.
  { apply bool_decide_eq_true in Hend. exists d. split; [done|]. lia. }
  apply bool_decide_eq_false in Hend.
  rewrite bool_decide_false by lia. change (Z.to_nat max_retries) with 5%nat.
  destruct (Hrec n off (Z.min ml (end_offset - off))) as [items Hitems].
  destruct (inner_loop_good 4 http true end_offset (Z.min ml (end_offset - off))
              d off n items Hitems) as [-> Hne].
  destruct (trim_exact start_offset end_offset (d ++ items)
              (off + Z.of_nat (length items))) as (Hlen' & Hoff' & Hcase).
  { lia. }
  { rewrite length_app. lia. }
  assert (0 < Z.of_nat (length items)) as Hpos by (destruct items; [done|simpl; lia]).
  destruct (trim true end_offset (d ++ items) (off + Z.of_nat (length items)))
    as [d' off']. simpl in *.
  destruct (bool_decide (end_offset ≤ off')) eqn:Hend'.
  { apply bool_decide_eq_true in Hend'. exists d'. split; [done|]. lia. }
  apply bool_decide_eq_false in Hend'.
  apply IH; [done|done|]. destruct Hcase; lia.
Qed.

Lemma inner_loop_rate_limited (end_offset max_limit : Z) http (bounded : bool) all_data
    (current_offset : Z) :
  always_rate_limited http →
  ∀ (fuel : nat) (n : nat) (retry_count : Z),
    0 ≤ retry_count < max_retries →
    (Z.to_nat (max_retries - retry_count) ≤ fuel)%nat →
    inner_loop fuel http bounded end_offset max_limit all_data current_offset n retry_count
    = Some (Break all_data current_offset
              (n + Z.to_nat (max_retries - retry_count)) max_retries false).
Proof.
  intros Hall. induction fuel as [|fuel IH]; intros n rc Hrc Hfuel;
    [unfold max_retries in *; lia|].
  cbn [inner_loop]. rewrite bool_decide_true by lia.
  destruct (Hall n current_offset max_limit) as [body ->].
  unfold page. rewrite (bool_decide_false (429 = 200)) by lia.
  rewrite (bool_decide_true (429 = 429)) by done.
  simpl.
  destruct (bool_decide (max_retries ≤ rc + 1)) eqn:Hlast.
  - apply bool_decide_eq_true in Hlast.
    assert (rc + 1 = max_retries) as -> by lia.
    replace (n + Z.to_nat (max_retries - rc))%nat with (S n) by lia. done.
  - apply bool_decide_eq_false in Hlast.
    rewrite IH by (unfold max_retries in *; lia).
    replace (S n + Z.to_nat (max_retries - (rc + 1)))%nat
      with (n + Z.to_nat (max_retries - rc))%nat by lia.
    done.
Qed.

End WithRecords.

(** X7. A worker whose id is not below [num_processes] (the last worker, or
    the only one) asks for page after page, each at the offset the records
    received so far lead to, and returns all of them, untrimmed and in
    order, at the first answer that is an empty page, a status other than
    200 and 429, or an exception. *)
Theorem unbounded_worker_clean_run {A : Type}
    (http : nat → Z → Z → response A)
    (start_offset end_offset process_id num_processes : Z) (m fuel : nat) :
  ¬ process_id < num_processes →
  clean_run http start_offset m →
  (m < fuel)%nat →
  fetch_range fuel http start_offset end_offset process_id num_processes
  = Some (Done (walk http start_offset m).1)
  ∧ Z.of_nat (length (walk http start_offset m).1)
    = (walk http start_offset m).2 - start_offset.
Proof.
  intros Hpid Hrun Hfuel. split.
  - unfold fetch_range.
    apply (outer_loop_clean_run start_offset end_offset process_id num_processes
             http m Hpid Hrun m 0 fuel); lia.
  - clear. induction m as [|m IH]; simpl; [lia|].
    destruct (walk http start_offset m) as [d off]. simpl in *.
    destruct (good_items (http m off 500)) as [items|]; simpl; [|done].
    rewrite length_app. lia.
Qed.

(** [unbounded_worker_clean_run] on a server with 1200 records: the only
    worker of [fetch_live_positions] returns all of them, though its window
    is 250. *)
Lemma unbounded_worker_clean_run_witness :
  fetch_range 4 honest_1200 0 250 1 1 = Some (Done (seq 0 1200)).
Proof.
  assert (¬ 1 < 1) as Hpid by lia.
  assert (clean_run honest_1200 0 3) as Hrun.
  { split; [|by vm_compute]. intros [|[|[|k]]] Hk; try lia; vm_compute; eauto. }
  assert (3 < 4)%nat as Hfuel by lia.
  pose proof (proj1 (unbounded_worker_clean_run honest_1200 0 250 1 1 3 4
                       Hpid Hrun Hfuel)) as H.
  rewrite H. vm_compute. reflexivity.
Defined.

(** X8. A worker whose id is below [num_processes], on a server that
    answers every request with a non-empty page, returns exactly
    [end_offset - start_offset] records, whatever the sizes of the pages. *)
Theorem bounded_worker_exact {A : Type}
    (http : nat → Z → Z → response A)
    (start_offset end_offset process_id num_processes : Z) :
  start_offset ≤ end_offset →
  process_id < num_processes →
  always_records http →
  ∃ all_data,
    fetch_range (S (Z.to_nat (end_offset - start_offset))) http
      start_offset end_offset process_id num_processes = Some (Done all_data)
    ∧ Z.of_nat (length all_data) = end_offset - start_offset.
Proof.
  intros Hse Hpid Hrec. unfold fetch_range.
  apply (outer_loop_exact start_offset); [done|done|simpl; lia|done|lia].
Qed.

(** [bounded_worker_exact] on a server that sends three records per page:
    a window of 250 is filled exactly. *)
Lemma bounded_worker_exact_witness :
  ∃ all_data,
    fetch_range 251 three_each 250 500 2 20 = Some (Done all_data)
    ∧ Z.of_nat (length all_data) = 250.
Proof.
  assert (250 ≤ 500) as Hse by lia.
  assert (2 < 20) as Hpid by lia.
  assert (always_records three_each) as Hrec by (intros n o l; simpl; eauto).
  exact (bounded_worker_exact three_each 250 500 2 20 Hse Hpid Hrec).
Defined.

(** X9. A worker that meets nothing but 429 gives up after five requests on
    its first page and returns an empty list; it does not raise. *)
Theorem rate_limited_worker_gives_up {A : Type}
    (http : nat → Z → Z → response A)
    (start_offset end_offset process_id num_processes : Z) (fuel : nat) :
  always_rate_limited http →
  (0 < fuel)%nat →
  fetch_range fuel http start_offset end_offset process_id num_processes
  = Some (Done [])
  ∧ ∀ bounded max_limit,
      inner_loop 5 http bounded end_offset max_limit [] start_offset 0 0
      = Some (Break [] start_offset 5 5 false).
Proof.
  intros Hall Hfuel. split.
  - unfold fetch_range. destruct fuel as [|fuel]; [lia|]. cbn [outer_loop].
    destruct (bool_decide (process_id < num_processes) &&
              bool_decide (end_offset ≤ start_offset)); [done|].
    destruct (bool_decide (process_id < num_processes) &&
              bool_decide (end_offset - start_offset ≤ 0)); [done|].
    change (Z.to_nat max_retries) with 5%nat.
    rewrite (inner_loop_rate_limited end_offset _ http _ [] start_offset Hall);
      [|unfold max_retries; lia..].
    by rewrite bool_decide_true by done.
  - intros bounded max_limit.
    by rewrite (inner_loop_rate_limited end_offset _ http _ [] start_offset Hall);
      [|unfold max_retries; lia..].
Qed.

(** [rate_limited_worker_gives_up] for the second of twenty workers. *)
Lemma rate_limited_worker_gives_up_witness :
  fetch_range 1 rate_limiting 250 500 2 20 = Some (Done []).
Proof.
  assert (always_rate_limited rate_limiting) as Hall by (intros n o l; eauto).
  assert (0 < 1)%nat as Hfuel by lia.
  exact (proj1 (rate_limited_worker_gives_up rate_limiting 250 500 2 20 1 Hall Hfuel)).
Defined.

End OffsetPagerRunsFacts.

(** ** Offset pager: the windows and the merge *)
Module ParallelFacts.
Import OffsetPager OffsetPagerRuns.
Local Open Scope Z_scope.

Lemma ranges_lookup (num_processes : nat) (records_per_process : Z) (i : nat)
    (range : Z * Z * Z) :
  ranges num_processes records_per_process !! i = Some range
  ↔ (i < num_processes)%nat
    ∧ range = (Z.of_nat i * records_per_process,
               (Z.of_nat i + 1) * records_per_process, Z.of_nat i + 1).
Proof.
  unfold ranges. rewrite list_lookup_fmap. split.
  - destruct (seq 0 num_processes !! i) as [j|] eqn:Hj; [|done].
    apply lookup_seq in Hj as [-> Hj]. simpl. intros [= <-]. done.
  - intros [Hi ->]. by rewrite lookup_seq_lt.
Qed.

(** X10. The windows [all_data_parallel] hands out partition the offsets
    below [num_processes * records_per_process]: every such offset lies in
    the window of exactly one worker, the worker numbered
    [offset // records_per_process + 1], and each window spans
    [records_per_process] offsets. *)
Theorem windows_partition (num_processes : nat) (records_per_process offset : Z) :
  0 < records_per_process →
  0 ≤ offset < Z.of_nat num_processes * records_per_process →
  ∃ i start_offset end_offset,
    ranges num_processes records_per_process !! i
    = Some (start_offset, end_offset, offset / records_per_process + 1)
    ∧ start_offset ≤ offset < end_offset
    ∧ end_offset - start_offset = records_per_process
    ∧ ∀ j range, ranges num_processes records_per_process !! j = Some range →
                 range.1.1 ≤ offset < range.1.2 → j = i.
Proof.
  intros Hrpp [Ho Hlt].
  pose proof (Z.mul_div_le offset records_per_process Hrpp) as Hlow.
  pose proof (Z.mul_succ_div_gt offset records_per_process Hrpp) as Hup.
  assert (0 ≤ offset / records_per_process) as Hq by (apply Z.div_pos; lia).
  assert (offset / records_per_process < Z.of_nat num_processes) as Hqn.
  { apply Z.div_lt_upper_bound; lia. }
  set (q := offset / records_per_process) in *.
  exists (Z.to_nat q), (q * records_per_process), ((q + 1) * records_per_process).
  split; [|split; [lia|split; [lia|]]].
  - apply ranges_lookup. split; [lia|]. by rewrite Z2Nat.id by lia.
  - intros j range Hj Hin. apply ranges_lookup in Hj as [Hjn ->]. simpl in Hin.
    assert (Z.of_nat j = q); [nia|lia].
Qed.

(** [windows_partition] for the twenty windows of 250 of
    [fetch_closed_positions]: offset 4999 belongs to worker 20. *)
Lemma windows_partition_witness :
  ∃ i start_offset end_offset,
    ranges 20 250 !! i = Some (start_offset, end_offset, 20)
    ∧ start_offset ≤ 4999 < end_offset.
Proof.
  assert (0 < 250) as Hrpp by lia.
  assert (0 ≤ 4999 < Z.of_nat 20 * 250) as Ho by lia.
  destruct (windows_partition 20 250 4999 Hrpp Ho) as (i & s & e & Hi & Hin & _).
  exists i, s, e. split; [exact Hi|exact Hin].
Defined.

Section Merge.

Context {A : Type}.
Variable http : nat → nat → Z → Z → response A.
Variable completion_order : list (worker_result A) → list (worker_result A).
Hypothesis completion_order_perm : ∀ l, completion_order l ≡ₚ l.

Lemma results_bind (f : Z * Z * Z → option (worker_result A))
    (l : list (Z * Z * Z)) (results : list (worker_result A)) :
  Forall2 (λ x y, f x = Some y) l results →
  results ≫= (λ r, collected_by (Some r)) = l ≫= (λ x, collected_by (f x)).
Proof.
  induction 1 as [|x y l k Hxy _ IH]; [done|].
  change ((y :: k) ≫= λ r, collected_by (Some r))
    with (collected_by (Some y) ++ (k ≫= λ r, collected_by (Some r))).
  change ((x :: l) ≫= λ x, collected_by (f x))
    with (collected_by (f x) ++ (l ≫= λ x, collected_by (f x))).
  by rewrite IH, Hxy.
Qed.

Lemma length_bind_sum {B : Type} (g : B → list A) (l : list B) :
  length (l ≫= g) = sum_list ((λ x, length (g x)) <$> l).
Proof.
  induction l as [|x l IH]; [done|].
  change ((x :: l) ≫= g) with (g x ++ (l ≫= g)).
  rewrite length_app, IH. done.
Qed.

(** X11. With no process [all_data_parallel] raises [ValueError].  With at
    least one, when every worker ends, it returns the records of all
    workers, each worker's records together and in its own order up to the
    order of completion: the result is a permutation of the workers' lists
    put end to end, a worker that raised counting for nothing, and its
    length is the sum of their lengths. *)
Theorem all_data_parallel_merge (fuel num_processes : nat) (records_per_process : Z) :
  Forall (λ range, is_Some (run_worker fuel http num_processes range))
    (ranges num_processes records_per_process) →
  (num_processes = 0%nat →
   all_data_parallel fuel http completion_order num_processes records_per_process
   = Some (Raises "ValueError"))
  ∧ ((0 < num_processes)%nat →
     ∃ all_data,
       all_data_parallel fuel http completion_order num_processes records_per_process
       = Some (Returns all_data)
       ∧ all_data ≡ₚ ranges num_processes records_per_process
                       ≫= (λ range, collected_by (run_worker fuel http num_processes range))
       ∧ length all_data
         = sum_list ((λ range, length (collected_by
                                         (run_worker fuel http num_processes range)))
                     <$> ranges num_processes records_per_process)).
Proof.
  intros Hall. unfold all_data_parallel. split.
  { intros ->. done. }
  intros Hpos. rewrite bool_decide_false by lia.
  destruct (mapM_is_Some_2 (run_worker fuel http num_processes)
              (ranges num_processes records_per_process)) as [results Hres].
  { eapply Forall_impl; [exact Hall|]. done. }
  rewrite Hres. simpl. eexists. split; [reflexivity|].
  apply mapM_Some_1 in Hres.
  assert (completion_order results ≫= (λ r, collected_by (Some r))
          ≡ₚ ranges num_processes records_per_process
             ≫= (λ range, collected_by (run_worker fuel http num_processes range)))
    as Hperm.
  { rewrite completion_order_perm. by rewrite (results_bind _ _ _ Hres). }
  split; [exact Hperm|].
  rewrite Hperm. apply length_bind_sum.
Qed.

End Merge.

(** [all_data_parallel_merge] with three workers on a server that holds
    1200 records: the first two workers bring 250 each, the last one the
    remaining 700. *)
Lemma all_data_parallel_merge_witness :
  ∃ all_data,
    all_data_parallel 251 (λ _, honest_1200) (λ l, l) 3 250 = Some (Returns all_data)
    ∧ length all_data = 1200%nat.
Proof.
  assert (Forall (λ range, is_Some (run_worker 251 (λ _, honest_1200) 3 range))
            (ranges 3 250)) as Hall.
  { repeat constructor; vm_compute; eauto. }
  assert (0 < 3)%nat as Hpos by lia.
  destruct (proj2 (all_data_parallel_merge (λ _, honest_1200) (λ l, l)
                     (λ l, reflexivity l) 251 3 250 Hall) Hpos)
    as (all_data & E & _ & Hlen).
  exists all_data. split; [exact E|]. rewrite Hlen. vm_compute. reflexivity.
Defined.

End ParallelFacts.

(** ** The windows of the offset pager: bounded workers and the last one *)
Module WindowFacts.
Import OffsetPager OffsetPagerRuns OffsetPagerWindows.
Local Open Scope Z_scope.

Section WithRecords.

Context {A : Type}.
Implicit Types (all_data : list A) (http : nat → Z → Z → response A).

(** Before any trimming the accumulator holds as many records as the offset
    has advanced. *)
Lemma bounded_walk_length http (start_offset end_offset : Z) (k : nat) :
  Z.of_nat (length (bounded_walk http start_offset end_offset k).1.1)
  = (bounded_walk http start_offset end_offset k).1.2 - start_offset.
Proof.
  induction k as [|k IH]; simpl; [lia|].
  destruct (bounded_walk http start_offset end_offset k) as [[d off] ml]. simpl in *.
  destruct (good_items _) as [items|]; simpl; [|done].
  rewrite length_app. lia.
Qed.

Lemma walk_length http (start_offset : Z) (m : nat) :
  Z.of_nat (length (walk http start_offset m).1) = (walk http start_offset m).2 - start_offset.
Proof.
  induction m as [|m IH]; simpl; [lia|].
  destruct (walk http start_offset m) as [d off]. simpl in *.
  destruct (good_items (http m off 500)) as [items|]; simpl; [|done].
  rewrite length_app. lia.
Qed.

(** Once the offset has reached the boundary or passed it, the accumulator
    is cut to the window and the offset set to the boundary. *)
Lemma trim_to_window (start_offset end_offset : Z) all_data (current_offset : Z) :
  Z.of_nat (length all_data) = current_offset - start_offset →
  start_offset ≤ end_offset →
  end_offset ≤ current_offset →
  trim true end_offset all_data current_offset
  = (take (Z.to_nat (end_offset - start_offset)) all_data, end_offset).
Proof.
  intros Hlen Hse Hover. unfold trim. rewrite andb_true_l.
  destruct (bool_decide (current_offset > end_offset)) eqn:Hgt.
  - apply bool_decide_eq_true in Hgt.
    rewrite (bool_decide_true (current_offset - end_offset > 0)) by lia.
    rewrite (bool_decide_true (current_offset - end_offset ≤ Z.of_nat (length all_data)))
      by lia.
    do 2 f_equal. lia.
  - apply bool_decide_eq_false in Hgt.
    rewrite take_ge by lia. f_equal. lia.
Qed.

(** Whatever the server answers, a page collected by the inner loop of a
    bounded worker is appended, the accumulator cut to the window and the
    offset set to the boundary when it would pass it; the accumulator is
    again as long as the offset has advanced. *)
Lemma inner_loop_collects http (start_offset end_offset max_limit : Z) (fuel : nat)
    all_data (current_offset : Z) :
  start_offset ≤ end_offset →
  Z.of_nat (length all_data) = current_offset - start_offset →
  current_offset ≤ end_offset →
  ∀ (n : nat) (retry_count : Z) all_data' (current_offset' : Z) (n' : nat)
    (retry_count' : Z),
    inner_loop fuel http true end_offset max_limit all_data current_offset n retry_count
    = Some (Break all_data' current_offset' n' retry_count' true) →
    ∃ items,
      items ≠ []
      ∧ all_data' = take (Z.to_nat (end_offset - start_offset)) (all_data ++ items)
      ∧ current_offset' = Z.min (current_offset + Z.of_nat (length items)) end_offset
      ∧ Z.of_nat (length all_data') = current_offset' - start_offset
      ∧ current_offset' ≤ end_offset.
Proof.
  intros Hse Hlen Hoff. induction fuel as [|fuel IH]; intros n rc d' off' n' rc' H; [done|].
  cbn [inner_loop] in H.
  destruct (bool_decide (rc < max_retries)); [|done].
  destruct (success _ && truthy_json _) eqn:Hok.
  { apply andb_true_iff in Hok as [_ Htruthy].
    destruct (data _) as [items|b]; [|done].
    simpl in Htruthy. apply negb_true_iff, bool_decide_eq_false in Htruthy.
    exists items. split; [done|].
    destruct (decide (end_offset ≤ current_offset + Z.of_nat (length items))) as [Hover|Hin].
    - rewrite (trim_to_window start_offset) in H by (rewrite ?length_app; lia).
      injection H as <- <- _ _. split; [done|]. split; [lia|].
      rewrite length_take, length_app. lia.
    - unfold trim in H. rewrite andb_true_l in H.
      rewrite (bool_decide_false (current_offset + Z.of_nat (length items) > end_offset))
        in H by lia.
      injection H as <- <- _ _.
      rewrite take_ge by (rewrite length_app; lia).
      split; [done|]. split; [lia|]. rewrite length_app. lia. }
  destruct (negb _); [|done].
  destruct (bool_decide (error_of _ = _)); [|done].
  destruct (bool_decide (max_retries ≤ rc + 1)); [done|].
  by eapply IH.
Qed.

Section Bounded.

Variable http : nat → Z → Z → response A.
Variables start_offset end_offset process_id num_processes : Z.
Hypothesis bounded : process_id < num_processes.

Local Abbreviation state := (bounded_walk http start_offset end_offset).

(** A good page that leaves the offset below the boundary: the loop goes
    round with one more page, untouched. *)
Lemma outer_loop_inside (fuel k : nat) :
  (state k).1.2 < end_offset →
  is_Some (good_items (http k (state k).1.2
                         (Z.min (state k).2 (end_offset - (state k).1.2)))) →
  (state (S k)).1.2 < end_offset →
  outer_loop (S fuel) http end_offset process_id num_processes
    (state k).1.1 (state k).1.2 (state k).2 k
  = outer_loop fuel http end_offset process_id num_processes
      (state (S k)).1.1 (state (S k)).1.2 (state (S k)).2 (S k).
Proof.
  intros Hoff [items Hitems] Hnext. cbn [outer_loop bounded_walk] in *.
  destruct (state k) as [[d off] ml]. cbn [fst snd] in *.
  rewrite Hitems in Hnext |- *. cbn [fst snd] in Hnext |- *.
  rewrite (bool_decide_true (process_id < num_processes)) by done.
  rewrite !andb_true_l.
  rewrite (bool_decide_false (end_offset ≤ off)) by lia.
  rewrite (bool_decide_false (end_offset - off ≤ 0)) by lia.
  change (Z.to_nat max_retries) with 5%nat.
  destruct (OffsetPagerRunsFacts.inner_loop_good 4 http true end_offset (Z.min ml (end_offset - off))
              d off k items Hitems) as [-> _].
  unfold trim. rewrite andb_true_l.
  rewrite (bool_decide_false (off + Z.of_nat (length items) > end_offset)) by lia.
  simpl. rewrite (bool_decide_false (end_offset ≤ off + Z.of_nat (length items))) by lia.
  done.
Qed.

(** A good page that carries the offset to the boundary or past it: the
    worker ends with the first [end_offset - start_offset] records. *)
Lemma outer_loop_reaches (fuel k : nat) :
  (state k).1.2 < end_offset →
  is_Some (good_items (http k (state k).1.2
                         (Z.min (state k).2 (end_offset - (state k).1.2)))) →
  end_offset ≤ (state (S k)).1.2 →
  outer_loop (S fuel) http end_offset process_id num_processes
    (state k).1.1 (state k).1.2 (state k).2 k
  = Some (Done (take (Z.to_nat (end_offset - start_offset)) (state (S k)).1.1)).
Proof.
  intros Hoff [items Hitems] Hnext.
  pose proof (bounded_walk_length http start_offset end_offset k) as Hlen.
  cbn [outer_loop bounded_walk] in *.
  destruct (state k) as [[d off] ml]. cbn [fst snd] in *.
  rewrite Hitems in Hnext |- *. cbn [fst snd] in Hnext |- *.
  rewrite (bool_decide_true (process_id < num_processes)) by done.
  rewrite !andb_true_l.
  rewrite (bool_decide_false (end_offset ≤ off)) by lia.
  rewrite (bool_decide_false (end_offset - off ≤ 0)) by lia.
  change (Z.to_nat max_retries) with 5%nat.
  destruct (OffsetPagerRunsFacts.inner_loop_good 4 http true end_offset (Z.min ml (end_offset - off))
              d off k items Hitems) as [-> _].
  rewrite (trim_to_window start_offset) by (rewrite ?length_app; lia).
  cbn [fst snd].
  rewrite (bool_decide_false (max_retries ≤ 0)) by (unfold max_retries; lia).
  rewrite (bool_decide_true (end_offset ≤ end_offset)) by lia.
  done.
Qed.

(** An answer that stops the worker below the boundary: it returns what it
    has. *)
Lemma outer_loop_stopped (fuel k : nat) :
  (state k).1.2 < end_offset →
  stops_worker (http k (state k).1.2
                  (Z.min (state k).2 (end_offset - (state k).1.2))) = true →
  outer_loop (S fuel) http end_offset process_id num_processes
    (state k).1.1 (state k).1.2 (state k).2 k
  = Some (Done (take (Z.to_nat (end_offset - start_offset)) (state k).1.1)).
Proof.
  intros Hoff Hstop.
  pose proof (bounded_walk_length http start_offset end_offset k) as Hlen.
  cbn [outer_loop].
  destruct (state k) as [[d off] ml]. cbn [fst snd] in *.
  rewrite (bool_decide_true (process_id < num_processes)) by done.
  rewrite !andb_true_l.
  rewrite (bool_decide_false (end_offset ≤ off)) by lia.
  rewrite (bool_decide_false (end_offset - off ≤ 0)) by lia.
  change (Z.to_nat max_retries) with 5%nat.
  rewrite OffsetPagerRunsFacts.inner_loop_stop by done.
  rewrite take_ge; [done|lia].
Qed.

Lemma outer_loop_bounded_clean_run (m : nat) :
  bounded_clean_run http start_offset end_offset m →
  ∀ (j k fuel : nat),
    (k + j = m)%nat → (j < fuel)%nat →
    (k < m)%nat ∨ (state m).1.2 < end_offset →
    outer_loop fuel http end_offset process_id num_processes
      (state k).1.1 (state k).1.2 (state k).2 k
    = Some (Done (take (Z.to_nat (end_offset - start_offset)) (state m).1.1)).
Proof.
  intros [Hgood Hend].
  induction j as [|j IH]; intros k fuel Hk Hfuel Hin;
    (destruct fuel as [|fuel]; [lia|]).
  - assert (k = m) as -> by lia. destruct Hin as [?|Hin]; [lia|].
    destruct (state m) as [[d off] ml] eqn:Em. cbn [fst snd] in Hin.
    destruct Hend as [?|Hstop]; [lia|].
    pose proof (outer_loop_stopped fuel m) as H. rewrite Em in H. cbn [fst snd] in H |- *.
    by apply H.
  - pose proof (Hgood k) as Hk'.
    destruct (state k) as [[d off] ml] eqn:Ek.
    destruct Hk' as [Hoff Hitems]; [lia|].
    destruct (decide ((state (S k)).1.2 < end_offset)) as [Hnext|Hnext].
    + pose proof (outer_loop_inside fuel k) as H. rewrite Ek in H. cbn [fst snd] in H |- *.
      rewrite H by done.
      apply IH; [lia|lia|].
      destruct (decide (S k = m)) as [<-|?]; [by right|left; lia].
    + pose proof (outer_loop_reaches fuel k) as H. rewrite Ek in H. cbn [fst snd] in H |- *.
      rewrite H by (done || lia).
      destruct (decide (S k = m)) as [<-|Hne]; [done|].
      exfalso. assert (S k < m)%nat as Hlt by lia.
      pose proof (Hgood (S k) Hlt) as Hsk.
      destruct (state (S k)) as [[d' off'] ml']. destruct Hsk as [Hoff' _].
      cbn [fst snd] in Hnext. lia.
Qed.

(** The run of a bounded worker: the pages received, cut to the window. *)
Lemma fetch_range_bounded_clean_run (m fuel : nat) :
  bounded_clean_run http start_offset end_offset m →
  (m < fuel)%nat →
  fetch_range fuel http start_offset end_offset process_id num_processes
  = Some (Done (take (Z.to_nat (end_offset - start_offset)) (state m).1.1)).
Proof.
  intros Hrun Hfuel. unfold fetch_range.
  destruct (decide ((0 < m)%nat ∨ (state m).1.2 < end_offset)) as [Hin|Hout].
  - apply (outer_loop_bounded_clean_run m Hrun m 0 fuel); [lia|lia|done].
  - assert (m = 0%nat) as -> by lia. simpl in Hout.
    destruct fuel as [|fuel]; [lia|]. cbn [outer_loop].
    rewrite (bool_decide_true (process_id < num_processes)) by done.
    rewrite andb_true_l. rewrite (bool_decide_true (end_offset ≤ start_offset)) by lia.
    cbn [bounded_walk fst]. by rewrite take_nil.
Qed.

End Bounded.

End WithRecords.




End WindowFacts.

(** ** Graph pager and batches: further properties *)
Module SubgraphRunsFacts.
Import Subgraph SubgraphFacts SubgraphRuns.
Local Open Scope Z_scope.

Lemma transform_balance (pos : raw_position) :
  transform pos !! "balance" = Some (default (VStr "0") (raw_balance pos)).
Proof.
  unfold transform.
  rewrite lookup_insert_ne by done. rewrite lookup_insert_ne by done.
  apply lookup_insert_eq.
Qed.

Lemma is_closed_transform (pos : raw_position) :
  is_closed (transform pos) = raw_closed pos.
Proof.
  unfold is_closed, balance_str, raw_closed. rewrite transform_balance. simpl.
  destruct (raw_balance pos) as [balance|]; simpl; done.
Qed.

Lemma filter_fmap_transform (b : bool) (raws : list raw_position) :
  filter (λ p, is_closed p = b) (transform <$> raws)
  = transform <$> filter (λ r, raw_closed r = b) raws.
Proof.
  induction raws as [|r raws IH]; [done|].
  rewrite fmap_cons.
  destruct (decide (raw_closed r = b)) as [Hb|Hb].
  - rewrite (filter_cons_True (λ r, raw_closed r = b)) by done.
    rewrite filter_cons_True by (by rewrite is_closed_transform).
    by rewrite fmap_cons, IH.
  - rewrite (filter_cons_False (λ r, raw_closed r = b)) by done.
    rewrite filter_cons_False by (by rewrite is_closed_transform).
    done.
Qed.

(** X12. Splitting the positions [get_user_positions] builds from a page
    sorts the raw positions by their balance: those without a balance or
    with the balance "0" come out closed, all others active, each list in
    the order of the page; every position built has its six keys. *)
Theorem split_of_transformed (raws : list raw_position) :
  split_positions (get_user_positions (Json false (Some (Some raws))))
  = (transform <$> filter (λ r, raw_closed r = false) raws,
     transform <$> filter (λ r, raw_closed r = true) raws)
  ∧ ∀ pos, pos ∈ get_user_positions (Json false (Some (Some raws))) →
           dom pos = {["id"; "user"; "balance"; "tokenId"; "conditionId"; "outcomeIndex"]}.
Proof.
  simpl. split.
  - rewrite split_positions_filter. by rewrite !filter_fmap_transform.
  - intros pos Hpos. apply list_elem_of_fmap in Hpos as (r & -> & _).
    unfold transform. rewrite !dom_insert_L, dom_empty_L. set_solver.
Qed.

Section Endless.

Variable graphql : nat → Z → Z → graphql_result.
Variable batch_size : Z.

Local Abbreviation page := (Subgraph.page graphql batch_size).
Local Abbreviation stops := (Subgraph.stops batch_size).

Lemma pager_loop_endless (fuel : nat) :
  (∀ k, ¬ stops (page k)) →
  ∀ (j : nat) (all_positions : list pydict) (queries : list (Z * Z)),
    pager_loop fuel graphql batch_size all_positions queries (Z.of_nat j * batch_size) j
    = None.
Proof.
  intros Hfull. induction fuel as [|fuel IH]; intros j all qs; [done|].
  cbn [pager_loop]. fold (page j).
  rewrite bool_decide_false by (intros He; apply (Hfull j); by left).
  rewrite bool_decide_false by (intros Hs; apply (Hfull j); by right).
  replace (Z.of_nat j * batch_size + batch_size) with (Z.of_nat (S j) * batch_size) by lia.
  apply IH.
Qed.

(** X13. [get_all_user_positions] has no cap on the number of pages: as
    long as every page is non-empty and at least [batch_size] long it asks
    for the next one, so on a subgraph that never sends a short page it does
    not end. *)
Theorem cursor_pagination_has_no_cap (fuel : nat) :
  (∀ k, ¬ stops (page k)) →
  get_all_user_positions fuel graphql batch_size = None.
Proof.
  intros Hfull. unfold get_all_user_positions.
  change 0 with (Z.of_nat 0 * batch_size). by apply pager_loop_endless.
Qed.

End Endless.

(** [cursor_pagination_has_no_cap] on a subgraph that always has one more
    position, asked for pages of one. *)
Lemma cursor_pagination_has_no_cap_witness :
  get_all_user_positions 1000 endless 1 = None.
Proof.
  apply cursor_pagination_has_no_cap.
  intros k [H|H]; unfold page in H; simpl in H; [discriminate|lia].
Defined.

End SubgraphRunsFacts.

(** ** Batches of ids and the single-id fetch *)
Module BatchesFacts.
Import Subgraph SubgraphRuns.
Local Open Scope Z_scope.

(** The first [k] slices of width [n] put end to end are the first [k * n]
    elements. *)
Lemma concat_slices {A : Type} (n : nat) (l : list A) (k : nat) :
  concat ((λ i : nat, take n (drop (i * n) l)) <$> seq 0 k) = take (k * n) l.
Proof.
  induction k as [|k IH]; [done|].
  rewrite seq_S, fmap_app, concat_app, IH. simpl.
  rewrite app_nil_r, take_take_drop. f_equal. lia.
Qed.

Lemma ceil_div_covers (len n : nat) :
  (0 < n)%nat → (len ≤ (len + n - 1) / n * n)%nat.
Proof.
  intros Hn.
  pose proof (Nat.div_mod_eq (len + n - 1) n) as Hdm.
  pose proof (Nat.mod_upper_bound (len + n - 1) n) as Hmod. nia.
Qed.

Lemma ceil_div_tight (len n i : nat) :
  (0 < n)%nat → (i < (len + n - 1) / n)%nat → (i * n < len)%nat.
Proof.
  intros Hn Hi.
  pose proof (Nat.div_mod_eq (len + n - 1) n) as Hdm.
  pose proof (Nat.mod_upper_bound (len + n - 1) n) as Hmod. nia.
Qed.

(** X14. [fetch_from_rest] cuts the condition ids into batches that, put
    end to end, are the ids again: every id is sent in exactly one batch, in
    order; no batch is empty and none holds more than
    [markets_per_request] ids. *)
Theorem batches_partition (markets_per_request : nat) (condition_ids : list string) :
  (0 < markets_per_request)%nat →
  concat (batches markets_per_request condition_ids) = condition_ids
  ∧ Forall (λ batch, (0 < length batch ≤ markets_per_request)%nat)
      (batches markets_per_request condition_ids)
  ∧ length (batches markets_per_request condition_ids)
    = ((length condition_ids + markets_per_request - 1) / markets_per_request)%nat.
Proof.
  intros Hn. unfold batches. split; [|split].
  - rewrite concat_slices. apply take_ge. by apply ceil_div_covers.
  - apply Forall_fmap, Forall_forall. intros i Hi. simpl.
    apply elem_of_seq in Hi as [_ Hi]. simpl in Hi.
    pose proof (ceil_div_tight (length condition_ids) markets_per_request i Hn Hi).
    rewrite length_take, length_drop. lia.
  - by rewrite length_fmap, length_seq.
Qed.

(** [batches_partition] on five ids in batches of two. *)
Lemma batches_partition_witness :
  batches 2 ["a"; "b"; "c"; "d"; "e"] = [["a"; "b"]; ["c"; "d"]; ["e"]]
  ∧ concat (batches 2 ["a"; "b"; "c"; "d"; "e"]) = ["a"; "b"; "c"; "d"; "e"].
Proof.
  assert (0 < 2)%nat as Hn by lia.
  split; [reflexivity|].
  exact (proj1 (batches_partition 2 ["a"; "b"; "c"; "d"; "e"] Hn)).
Defined.

Section Single.

Variable http : nat → Z → pnl_response.

Lemma missing_loop_capped (fuel : nat) :
  single_well_behaved http →
  ∀ (condition_data : list pydict) (q : Z) (n : nat),
    0 ≤ q < 20 →
    Z.of_nat (length condition_data) ≤ 500 * q →
    (20 - Z.to_nat q ≤ fuel)%nat →
    ∃ rows, missing_loop fuel http condition_data (500 * q) n = Some rows
            ∧ Z.of_nat (length rows) ≤ 10000.
Proof.
  intros [Hno Hpage]. induction fuel as [|fuel IH]; intros data q n Hq Hlen Hfuel; [lia|].
  cbn [missing_loop]. destruct (http n (500 * q)) as [status body|] eqn:Hresp.
  2:{ exists data. split; [done|lia]. }
  destruct (bool_decide (status = 200)) eqn:H200.
  { apply bool_decide_eq_true in H200 as ->.
    destruct body as [[|d ds]|]; [exists data; split; [done|lia]| |exists data; split; [done|lia]].
    pose proof (Hpage _ _ _ Hresp) as Hsize.
    assert (Z.of_nat (length (data ++ d :: ds)) ≤ 500 * (q + 1)) as Hnew.
    { rewrite length_app. lia. }
    destruct (bool_decide (Z.of_nat (length (d :: ds)) < 500));
      [eexists; split; [done|lia]|].
    destruct (bool_decide (10000 ≤ 500 * q + 500)) eqn:Hcap;
      [eexists; split; [done|lia]|].
    apply bool_decide_eq_false in Hcap.
    replace (500 * q + 500) with (500 * (q + 1)) by lia.
    apply IH; [lia|done|lia]. }
  destruct (bool_decide (status = 429)) eqn:H429.
  { apply bool_decide_eq_true in H429 as ->. by destruct (Hno _ _ _ Hresp). }
  exists data. split; [done|lia].
Qed.

Lemma missing_loop_rate_limited (fuel : nat) :
  single_always_429 http →
  ∀ (condition_data : list pydict) (offset : Z) (n : nat),
    missing_loop fuel http condition_data offset n = None.
Proof.
  intros Hall. induction fuel as [|fuel IH]; intros data offset n; [done|].
  cbn [missing_loop]. destruct (Hall n offset) as [body ->].
  rewrite (bool_decide_false (429 = 200)) by lia.
  rewrite (bool_decide_true (429 = 429)) by done. apply IH.
Qed.

End Single.

(** X15. The single-id loop of [fetch_missing], on an endpoint that does
    not answer 429 and sends at most the 500 records asked for, ends within
    twenty requests and collects at most 10,000 records. *)
Theorem single_fetch_capped (http : string → nat → Z → pnl_response)
    (condition_id : string) :
  single_well_behaved (http condition_id) →
  ∃ rows, fetch_single 20 http condition_id = Some rows
          ∧ Z.of_nat (length rows) ≤ 10000.
Proof.
  intros Hwb. unfold fetch_single.
  change 0 with (500 * 0) at 1.
  apply missing_loop_capped; [done|lia|simpl; lia|lia].
Qed.

(** [single_fetch_capped] on an endpoint with one record. *)
Lemma single_fetch_capped_witness :
  ∃ rows, fetch_single 20 single_has_one "c1" = Some rows
          ∧ Z.of_nat (length rows) ≤ 10000.
Proof.
  assert (single_well_behaved (single_has_one "c1")) as Hwb.
  { split; [intros n o body; discriminate|].
    intros n o data [= <-]. simpl. lia. }
  exact (single_fetch_capped single_has_one "c1" Hwb).
Defined.

(** X16. The single-id loop of [fetch_missing] has no retry budget for
    429: on an endpoint that keeps answering 429 it sleeps and asks again
    without end. *)
Theorem single_fetch_never_gives_up (http : string → nat → Z → pnl_response)
    (condition_id : string) (fuel : nat) :
  single_always_429 (http condition_id) →
  fetch_single fuel http condition_id = None
  ∧ fetch_missing fuel http [condition_id] = None.
Proof.
  intros Hall.
  assert (fetch_single fuel http condition_id = None) as Hnone.
  { unfold fetch_single. by apply missing_loop_rate_limited. }
  split; [exact Hnone|].
  unfold fetch_missing. simpl. by rewrite Hnone.
Qed.

(** [single_fetch_never_gives_up] after a thousand requests. *)
Lemma single_fetch_never_gives_up_witness :
  fetch_single 1000 (λ _, always_429) "c1" = None.
Proof.
  assert (single_always_429 ((λ _ : string, always_429) "c1")) as Hall.
  { intros n o. unfold always_429. eauto. }
  exact (proj1 (single_fetch_never_gives_up (λ _, always_429) "c1" 1000 Hall)).
Defined.

End BatchesFacts.

(** ** Price lookup around a match start *)
Module PriceLookupFacts.
Import PriceHistory PriceHistoryFacts PriceLookup BatchesFacts.
Local Open Scope Z_scope.

(** What a found entry satisfies. *)
Lemma extract_Some (price_history : price_history_t) (match_ts max_hours_before : Z)
    (e : entry) :
  extract_match_start_price price_history match_ts max_hours_before = Some e →
  e ∈ history_of price_history
  ∧ match_ts - max_hours_before * 3600 ≤ entry_ts e ≤ match_ts
  ∧ ∀ e', e' ∈ history_of price_history →
          match_ts - max_hours_before * 3600 ≤ entry_ts e' ≤ match_ts →
          entry_ts e' ≤ entry_ts e.
Proof.
  unfold extract_match_start_price.
  destruct price_history as [[history|]|]; [|done|done].
  destruct history as [|x history]; [done|]. simpl history_of.
  set (valid := List.filter (in_window _ match_ts) (x :: history)).
  assert (∀ e, e ∈ valid ↔ e ∈ x :: history
                            ∧ match_ts - max_hours_before * 3600 ≤ entry_ts e ≤ match_ts)
    as Hvalid by (intros e0; apply elem_of_filter_window).
  destruct valid as [|v valid'] eqn:Ev; [done|]. rewrite <- Ev in *.
  intros Hh.
  assert (e ∈ valid) as Hin.
  { apply sorted_desc_elem_of. by apply head_Some_elem_of. }
  apply Hvalid in Hin as [Hin Hw].
  split; [done|]. split; [done|].
  intros e' He' Hw'. apply (head_sorted_desc_max valid e Hh). by apply Hvalid.
Qed.

(** X17. [get_match_start_price] asks the API for the prices between
    [hours_before] hours before the match start and the match start, and
    when it returns a price it is the price of an entry of the answer whose
    timestamp lies in that same window and is the greatest there.  A failed
    request or a status other than 200 gives [None]. *)
Theorem match_start_price_from_window
    (api : string → Z → Z → Z → api_response) (market_id : string)
    (match_ts hours_before fidelity : Z) (price : Q) :
  get_match_start_price api market_id match_ts hours_before fidelity = Some price →
  ∃ history e,
    api market_id (match_ts - hours_before * 3600) match_ts fidelity
    = ApiResp 200 (Some (Some history))
    ∧ e ∈ history
    ∧ p e = Some price
    ∧ match_ts - hours_before * 3600 ≤ entry_ts e ≤ match_ts
    ∧ ∀ e', e' ∈ history →
            match_ts - hours_before * 3600 ≤ entry_ts e' ≤ match_ts →
            entry_ts e' ≤ entry_ts e.
Proof.
  unfold get_match_start_price, get_price_history. simpl.
  destruct (api market_id (match_ts - hours_before * 3600) match_ts fidelity)
    as [status data|]; [|done].
  case_bool_decide as H200; [|done]. subst status.
  destruct data as [data|]; [|done].
  destruct (extract_match_start_price (Some data) match_ts hours_before) as [e|] eqn:E;
    [|done].
  destruct (extract_Some _ _ _ _ E) as (Hin & Hw & Hmax).
  destruct data as [history|]; [|by apply elem_of_nil in Hin].
  intros Hp. exists history, e. split; [done|]. split; [done|].
  split; [by destruct (entry_truthy e)|]. done.
Qed.

(** [match_start_price_from_window] for a match starting at 4600: of the
    entries at 1000, 4000 and 4700 the one at 4000 is the last within the
    hour before the start. *)
Lemma match_start_price_from_window_witness :
  get_match_start_price three_prices "m" 4600 1 1 = Some 0.55%Q
  ∧ ∃ history e,
      three_prices "m" (4600 - 1 * 3600) 4600 1 = ApiResp 200 (Some (Some history))
      ∧ e ∈ history ∧ p e = Some 0.55%Q ∧ 4600 - 1 * 3600 ≤ entry_ts e ≤ 4600.
Proof.
  assert (get_match_start_price three_prices "m" 4600 1 1 = Some 0.55%Q) as H
    by reflexivity.
  split; [exact H|].
  destruct (match_start_price_from_window three_prices "m" 4600 1 1 0.55%Q H)
    as (history & e & Hapi & Hin & Hp & Hw & _).
  exists history, e. done.
Defined.

(** Dropping the empty batches does not change what the batches hold. *)
Lemma concat_row_batches {A : Type} (rows : list A) (num_processes : nat) (l : list nat) :
  concat (fst <$> omap (λ i, match batch_of rows num_processes i with
                             | [] => None
                             | batch_data => Some (batch_data, (i + 1)%nat)
                             end) l)
  = concat (batch_of rows num_processes <$> l).
Proof.
  induction l as [|i l IH]; [done|].
  rewrite fmap_cons. cbn [concat]. rewrite <- IH. cbn [omap list_omap].
  destruct (batch_of rows num_processes i) as [|x b]; [done|].
  by rewrite fmap_cons.
Qed.

(** X18. [process_dataframe] hands every row to exactly one process: its
    batches, put end to end, are the rows in their order; no batch is empty
    and the process ids are between 1 and [num_processes]. *)
Theorem row_batches_partition {A : Type} (rows_data_list : list A) (num_processes : nat) :
  (0 < num_processes)%nat →
  concat (fst <$> row_batches rows_data_list num_processes) = rows_data_list
  ∧ Forall (λ b, b.1 ≠ [] ∧ (1 ≤ b.2 ≤ num_processes)%nat)
      (row_batches rows_data_list num_processes).
Proof.
  intros Hn. split.
  - unfold row_batches. rewrite concat_row_batches.
    destruct num_processes as [|n]; [lia|].
    rewrite seq_S, fmap_app, concat_app. simpl. rewrite app_nil_r.
    set (e := events_per_process (length rows_data_list) (S n)).
    assert (batch_of rows_data_list (S n) <$> seq 0 n
            = (λ i : nat, take e (drop (i * e) rows_data_list)) <$> seq 0 n) as ->.
    { apply list_fmap_ext. intros i j Hj.
      apply lookup_seq in Hj as [-> Hj]. simpl.
      unfold batch_of, slice. fold e.
      rewrite bool_decide_true by lia. f_equal. lia. }
    rewrite concat_slices.
    unfold batch_of, slice. fold e. rewrite bool_decide_false by lia.
    rewrite (take_ge (drop _ _)) by (rewrite length_drop; lia).
    apply firstn_skipn.
  - unfold row_batches. apply Forall_forall. intros [b pid] Hin.
    apply list_elem_of_omap in Hin as (i & Hi & Hb).
    apply elem_of_seq in Hi as [_ Hi].
    destruct (batch_of rows_data_list num_processes i) as [|x b'] eqn:E; [done|].
    injection Hb as <- <-. simpl. split; [done|lia].
Qed.

(** [row_batches_partition] on seven rows and three processes: batches of
    two, two and three. *)
Lemma row_batches_partition_witness :
  row_batches [1; 2; 3; 4; 5; 6; 7]%nat 3
  = [([1; 2], 1); ([3; 4], 2); ([5; 6; 7], 3)]%nat
  ∧ concat (fst <$> row_batches [1; 2; 3; 4; 5; 6; 7]%nat 3) = [1; 2; 3; 4; 5; 6; 7]%nat.
Proof.
  assert (0 < 3)%nat as Hn by lia.
  split; [reflexivity|].
  exact (proj1 (row_batches_partition [1; 2; 3; 4; 5; 6; 7]%nat 3 Hn)).
Defined.

End PriceLookupFacts.

(** ** The loop of [calculate_clv] *)
Module ClvLoopFacts.
Import Rest ClvLoop.
Import Stdlib.Strings.Ascii.

Lemma composite_key_inj (c c' a a' : string) :
  no_underscore c = true → no_underscore c' = true →
  composite_key c a = composite_key c' a' → c = c' ∧ a = a'.
Proof.
  unfold composite_key. revert c'.
  induction c as [|ch c IH]; intros [|ch' c'] Hc Hc' Heq; simpl in *.
  - by simplify_eq.
  - by simplify_eq.
  - by simplify_eq.
  - injection Heq as Hch Heq. subst ch'.
    apply andb_true_iff in Hc as [_ Hc]. apply andb_true_iff in Hc' as [_ Hc'].
    destruct (IH c' Hc Hc' Heq) as [-> ->]. done.
Qed.

(** X19. The composite key [conditionId + '_' + asset] tells two positions
    apart whenever the condition ids hold no underscore (they are hex
    strings); with underscores it need not: ("a_b", "c") and ("a", "b_c")
    share the key "a_b_c". *)
Theorem composite_key_injective (c c' a a' : string) :
  no_underscore c = true → no_underscore c' = true →
  (composite_key c a = composite_key c' a' ↔ c = c' ∧ a = a')
  ∧ composite_key "a_b" "c" = composite_key "a" "b_c".
Proof.
  intros Hc Hc'. split; [|reflexivity]. split.
  - by apply composite_key_inj.
  - by intros [-> ->].
Qed.

(** [composite_key_injective] on two outcomes of one market. *)
Lemma composite_key_injective_witness :
  composite_key "0xc" "1" ≠ composite_key "0xc" "2".
Proof.
  intros Heq.
  destruct (proj1 (proj1 (composite_key_injective "0xc" "0xc" "1" "2" eq_refl eq_refl)) Heq)
    as [_ Hbad].
  discriminate Hbad.
Defined.

Section Loop.

Variable float_sum : list float → float.
Variable sentinel : float.
Variable clv_df : list position_row.
Variable trades_df : list trade.

Local Abbreviation loop_step := (ClvLoop.loop_step float_sum sentinel clv_df trades_df).
Local Abbreviation outcome_of := (calculate_clv_group float_sum sentinel clv_df trades_df).
Local Abbreviation stored := (ClvLoop.stored float_sum sentinel clv_df trades_df).

Lemma loop_step_other (acc : gmap string clv_result * gmap string string)
    (key : string * string) (k : string) :
  composite_key key.1 key.2 ≠ k →
  (loop_step acc key).1 !! k = acc.1 !! k.
Proof.
  intros Hk. destruct acc as [res rea], key as [c a]. simpl in *.
  destruct (calculate_clv_group float_sum sentinel clv_df trades_df c a); simpl; try done.
  by rewrite lookup_insert_ne.
Qed.

Lemma loop_step_same (acc : gmap string clv_result * gmap string string) (c a : string) :
  (loop_step acc (c, a)).1 !! composite_key c a = stored c a (acc.1 !! composite_key c a).
Proof.
  destruct acc as [res rea]. unfold stored. simpl.
  destruct (calculate_clv_group float_sum sentinel clv_df trades_df c a); simpl; try done.
  by rewrite lookup_insert_eq.
Qed.

Lemma loop_untouched (l : list (string * string)) (k : string) :
  ∀ acc, (∀ key, key ∈ l → composite_key key.1 key.2 ≠ k) →
         (foldl loop_step acc l).1 !! k = acc.1 !! k.
Proof.
  induction l as [|key l IH]; intros acc Hk; [done|].
  cbn [foldl]. rewrite IH.
  - apply loop_step_other, Hk, list_elem_of_here.
  - intros key' Hin. apply Hk. by apply list_elem_of_further.
Qed.

Lemma loop_lookup (l : list (string * string)) (c a : string) :
  NoDup l →
  no_underscore c = true →
  (∀ key, key ∈ l → no_underscore key.1 = true) →
  ∀ acc,
    (foldl loop_step acc l).1 !! composite_key c a
    = if decide ((c, a) ∈ l) then stored c a (acc.1 !! composite_key c a)
      else acc.1 !! composite_key c a.
Proof.
  intros Hnd Hc. induction Hnd as [|key l Hnotin Hnd IH]; intros Hl acc.
  - rewrite decide_False by apply not_elem_of_nil. done.
  - cbn [foldl].
    assert (∀ key', key' ∈ l → no_underscore key'.1 = true) as Hl'.
    { intros key' Hin. apply Hl. by apply list_elem_of_further. }
    destruct (decide (key = (c, a))) as [->|Hne].
    + rewrite decide_True by apply list_elem_of_here.
      rewrite loop_untouched; [apply loop_step_same|].
      intros [c' a'] Hin Heq. simpl in Heq.
      apply composite_key_inj in Heq as [-> ->]; [done|by apply (Hl' (c', a'))|done].
    + rewrite IH by done.
      assert (composite_key key.1 key.2 ≠ composite_key c a) as Hk.
      { intros Heq. apply composite_key_inj in Heq as [Hc1 Ha1]; [|by apply Hl, list_elem_of_here|done].
        apply Hne. destruct key. simpl in *. by subst. }
      rewrite loop_step_other by done.
      destruct (decide ((c, a) ∈ l)) as [Hin|Hnin].
      * rewrite decide_True by (by apply list_elem_of_further). done.
      * rewrite decide_False; [done|].
        intros Hin. apply elem_of_cons in Hin as [Heq|Hin]; [by apply Hne|done].
Qed.

(** A group for which a result is computed has a trade. *)
Lemma computed_has_trades (c a : string) (r : clv_result) :
  outcome_of c a = Computed r → (c, a) ∈ group_keys trades_df.
Proof.
  unfold calculate_clv_group, clv_group. intros H.
  destruct (group_df trades_df c a) as [|tr g] eqn:Eg.
  { destruct (lookup_row clv_df c a) as [row|]; [|done].
    destruct (match_start_price row) as [closing|]; [|done]. simpl in H.
    destruct (PrimFloat.is_nan closing); [done|].
    change (PrimFloat.eqb 0 0) with true in H. done. }
  assert (List.In tr (group_df trades_df c a)) as Hin by (rewrite Eg; by left).
  unfold group_df in Hin. apply filter_In in Hin as [Hin Hkey].
  apply andb_true_iff in Hkey as [Hc Ha].
  apply bool_decide_eq_true in Hc, Ha.
  unfold group_keys. apply elem_of_remove_dups.
  apply list_elem_of_fmap. exists tr. split; [|by apply list_elem_of_In].
  unfold trade_key. by rewrite Hc, Ha.
Qed.

(** X20. Whatever the order in which the groups are visited, the loop of
    [calculate_clv] gives each position the CLV computed from the trades of
    its own (condition id, token id), provided no condition id holds an
    underscore: the columns of a row are the [price_clv] and [odds_clv] of
    its group when the group yields a result, and undefined when the group
    is skipped or the position has no trade. *)
Theorem clv_columns_own_group (groups : list (string * string)) (row : position_row) :
  groups ≡ₚ group_keys trades_df →
  (∀ tr, tr ∈ trades_df → no_underscore (conditionId tr) = true) →
  no_underscore (pos_conditionId row) = true →
  clv_columns float_sum sentinel clv_df trades_df groups row
  = match outcome_of (pos_conditionId row) (pos_asset row) with
    | Computed r => (Some (price_clv r), Some (odds_clv r))
    | _ => (None, None)
    end.
Proof.
  intros Hperm Htr Hrow. unfold clv_columns, clv_loop.
  rewrite loop_lookup.
  - simpl. rewrite lookup_empty. unfold stored.
    destruct (outcome_of (pos_conditionId row) (pos_asset row)) as [|reason|r] eqn:E;
      try (by destruct (decide _)).
    rewrite decide_True; [done|].
    rewrite Hperm. by eapply computed_has_trades.
  - rewrite Hperm. apply NoDup_remove_dups.
  - done.
  - intros key Hin. rewrite Hperm in Hin. unfold group_keys in Hin.
    rewrite elem_of_remove_dups in Hin.
    apply list_elem_of_fmap in Hin as (tr & -> & Hin). simpl. by apply Htr.
Qed.

End Loop.

(** [clv_columns_own_group] on a market with two outcomes: the first
    position gets the CLV of the worked example, the second, bought after
    the start only, none. *)
Lemma clv_columns_own_group_witness :
  ∃ price odds,
    clv_columns sequential_sum 0%float two_rows two_groups (reverse (group_keys two_groups))
      {| pos_conditionId := "0xc"; pos_asset := "1";
         start_time_unix := 30; match_start_price := Some 0.55%float |}
    = (Some price, Some odds)
    ∧ price = PrimFloat.sub 0.55 (PrimFloat.div 70 150)
    ∧ PrimFloat.ltb 0.0833 price = true ∧ PrimFloat.ltb price 0.0834 = true
    ∧ PrimFloat.ltb 0.3246 odds = true ∧ PrimFloat.ltb odds 0.3250 = true.
Proof.
  eexists _, _. split.
  - rewrite (clv_columns_own_group sequential_sum 0%float two_rows two_groups
               (reverse (group_keys two_groups))).
    + reflexivity.
    + apply reverse_Permutation.
    + intros tr Hin. repeat (apply elem_of_cons in Hin as [->|Hin]; [reflexivity|]).
      by apply elem_of_nil in Hin.
    + reflexivity.
  - simpl. repeat split; vm_compute; reflexivity.
Defined.

End ClvLoopFacts.

(** ** Market metadata *)
Module MarketsFacts.
Import Subgraph FetchClv Markets.
Local Open Scope Z_scope.

Lemma fold_process_lookup (markets : list market) (s : string) :
  s ≠ "" →
  ∀ d, foldl process_step d markets !! s
       = match last (List.filter (λ m, bool_decide (slug m = Some s)) markets) with
         | Some m => Some (info_of m)
         | None => d !! s
         end.
Proof.
  intros Hs. induction markets as [|m markets IH]; intros d; [done|].
  cbn [foldl List.filter]. rewrite IH.
  destruct (bool_decide (slug m = Some s)) eqn:Em.
  - apply bool_decide_eq_true in Em. rewrite last_cons.
    destruct (last _); [done|].
    unfold process_step. rewrite Em, bool_decide_false by done.
    by rewrite lookup_insert_eq.
  - apply bool_decide_eq_false in Em.
    destruct (last _); [done|].
    unfold process_step. destruct (slug m) as [s'|]; [|done].
    destruct (bool_decide (s' = "")); [done|].
    rewrite lookup_insert_ne; [done|]. by intros ->.
Qed.

Lemma fold_process_empty_slug (markets : list market) :
  ∀ d, foldl process_step d markets !! "" = d !! "".
Proof.
  induction markets as [|m markets IH]; intros d; [done|].
  cbn [foldl]. rewrite IH. unfold process_step.
  destruct (slug m) as [s'|]; [|done].
  destruct (bool_decide (s' = "")) eqn:E; [done|].
  apply bool_decide_eq_false in E. by rewrite lookup_insert_ne.
Qed.

(** X21. [_process_market_batch] keys the markets by slug: a slug is
    present exactly when some market of the response carries it, the entry
    is that of the last such market, and markets with a missing or empty
    slug leave no entry. *)
Theorem process_market_batch_last_wins (markets : list market) (s : string) :
  _process_market_batch markets !! s
  = if decide (s = "") then None
    else info_of <$> last (List.filter (λ m, bool_decide (slug m = Some s)) markets).
Proof.
  unfold _process_market_batch. destruct (decide (s = "")) as [->|Hs].
  - by rewrite fold_process_empty_slug.
  - rewrite fold_process_lookup by done. by destruct (last _).
Qed.

Lemma labels_truthy (tags : list pydict) :
  Forall (λ v, truthy (Some v) = true) (labels tags).
Proof.
  unfold labels. apply Forall_fmap, Forall_forall. intros tag Hin. simpl.
  apply list_elem_of_In, filter_In in Hin as [_ Htag].
  by destruct (tag !! "label").
Qed.

(** Every label stored is a truthy value. *)
Local Abbreviation clean :=
  (map_Forall (λ (_ : string) info, Forall (λ v, truthy (Some v) = true) (info_tags info))).

Lemma process_clean (markets : list market) :
  ∀ d, clean d → clean (foldl process_step d markets).
Proof.
  induction markets as [|m markets IH]; intros d Hd; [done|].
  cbn [foldl]. apply IH. unfold process_step.
  destruct (slug m) as [s|]; [|done].
  destruct (bool_decide (s = "")); [done|].
  apply map_Forall_insert_2; [apply labels_truthy|done].
Qed.

Lemma fill_missing_clean (batch_slugs : list string) :
  ∀ d, clean d → clean (fill_missing batch_slugs d).
Proof.
  unfold fill_missing.
  induction batch_slugs as [|s batch_slugs IH]; intros d Hd; [done|].
  cbn [foldl]. apply IH. destruct (d !! s); [done|].
  apply map_Forall_insert_2; [by constructor|done].
Qed.

Lemma set_defaults_clean (batch_slugs : list string) :
  ∀ d, clean d → clean (set_defaults batch_slugs d).
Proof.
  unfold set_defaults.
  induction batch_slugs as [|s batch_slugs IH]; intros d Hd; [done|].
  cbn [foldl]. apply IH. apply map_Forall_insert_2; [by constructor|done].
Qed.

Lemma market_turn_clean (all all' : gmap string market_info) (batch_slugs : list string)
    (r : response) :
  clean all → market_turn all batch_slugs r = Some all' → clean all'.
Proof.
  intros Hall. unfold market_turn. destruct r as [status json|].
  - destruct (ok status && bool_decide (status = 200)).
    + destruct json as [markets|]; [|done]. simpl. intros [= <-].
      apply map_Forall_union_2; [|done].
      apply fill_missing_clean, process_clean, map_Forall_empty.
    + intros [= <-]. by apply set_defaults_clean.
  - intros [= <-]. by apply set_defaults_clean.
Qed.

Lemma batch_loop_clean (transport : nat → response) (todo : list (list string)) :
  ∀ i all all', clean all → batch_loop market_turn transport i all todo = Some all' →
                clean all'.
Proof.
  induction todo as [|b todo IH]; intros i all all' Hall; cbn [batch_loop].
  - by intros [= <-].
  - destruct (market_turn all b (transport i)) as [all1|] eqn:E; [|done]. simpl.
    apply IH. by eapply market_turn_clean.
Qed.

(** X22. Whatever the server answers, the 'tags' that [fetch_market_data]
    attaches to a row hold only truthy labels: tags without a label, or
    with an empty one, never reach the frame. *)
Theorem fetch_market_data_labels_truthy (transport : nat → response) (df : list string)
    (batch_size : Z) (rows : list (string * option market_info))
    (slug : string) (info : market_info) :
  fetch_market_data transport df batch_size = Some rows →
  (slug, Some info) ∈ rows →
  Forall (λ v, truthy (Some v) = true) (info_tags info).
Proof.
  unfold fetch_market_data. intros Hrun Hin.
  destruct (slug_batches batch_size (unique df)) as [todo|]; [|done]. simpl in Hrun.
  destruct (batch_loop market_turn transport 0 ∅ todo) as [all|] eqn:E; [|done].
  simpl in Hrun. injection Hrun as <-.
  unfold merge in Hin. apply list_elem_of_fmap in Hin as (s & [= -> Hlook] & _).
  eapply (batch_loop_clean transport todo 0%nat ∅ all); [apply map_Forall_empty|done|].
  symmetry. apply Hlook.
Qed.

(** [fetch_market_data_labels_truthy] on a market whose tags hold an empty
    label and a tag without label. *)
Lemma fetch_market_data_labels_truthy_witness :
  ∃ info, ("a", Some info) ∈ default [] (fetch_market_data first_only ["a"; "b"] 100)
          ∧ info_tags info = [VStr "Sports"; VStr "NBA"]
          ∧ Forall (λ v, truthy (Some v) = true) (info_tags info).
Proof.
  exists (info_of market_a).
  assert (fetch_market_data first_only ["a"; "b"] 100
          = Some [("a", Some (info_of market_a)); ("b", Some default_info)]) as Hrun
    by (vm_compute; reflexivity).
  assert (("a", Some (info_of market_a))
          ∈ [("a", Some (info_of market_a)); ("b", Some default_info)]) as Hin
    by apply list_elem_of_here.
  split; [by rewrite Hrun|]. split; [vm_compute; reflexivity|].
  exact (fetch_market_data_labels_truthy first_only ["a"; "b"] 100 _ "a" _ Hrun Hin).
Defined.

Lemma concat_batches (n : nat) (l : list string) :
  (0 < n)%nat → concat (batches n l) = l.
Proof.
  intros Hn. unfold batches. rewrite BatchesFacts.concat_slices.
  apply take_ge. by apply BatchesFacts.ceil_div_covers.
Qed.

Lemma fill_missing_covers (batch_slugs : list string) :
  ∀ d, (∀ s, is_Some (d !! s) → is_Some (fill_missing batch_slugs d !! s))
       ∧ (∀ s, s ∈ batch_slugs → is_Some (fill_missing batch_slugs d !! s)).
Proof.
  unfold fill_missing.
  induction batch_slugs as [|s0 batch_slugs IH]; intros d.
  { split; [done|]. intros s Hin. by apply elem_of_nil in Hin. }
  cbn [foldl].
  set (d1 := match d !! s0 with Some _ => d | None => <[s0 := default_info]> d end).
  destruct (IH d1) as [Hkeep Hcov].
  assert (∀ s, is_Some (d !! s) → is_Some (d1 !! s)) as Hd1.
  { intros s Hs. unfold d1. destruct (d !! s0); [done|].
    destruct (decide (s = s0)) as [->|Hne];
      [by rewrite lookup_insert_eq|by rewrite lookup_insert_ne]. }
  assert (is_Some (d1 !! s0)) as Hs0.
  { unfold d1. destruct (d !! s0) eqn:E; [by rewrite E|by rewrite lookup_insert_eq]. }
  split.
  - intros s Hs. by apply Hkeep, Hd1.
  - intros s Hin. apply elem_of_cons in Hin as [->|Hin]; [by apply Hkeep|by apply Hcov].
Qed.

Lemma set_defaults_lookup (batch_slugs : list string) (s : string) :
  ∀ d, set_defaults batch_slugs d !! s
       = if decide (s ∈ batch_slugs) then Some default_info else d !! s.
Proof.
  unfold set_defaults.
  induction batch_slugs as [|s0 batch_slugs IH]; intros d.
  { rewrite decide_False by apply not_elem_of_nil. done. }
  cbn [foldl]. rewrite IH.
  destruct (decide (s ∈ batch_slugs)) as [Hin|Hnin].
  - rewrite decide_True by (by apply list_elem_of_further). done.
  - destruct (decide (s = s0)) as [->|Hne].
    + rewrite decide_True by apply list_elem_of_here. by rewrite lookup_insert_eq.
    + rewrite decide_False; [by rewrite lookup_insert_ne|].
      intros Hin. apply elem_of_cons in Hin as [?|?]; done.
Qed.

Lemma market_turn_covers (all : gmap string market_info) (batch_slugs : list string)
    (r : response) :
  (∀ status, r = Resp status None → status ≠ 200) →
  ∃ all', market_turn all batch_slugs r = Some all'
          ∧ (∀ s, is_Some (all !! s) → is_Some (all' !! s))
          ∧ (∀ s, s ∈ batch_slugs → is_Some (all' !! s)).
Proof.
  intros Hjson.
  assert (∀ s, is_Some (all !! s) → is_Some (set_defaults batch_slugs all !! s)) as Hkeep.
  { intros s Hs. rewrite set_defaults_lookup. by destruct (decide _). }
  assert (∀ s, s ∈ batch_slugs → is_Some (set_defaults batch_slugs all !! s)) as Hcov.
  { intros s Hs. rewrite set_defaults_lookup. by rewrite decide_True. }
  unfold market_turn. destruct r as [status json|]; [|by eexists].
  destruct (ok status && bool_decide (status = 200)) eqn:E; [|by eexists].
  apply andb_true_iff in E as [_ E]. apply bool_decide_eq_true in E.
  destruct json as [markets|]; [|by destruct (Hjson status)].
  eexists. split; [reflexivity|]. unfold update.
  destruct (fill_missing_covers batch_slugs (_process_market_batch markets)) as [_ Hfill].
  split.
  - intros s Hs. apply lookup_union_is_Some. by right.
  - intros s Hs. apply lookup_union_is_Some. left. by apply Hfill.
Qed.

Lemma batch_loop_covers (transport : nat → response) (todo : list (list string)) :
  (∀ i status, transport i = Resp status None → status ≠ 200) →
  ∀ i all, ∃ all', batch_loop market_turn transport i all todo = Some all'
                   ∧ (∀ s, is_Some (all !! s) → is_Some (all' !! s))
                   ∧ (∀ s, s ∈ concat todo → is_Some (all' !! s)).
Proof.
  intros Hjson. induction todo as [|b todo IH]; intros i all; cbn [batch_loop].
  - eexists. split; [done|]. split; [done|]. intros s Hin. by apply elem_of_nil in Hin.
  - destruct (market_turn_covers all b (transport i) (Hjson i)) as (all1 & -> & Hkeep1 & Hcov1).
    simpl. destruct (IH (S i) all1) as (all' & -> & Hkeep & Hcov).
    eexists. split; [done|]. split.
    + intros s Hs. by apply Hkeep, Hkeep1.
    + intros s Hin. simpl in Hin. apply elem_of_app in Hin as [Hin|Hin];
        [by apply Hkeep, Hcov1|by apply Hcov].
Qed.

(** X23. [fetch_market_data] of src/fetch.py returns, and leaves no row
    without metadata: with a positive batch size, and as long as no 200
    response has a body that cannot be read, every row of the returned
    frame carries an entry for its slug, whether its batch was answered,
    refused or lost to an exception; the rows are those of the input, in
    order. *)
Theorem fetch_market_data_covers (transport : nat → response) (df : list string)
    (batch_size : Z) :
  0 < batch_size →
  (∀ i status, transport i = Resp status None → status ≠ 200) →
  ∃ rows, fetch_market_data transport df batch_size = Some rows
          ∧ rows.*1 = df
          ∧ Forall (λ row, is_Some row.2) rows.
Proof.
  intros Hsize Hjson. unfold fetch_market_data, slug_batches.
  rewrite bool_decide_false, bool_decide_false by lia. simpl.
  destruct (batch_loop_covers transport (batches (Z.to_nat batch_size) (unique df))
              Hjson 0%nat ∅) as (all & -> & _ & Hcov).
  simpl. eexists. split; [done|]. unfold merge. split.
  - rewrite <- list_fmap_compose. apply list_fmap_id.
  - apply Forall_fmap, Forall_forall. intros s Hin. simpl. apply Hcov.
    rewrite concat_batches by lia. by apply OrchestrationMoreFacts.unique_elem_of.
Qed.

(** [fetch_market_data_covers] on three rows in batches of one: the first
    batch is answered, the second refused, the third lost. *)
Lemma fetch_market_data_covers_witness :
  ∃ rows, fetch_market_data first_only ["a"; "b"; "a"; "c"] 1 = Some rows
          ∧ rows.*1 = ["a"; "b"; "a"; "c"]
          ∧ Forall (λ row, is_Some row.2) rows.
Proof.
  apply (fetch_market_data_covers first_only ["a"; "b"; "a"; "c"] 1); [lia|].
  intros [|[|i]] status H; simpl in H; [|discriminate..].
  injection H as _ H. discriminate H.
Defined.

Lemma batch_loop_all_down (transport : nat → response) (todo : list (list string)) (s : string) :
  (∀ i, match transport i with
        | Resp status _ => status ≠ 200
        | RequestException => True
        end) →
  ∀ i all, ∃ all', batch_loop market_turn transport i all todo = Some all'
                   ∧ all' !! s = if decide (s ∈ concat todo) then Some default_info
                                 else all !! s.
Proof.
  intros Hdown. induction todo as [|b todo IH]; intros i all; cbn [batch_loop].
  - eexists. split; [done|]. by rewrite decide_False by apply not_elem_of_nil.
  - assert (market_turn all b (transport i) = Some (set_defaults b all)) as ->.
    { pose proof (Hdown i) as Hi. unfold market_turn.
      destruct (transport i) as [status json|]; [|done].
      by rewrite (bool_decide_false (status = 200)), andb_false_r. }
    simpl. destruct (IH (S i) (set_defaults b all)) as (all' & -> & Hlook).
    eexists. split; [done|]. rewrite Hlook, set_defaults_lookup. simpl.
    destruct (decide (s ∈ concat todo)) as [Hin|Hnin].
    + rewrite decide_True; [done|]. apply elem_of_app. by right.
    + destruct (decide (s ∈ b)) as [Hb|Hnb].
      * rewrite decide_True; [done|]. apply elem_of_app. by left.
      * rewrite decide_False; [done|]. intros Hin. apply elem_of_app in Hin as [?|?]; done.
Qed.

(** X24. A market endpoint that is down does not make [fetch_market_data]
    fail: when every request raises or is answered with a status other
    than 200, the function still returns the frame, every row with the
    default entry (no tags, no start time, no volume). *)
Theorem fetch_market_data_endpoint_down (transport : nat → response) (df : list string)
    (batch_size : Z) :
  0 < batch_size →
  (∀ i, match transport i with
        | Resp status _ => status ≠ 200
        | RequestException => True
        end) →
  fetch_market_data transport df batch_size = Some ((λ slug, (slug, Some default_info)) <$> df).
Proof.
  intros Hsize Hdown. unfold fetch_market_data, slug_batches.
  rewrite bool_decide_false, bool_decide_false by lia. simpl.
  destruct (batch_loop market_turn transport 0 ∅ (batches (Z.to_nat batch_size) (unique df)))
    as [all|] eqn:E.
  - simpl. f_equal. unfold merge. apply list_fmap_ext. intros i s Hs. f_equal.
    destruct (batch_loop_all_down transport (batches (Z.to_nat batch_size) (unique df)) s
                Hdown 0%nat ∅) as (all' & Hrun & Hlook).
    rewrite E in Hrun. injection Hrun as <-. rewrite Hlook.
    rewrite decide_True; [done|].
    rewrite concat_batches by lia. apply OrchestrationMoreFacts.unique_elem_of.
    by eapply list_elem_of_lookup_2.
  - destruct (batch_loop_all_down transport (batches (Z.to_nat batch_size) (unique df)) ""
                Hdown 0%nat ∅) as (all' & Hrun & _).
    by rewrite E in Hrun.
Qed.

(** [fetch_market_data_endpoint_down] with every request raising. *)
Lemma fetch_market_data_endpoint_down_witness :
  fetch_market_data always_down ["a"; "b"; "a"] 2
  = Some [("a", Some default_info); ("b", Some default_info); ("a", Some default_info)].
Proof.
  apply (fetch_market_data_endpoint_down always_down ["a"; "b"; "a"] 2); [lia|].
  intros i. exact I.
Defined.

Lemma batch_loop_raises (turn : gmap string market_info → list string → response
                                → option (gmap string market_info))
    (transport : nat → response) (todo : list (list string)) :
  ∀ i all k b,
    todo !! k = Some b →
    (∀ d, turn d b (transport (i + k)%nat) = None) →
    batch_loop turn transport i all todo = None.
Proof.
  induction todo as [|b0 todo IH]; intros i all k b Hk Hturn; [done|].
  cbn [batch_loop]. destruct k as [|k].
  - injection Hk as ->. rewrite Nat.add_0_r in Hturn. by rewrite Hturn.
  - destruct (turn all b0 (transport i)) as [all1|]; [|done]. simpl.
    apply (IH (S i) all1 k b); [done|].
    intros d. replace (S i + k)%nat with (i + S k)%nat by lia. apply Hturn.
Qed.

(** X25. [_fetch_market_data] of the package does not survive a lost
    request: when the request of any batch raises, the exception is
    printed, the slugs get their default entry, and the call
    [response.json()] on the missing response then raises, so the function
    returns nothing. *)
Theorem package_fetch_raises_on_lost_request (transport : nat → response)
    (df : list string) (batch_size : Z) (k : nat) :
  0 < batch_size →
  (k < length (batches (Z.to_nat batch_size) (unique df)))%nat →
  transport k = RequestException →
  _fetch_market_data transport df batch_size = None.
Proof.
  intros Hsize Hk Hlost. unfold _fetch_market_data, slug_batches.
  rewrite bool_decide_false, bool_decide_false by lia. simpl.
  destruct (lookup_lt_is_Some_2 _ _ Hk) as [b Hb].
  rewrite (batch_loop_raises _market_turn transport _ 0%nat ∅ k b Hb); [done|].
  intros d. simpl. by rewrite Hlost.
Qed.

(** [package_fetch_raises_on_lost_request] on the second of two batches;
    [fetch_market_data] of src/fetch.py returns on the same input. *)
Lemma package_fetch_raises_on_lost_request_witness :
  _fetch_market_data first_only ["a"; "b"; "c"] 1 = None
  ∧ is_Some (fetch_market_data first_only ["a"; "b"; "c"] 1).
Proof.
  split.
  - apply (package_fetch_raises_on_lost_request first_only ["a"; "b"; "c"] 1 2);
      [lia|vm_compute; lia|reflexivity].
  - vm_compute. by eexists.
Defined.

Lemma fold_process_union (markets : list market) (d : gmap string market_info) :
  foldl process_step d markets = _process_market_batch markets ∪ d.
Proof.
  unfold _process_market_batch.
  induction markets as [|m markets IH] using rev_ind.
  - simpl. by rewrite (left_id_L ∅ (∪)).
  - rewrite !foldl_snoc, IH. unfold process_step.
    destruct (slug m) as [s|]; [|done].
    destruct (bool_decide (s = "")); [done|]. by rewrite insert_union_l.
Qed.

Lemma package_loop_all_200 (transport : nat → response) (bodies : nat → list market)
    (todo : list (list string)) :
  ∀ i all,
    (∀ j, (i ≤ j < i + length todo)%nat → transport j = Resp 200 (Some (bodies j))) →
    batch_loop _market_turn transport i all todo
    = Some (foldl process_step all (concat (bodies <$> seq i (length todo)))).
Proof.
  induction todo as [|b todo IH]; intros i all Hall; [done|].
  cbn [batch_loop]. rewrite (Hall i) by (simpl; lia). simpl.
  rewrite IH by (intros j Hj; apply Hall; simpl; lia).
  f_equal. rewrite foldl_app. f_equal.
  unfold update. symmetry. apply fold_process_union.
Qed.

(** X26. When every batch is answered with status 200, what
    [_fetch_market_data] of the package knows about the markets is exactly
    what the responses hold, taken in order, whatever slugs were asked
    for: a row whose slug no response carries gets no entry at all (not
    even the default one), unlike in [fetch_market_data] of src/fetch.py. *)
Theorem package_fetch_all_200 (transport : nat → response) (bodies : nat → list market)
    (df : list string) (batch_size : Z) :
  0 < batch_size →
  (∀ j, (j < length (batches (Z.to_nat batch_size) (unique df)))%nat →
        transport j = Resp 200 (Some (bodies j))) →
  _fetch_market_data transport df batch_size
  = Some (merge df (_process_market_batch
            (concat (bodies <$> seq 0 (length (batches (Z.to_nat batch_size) (unique df))))))).
Proof.
  intros Hsize Hall. unfold _fetch_market_data, slug_batches.
  rewrite bool_decide_false, bool_decide_false by lia. simpl.
  rewrite (package_loop_all_200 transport bodies) by (intros j Hj; apply Hall; lia).
  done.
Qed.

(** [package_fetch_all_200] on a server that only knows market "a": the
    row of "b" is left without metadata by the package, and gets the
    default entry from [fetch_market_data]. *)
Lemma package_fetch_all_200_witness :
  _fetch_market_data always_a ["a"; "b"] 100
  = Some [("a", Some (info_of market_a)); ("b", None)]
  ∧ fetch_market_data always_a ["a"; "b"] 100
    = Some [("a", Some (info_of market_a)); ("b", Some default_info)].
Proof.
  split.
  - rewrite (package_fetch_all_200 always_a (λ _, [market_a]) ["a"; "b"] 100);
      [vm_compute; reflexivity|lia|done].
  - vm_compute. reflexivity.
Defined.

End MarketsFacts.
